(** * Policy parameter projection (ppp.py): a shallow embedding

    The script [ppp.py] projects the values of the inflation-indexed policy
    parameters over the years [pyear .. fyear]: it selects the reverting
    parameters, dumps their current values to [ppp.old], builds the
    inflation factors and writes the projected values to [ppp.new].

    Modelling conventions.
    - Python numbers are exact rationals ([Qc], canonical fractions, so that
      equality is Leibniz equality).  The rounding error of binary64
      arithmetic is outside this model; [math.floor], [math.ceil], [%],
      [min] and [round] have their mathematical meaning.
    - The script is module-level code working on global variables, some of
      which are read inside [round_down] and [round_nearest].  The globals
      live in a record [globals]; a statement is a function from [globals]
      to a new [globals] and an outcome, which is a value or a raised
      exception.  The two output files and the standard output are part of
      [globals], so that what was written before an exception stays visible.
    - [taxcalc.Policy] is not part of the script: the parameter table
      [clp._vals], the rate list [clp.inflation_rates()] and
      [Policy.JSON_START_YEAR] are inputs of the model. *)

From Stdlib Require Import QArith Qcanon Qround ZArith Lia Lqa.
From stdpp Require Import base numbers list list_numbers gmap strings sorting.

Local Open Scope Z_scope.

(** ** Numbers *)

Module PyNum.

Definition of_Z (n : Z) : Qc := Q2Qc (inject_Z n).

(** [math.floor] and [math.ceil] return a Python [int]. *)
Definition floor (x : Qc) : Z := Qfloor (this x).
Definition ceil (x : Qc) : Z := Qceiling (this x).

Definition ltb (x y : Qc) : bool := bool_decide (x < y)%Qc.

(** The "infinity" of the parameter table, [9e99]. *)
Definition cap : Qc := of_Z (9 * 10 ^ 99).

(** [min(a, b)] returns its first argument unless the second is
    strictly smaller. *)
Definition py_min (a b : Qc) : Qc := if ltb b a then b else a.

(** [x % g] for [g <> 0]: the remainder has the sign of [g]. *)
Definition py_mod (x g : Qc) : Qc := (x - of_Z (floor (x / g)) * g)%Qc.

(** [round(x, nd)]: the closest multiple of [10 ** -nd], a tie going to
    the even multiple. *)
Definition round_half_even (y : Qc) : Z :=
  let f := floor y in
  let d := (y - of_Z f)%Qc in
  if ltb d (Q2Qc (1 # 2)) then f
  else if ltb (Q2Qc (1 # 2)) d then f + 1
  else if Z.even f then f else f + 1.

Definition py_round (x : Qc) (nd : nat) : Qc :=
  let s := of_Z (10 ^ Z.of_nat nd) in
  (of_Z (round_half_even (x * s)) / s)%Qc.

End PyNum.

(** ** Exceptions and the statement monad *)

Inductive exn :=
  | AssertionError | AttributeError | IndexError | KeyError | NameError
  | ZeroDivisionError.

Inductive res (A : Type) : Type :=
  | Ok (a : A)
  | Raise (e : exn).
Arguments Ok {A} a.
Arguments Raise {A} e.

(** A parameter value for one year: a number, or a list with one number per
    column (filing status, number of children, ...). *)
Inductive pyval :=
  | PyFloat (x : Qc)
  | PyList (xs : list Qc).

(** One entry of the parameter table [clp._vals].  The key ['round_dir']
    may be missing from the dictionary. *)
Record param := mkParam {
  indexed : bool;
  value_yrs : list Z;
  value : list pyval;
  round_to : list Qc;
  round_dir : option string
}.

(** A line written to [ppp.old] or [ppp.new]. *)
Inductive line :=
  | Title (pname : string)          (* '*** {} ***' *)
  | Entry (year : Z) (v : pyval).   (* '{}: {}' *)

(** The module-level variables that are assigned more than once, the two
    files and the standard output.  [None] is an unbound name. *)
Record globals := mkGlobals {
  g_pname : option string;
  g_year : option Z;
  g_idx : option Z;
  g_value : option pyval;
  g_val_round : option Qc;
  g_val : option Qc;
  f_old : list line;
  f_new : list line;
  f_stdout : list nat
}.

Definition fresh : globals := mkGlobals None None None None None None [] [] [].

Definition M (A : Type) : Type := globals -> globals * res A.

Definition ret {A} (a : A) : M A := fun g => (g, Ok a).

Definition bind {A B} (m : M A) (k : A -> M B) : M B :=
  fun g => match m g with
           | (g', Ok a) => k a g'
           | (g', Raise e) => (g', Raise e)
           end.

Definition raise {A} (e : exn) : M A := fun g => (g, Raise e).

Definition lift {A} (r : res A) : M A := fun g => (g, r).

Declare Scope py_scope.
Delimit Scope py_scope with py.
Notation "x <- y ; z" := (bind y (fun x => z))
  (at level 20, y at level 100, z at level 200, only parsing) : py_scope.
Notation "y ;; z" := (bind y (fun _ => z))
  (at level 100, z at level 200, only parsing, right associativity) : py_scope.
Local Open Scope py_scope.

(** Reading a global name; an unbound name raises [NameError]. *)
Definition read {A} (name : globals -> option A) : M A :=
  fun g => match name g with
           | Some a => (g, Ok a)
           | None => (g, Raise NameError)
           end.

Definition set_pname (s : string) : M unit := fun g =>
  (mkGlobals (Some s) (g_year g) (g_idx g) (g_value g) (g_val_round g)
     (g_val g) (f_old g) (f_new g) (f_stdout g), Ok tt).
Definition set_year (y : Z) : M unit := fun g =>
  (mkGlobals (g_pname g) (Some y) (g_idx g) (g_value g) (g_val_round g)
     (g_val g) (f_old g) (f_new g) (f_stdout g), Ok tt).
Definition set_idx (i : Z) : M unit := fun g =>
  (mkGlobals (g_pname g) (g_year g) (Some i) (g_value g) (g_val_round g)
     (g_val g) (f_old g) (f_new g) (f_stdout g), Ok tt).
Definition set_value (v : pyval) : M unit := fun g =>
  (mkGlobals (g_pname g) (g_year g) (g_idx g) (Some v) (g_val_round g)
     (g_val g) (f_old g) (f_new g) (f_stdout g), Ok tt).
Definition set_val_round (x : Qc) : M unit := fun g =>
  (mkGlobals (g_pname g) (g_year g) (g_idx g) (g_value g) (Some x)
     (g_val g) (f_old g) (f_new g) (f_stdout g), Ok tt).
Definition set_val (x : Qc) : M unit := fun g =>
  (mkGlobals (g_pname g) (g_year g) (g_idx g) (g_value g) (g_val_round g)
     (Some x) (f_old g) (f_new g) (f_stdout g), Ok tt).

(** [old.write(...)], [new.write(...)] and [print(...)]. *)
Definition old_write (l : line) : M unit := fun g =>
  (mkGlobals (g_pname g) (g_year g) (g_idx g) (g_value g) (g_val_round g)
     (g_val g) (f_old g ++ [l]) (f_new g) (f_stdout g), Ok tt).
Definition new_write (l : line) : M unit := fun g =>
  (mkGlobals (g_pname g) (g_year g) (g_idx g) (g_value g) (g_val_round g)
     (g_val g) (f_old g) (f_new g ++ [l]) (f_stdout g), Ok tt).
Definition print (n : nat) : M unit := fun g =>
  (mkGlobals (g_pname g) (g_year g) (g_idx g) (g_value g) (g_val_round g)
     (g_val g) (f_old g) (f_new g) (f_stdout g ++ [n]), Ok tt).

(** [value.append(x)] on the global [value]. *)
Definition value_append (x : Qc) : M unit :=
  v <- read g_value;
  match v with
  | PyList xs => set_value (PyList (xs ++ [x]))
  | PyFloat _ => raise AttributeError
  end.

(** [for x in xs: body] *)
Fixpoint for_each {X} (xs : list X) (body : X -> M unit) : M unit :=
  match xs with
  | [] => ret tt
  | x :: xs' => body x;; for_each xs' body
  end.

(** A loop that carries the local value [acc] from one round to the next. *)
Fixpoint for_fold {X S} (xs : list X) (acc : S) (body : X -> S -> M S) : M S :=
  match xs with
  | [] => ret acc
  | x :: xs' => acc' <- body x acc; for_fold xs' acc' body
  end.

(** [range(lo, hi)] *)
Definition range (lo hi : Z) : list Z := seqZ lo (hi - lo).

(** [l[i]] on a list: a negative index counts from the end. *)
Definition getitem {A} (l : list A) (i : Z) : res A :=
  let n := Z.of_nat (length l) in
  let j := if i <? 0 then i + n else i in
  if (j <? 0) || (n <=? j) then Raise IndexError
  else match l !! Z.to_nat j with
       | Some a => Ok a
       | None => Raise IndexError
       end.

(** [d[k]] on a dictionary. *)
Definition getkey `{Countable K} {A} (d : gmap K A) (k : K) : res A :=
  match d !! k with
  | Some a => Ok a
  | None => Raise KeyError
  end.

(** [x / g] *)
Definition py_div (x g : Qc) : res Qc :=
  if bool_decide (g = 0%Qc) then Raise ZeroDivisionError else Ok (x / g)%Qc.

Definition py_assert (b : bool) : M unit :=
  if b then ret tt else raise AssertionError.

(** ** The rounding functions *)

(** The third argument of [round_down] and [round_nearest] is the dictionary
    [ifactor] (intermediate years) or the number [final_ifactor]. *)
Inductive factor_arg :=
  | FDict (d : gmap Z Qc)
  | FFloat (f : Qc).

(** [value * ifactor[year]] or [value * ifactor], with the global [year]. *)
Definition scale (x : Qc) (ifactor : factor_arg) : M Qc :=
  match ifactor with
  | FDict d =>
      year <- read g_year;
      f <- lift (getkey d year);
      ret (x * f)%Qc
  | FFloat f => ret (x * f)%Qc
  end.

(** [min(math.floor(val / g) * g, 9e99)] *)
Definition floor_to_grid (val g : Qc) : res Qc :=
  match py_div val g with
  | Ok q => Ok (PyNum.py_min (PyNum.of_Z (PyNum.floor q) * g)%Qc PyNum.cap)
  | Raise e => Raise e
  end.

(** [(val % g < (g / 2)) and (val % g > 0)] *)
Definition in_lower_half (val g : Qc) : bool :=
  PyNum.ltb (PyNum.py_mod val g) (g / PyNum.of_Z 2)%Qc
  && PyNum.ltb 0%Qc (PyNum.py_mod val g).

(** [round_down(pdata, value, ifactor)]; [pname], [idx] and [year] are the
    globals of the script. *)
Definition round_down (pdata : gmap string param) (value : pyval)
    (ifactor : factor_arg) : M Qc :=
  pname <- read g_pname;
  p <- lift (getkey pdata pname);
  let round_to := round_to p in
  match value with
  | PyList xs =>
      idx <- read g_idx;
      x <- lift (getitem xs idx);
      val <- scale x ifactor;
      g <- lift (getitem round_to idx);
      lift (floor_to_grid val g)
  | PyFloat x =>
      val <- scale x ifactor;
      g <- lift (getitem round_to 0);
      lift (floor_to_grid val g)
  end.

(** [round_nearest(pdata, value, ifactor)] *)
Definition round_nearest (pdata : gmap string param) (value : pyval)
    (ifactor : factor_arg) : M Qc :=
  pname <- read g_pname;
  p <- lift (getkey pdata pname);
  let round_to := round_to p in
  match value with
  | PyList xs =>
      idx <- read g_idx;
      x <- lift (getitem xs idx);
      val <- scale x ifactor;
      g <- lift (getitem round_to idx);
      q <- lift (py_div val g);
      let val_round := (PyNum.of_Z (PyNum.ceil q) * g)%Qc in
      let val_round :=
        if in_lower_half val g
        then PyNum.py_min (val_round - g)%Qc PyNum.cap
        else val_round in
      ret (PyNum.py_min val_round PyNum.cap)
  | PyFloat x =>
      val <- scale x ifactor;
      g <- lift (getitem round_to 0);
      q <- lift (py_div val g);
      let val_round := (PyNum.of_Z (PyNum.ceil q) * g)%Qc in
      let val_round :=
        if in_lower_half val g then (val_round - g)%Qc else val_round in
      ret (PyNum.py_min val_round PyNum.cap)
  end.

(** ** The script *)

Definition skip_list : list string := ["_II_brk7"; "_PT_brk7"].

(** [sorted(pdata.keys())]: strings are compared character by character. *)
Definition sorted_keys (pdata : gmap string param) : list string :=
  merge_sort String.le (map_to_list pdata).*1.

(** The [if 'round_dir' in ...: if ... == 'down': ... elif ... == 'nearest':
    ... else: ...] statement of lines 132-139, 143-149, 156-162 and 165-171.
    [target] is the variable assigned in every branch; a ['round_dir'] other
    than ['down'] and ['nearest'] assigns nothing. *)
Definition dispatch (pdata : gmap string param) (pname : string)
    (down nearest default : M Qc) (target : Qc -> M unit) : M unit :=
  p <- lift (getkey pdata pname);
  match round_dir p with
  | Some dir =>
      if bool_decide (dir = "down") then r <- down; target r
      else if bool_decide (dir = "nearest") then r <- nearest; target r
      else ret tt
  | None => r <- default; target r
  end.

Section Script.

Variable syear : Z.                  (* Policy.JSON_START_YEAR *)
Variables pyear byear fyear : Z.     (* 2017, 2019, 2026 *)
Variable pdata : gmap string param.  (* clp._vals *)
Variable irate : list Qc.            (* clp.inflation_rates() *)

(** [pdata[pname]['value'][year - syear]] *)
Definition param_value (pname : string) (year : Z) : M pyval :=
  p <- lift (getkey pdata pname);
  lift (getitem (value p) (year - syear)).

(** Lines 30-37. *)
Definition reverting_params : M (list string) :=
  let fyr := fyear in
  for_fold (sorted_keys pdata) [] (fun pname acc =>
    set_pname pname;;
    pdict <- lift (getkey pdata pname);
    if indexed pdict && bool_decide (fyr ∈ value_yrs pdict) then
      if bool_decide (pname ∉ skip_list) then ret (acc ++ [pname])
      else ret acc
    else ret acc).

(** Lines 41-48. *)
Definition write_old (reverting_params : list string) : M unit :=
  for_each reverting_params (fun pname =>
    set_pname pname;;
    old_write (Title pname);;
    for_each (range pyear (fyear + 1)) (fun year =>
      set_year year;;
      v <- param_value pname year;
      set_value v;;
      old_write (Entry year v))).

(** Lines 55-57. *)
Definition final_ifactor : M Qc :=
  for_fold (range pyear fyear) 1%Qc (fun year final_ifactor =>
    set_year year;;
    r <- lift (getitem irate (year - syear));
    ret (final_ifactor * (1 + r))%Qc).

(** Lines 61-65; the loop carries the dictionary and [factor]. *)
Definition ifactor : M (gmap Z Qc) :=
  r <- for_fold (range byear fyear) (∅, 1%Qc) (fun year '(ifactor, factor) =>
         set_year year;;
         let ifactor := <[year := factor]> ifactor in
         r <- lift (getitem irate (year - syear));
         ret (ifactor, (factor * (1 + r))%Qc));
  ret r.1.

(** Lines 117-124: the title and the recorded values of [pyear .. byear]. *)
Definition recorded_years (pname : string) : M unit :=
  new_write (Title pname);;
  value <- param_value pname pyear;
  set_value value;;
  new_write (Entry pyear value);;
  for_each (range (pyear + 1) (byear + 1)) (fun year =>
    set_year year;;
    value <- param_value pname year;
    set_value value;;
    new_write (Entry year value)).

(** Lines 127-150: the intermediate years of one parameter. *)
Definition intermediate_years (pname : string) (bvalue : pyval)
    (ifactor : gmap Z Qc) : M unit :=
  for_each (range (byear + 1) fyear) (fun year =>
    set_year year;;
    match bvalue with
    | PyList bs =>
        set_value (PyList []);;
        for_each (range 0 (Z.of_nat (length bs))) (fun idx =>
          set_idx idx;;
          dispatch pdata pname
            (round_down pdata bvalue (FDict ifactor))
            (round_nearest pdata bvalue (FDict ifactor))
            (b <- lift (getitem bs idx);
             f <- lift (getkey ifactor year);
             ret (PyNum.py_min PyNum.cap (PyNum.py_round (b * f) 2)))
            set_val_round;;
          val_round <- read g_val_round;
          value_append val_round)
    | PyFloat b =>
        dispatch pdata pname
          (round_down pdata bvalue (FDict ifactor))
          (round_nearest pdata bvalue (FDict ifactor))
          (f <- lift (getkey ifactor year);
           ret (PyNum.py_min PyNum.cap (PyNum.py_round (b * f) 2)))
          (fun r => set_value (PyFloat r))
    end;;
    value <- read g_value;
    new_write (Entry year value)).

(** Lines 152-172: the final year of one parameter. *)
Definition final_year (pname : string) (pvalue : pyval)
    (final_ifactor : Qc) : M unit :=
  match pvalue with
  | PyList ps =>
      set_value (PyList []);;
      for_each (range 0 (Z.of_nat (length ps))) (fun idx =>
        set_idx idx;;
        dispatch pdata pname
          (round_down pdata pvalue (FFloat final_ifactor))
          (round_nearest pdata pvalue (FFloat final_ifactor))
          (p <- lift (getitem ps idx);
           ret (PyNum.py_min PyNum.cap
                  (PyNum.py_round (p * final_ifactor) 0)))
          set_val;;
        val <- read g_val;
        value_append val)
  | PyFloat p =>
      dispatch pdata pname
        (round_down pdata pvalue (FFloat final_ifactor))
        (round_nearest pdata pvalue (FFloat final_ifactor))
        (ret (PyNum.py_min PyNum.cap
                (PyNum.py_round (p * final_ifactor) 0)))
        (fun r => set_value (PyFloat r))
  end;;
  value <- read g_value;
  new_write (Entry fyear value).

(** Lines 116-172: the body of the loop over the reverting parameters. *)
Definition project (final_ifactor : Qc) (ifactor : gmap Z Qc)
    (pname : string) : M unit :=
  set_pname pname;;
  recorded_years pname;;
  bvalue <- param_value pname byear;
  intermediate_years pname bvalue ifactor;;
  pvalue <- param_value pname pyear;
  final_year pname pvalue final_ifactor.

(** The whole script. *)
Definition main : M unit :=
  py_assert (pyear =? 2017);;
  py_assert (fyear =? 2026);;
  py_assert ((pyear <? byear) && (byear <? fyear));;
  reverting_params <- reverting_params;
  print (length reverting_params);;
  write_old reverting_params;;
  final_ifactor <- final_ifactor;
  ifactor <- ifactor;
  for_each reverting_params (project final_ifactor ifactor).

End Script.

(** * The payroll-tax exemption example (docs/cookbook/ptax_exemp.py)

    The customized [Calculator] adds two methods to [taxcalc.Calculator]
    and calls them from [calc_all].  The parent class, [Policy] and
    [Records] are not part of the example: the model keeps the attributes
    the two methods read and write.
    - The columns of [Records] are arrays with one entry per filing unit;
      the array expressions of [pseudo_ptax_amount] work entry by entry, so
      the records are a list of rows and the expression is a function of one
      row.  [np.where(c, a, b)] is [if c then a else b] on an entry.
    - The policy parameters [SS_Earnings_c], [FICA_ss_trt] and
      [FICA_mc_trt] are the numbers of the current year.
    - [np.round(x, 2)] is the rounding of [round(x, 2)], a tie going to the
      even neighbour.
    - A method takes the object and returns it with an outcome; the object
      returned with an exception shows the assignments made before it. *)

Module Ptax.

(** The values stored in [ptax_em_param]: a number or a truth value. *)
Inductive pobj :=
  | PNum (x : Qc)
  | PBool (b : bool).

(** A truth value used as a number, and a number used as a condition. *)
Definition number (o : pobj) : Qc :=
  match o with
  | PNum x => x
  | PBool b => if b then 1%Qc else 0%Qc
  end.

Definition truth (o : pobj) : bool :=
  match o with
  | PNum x => negb (bool_decide (x = 0%Qc))
  | PBool b => b
  end.

(** The columns of [Records] read by [pseudo_ptax_amount]. *)
Record row := mkRow {
  e00900p : Qc; e02100p : Qc; k1bx14p : Qc;
  e00900s : Qc; e02100s : Qc; k1bx14s : Qc;
  e00200p : Qc; pencon_p : Qc;
  e00200s : Qc; pencon_s : Qc
}.

Record calculator := mkCalculator {
  ptax_em_active : bool;
  ptax_em_param : gmap string pobj;
  current_year : Z;
  inflation_rates : list Qc;     (* self.__policy.inflation_rates() *)
  SS_Earnings_c : Qc;
  FICA_ss_trt : Qc;
  FICA_mc_trt : Qc;
  records : list row;            (* self.__records *)
  ptax_oasdi : list Qc           (* self.__records.ptax_oasdi *)
}.

Definition set_ptax_em_param (d : gmap string pobj) (self : calculator)
    : calculator :=
  mkCalculator (ptax_em_active self) d (current_year self)
    (inflation_rates self) (SS_Earnings_c self) (FICA_ss_trt self)
    (FICA_mc_trt self) (records self) (ptax_oasdi self).

Definition set_ptax_oasdi (a : list Qc) (self : calculator) : calculator :=
  mkCalculator (ptax_em_active self) (ptax_em_param self) (current_year self)
    (inflation_rates self) (SS_Earnings_c self) (FICA_ss_trt self)
    (FICA_mc_trt self) (records self) a.

(** Lines 20-22 of [__init__], after the constructor of the parent class
    has set the other attributes. *)
Definition init (ptax_em_active : bool) (self : calculator) : calculator :=
  mkCalculator ptax_em_active ∅ (current_year self)
    (inflation_rates self) (SS_Earnings_c self) (FICA_ss_trt self)
    (FICA_mc_trt self) (records self) (ptax_oasdi self).

(** Lines 42-43: [for year in range(...): value *= (1.0 + irates[year - syr])]. *)
Fixpoint indexed_value (irates : list Qc) (syr : Z) (years : list Z)
    (value : Qc) : res Qc :=
  match years with
  | [] => Ok value
  | year :: years' =>
      match getitem irates (year - syr) with
      | Ok r => indexed_value irates syr years' (value * (1 + r))%Qc
      | Raise e => Raise e
      end
  end.

(** [specify_pseudo_ptax_policy(self)]; [syr] is
    [tc.Policy.JSON_START_YEAR]. *)
Definition specify_pseudo_ptax_policy (syr : Z) (self : calculator)
    : calculator * res unit :=
  let reform_year := 2019 in
  let self :=
    set_ptax_em_param
      {[ "FICA_ss_em" := PNum (PyNum.of_Z 5000);
         "FICA_ss_em_employer" := PBool true ]} self in
  let this_year := current_year self in
  if ptax_em_active self && (reform_year <=? this_year) then
    let irates := inflation_rates self in
    match getkey (ptax_em_param self) "FICA_ss_em" with
    | Ok value =>
        match indexed_value irates syr (range reform_year this_year)
                (number value) with
        | Ok value =>
            (set_ptax_em_param
               (<["FICA_ss_em" := PNum (PyNum.py_round value 2)]>
                  (ptax_em_param self)) self, Ok tt)
        | Raise e => (self, Raise e)
        end
    | Raise e => (self, Raise e)
    end
  else
    (set_ptax_em_param
       (<["FICA_ss_em" := PNum 0%Qc]> (ptax_em_param self)) self, Ok tt).

(** [np.where(c, a, b)] on one entry, and the comparison [a > b]. *)
Definition np_where (c : bool) (a b : Qc) : Qc := if c then a else b.

Definition gtb (a b : Qc) : bool := PyNum.ltb b a.

(** The constant [0.5]. *)
Definition half : Qc := Q2Qc (1 # 2).

(** Lines 59-139 on one row: the entry of [recs.ptax_oasdi]. *)
Definition oasdi (self : calculator) (ptax_em : Qc)
    (fica_em_employer : bool) (recs : row) : Qc :=
  let c := SS_Earnings_c self in
  let trt := FICA_ss_trt self in
  let sey_p := (e00900p recs + e02100p recs + k1bx14p recs)%Qc in
  let sey_s := (e00900s recs + e02100s recs + k1bx14s recs)%Qc in
  let sey_p_em := np_where (gtb sey_p ptax_em) (sey_p - ptax_em)%Qc 0%Qc in
  let sey_s_em := np_where (gtb sey_s ptax_em) (sey_s - ptax_em)%Qc 0%Qc in
  let gross_was_p := (e00200p recs + pencon_p recs)%Qc in
  let gross_was_s := (e00200s recs + pencon_s recs)%Qc in
  let gross_was_p_em :=
    np_where (gtb gross_was_p ptax_em) (gross_was_p - ptax_em)%Qc 0%Qc in
  let gross_was_s_em :=
    np_where (gtb gross_was_s ptax_em) (gross_was_s - ptax_em)%Qc 0%Qc in
  let txearn_was_p := np_where (PyNum.ltb c gross_was_p) c gross_was_p in
  let txearn_was_s := np_where (PyNum.ltb c gross_was_s) c gross_was_s in
  let txearn_was_p_em :=
    np_where (PyNum.ltb c gross_was_p_em) c gross_was_p_em in
  let txearn_was_s_em :=
    np_where (PyNum.ltb c gross_was_s_em) c gross_was_s_em in
  let sey_frac := (1 - half * (trt + FICA_mc_trt self))%Qc in
  let temp1_p :=
    np_where (gtb 0%Qc (sey_p * sey_frac)%Qc) 0%Qc (sey_p * sey_frac)%Qc in
  let temp2_p := (c - txearn_was_p)%Qc in
  let txearn_sey_p := np_where (gtb temp1_p temp2_p) temp2_p temp1_p in
  let temp1_s :=
    np_where (gtb 0%Qc (sey_s * sey_frac)%Qc) 0%Qc (sey_s * sey_frac)%Qc in
  let temp2_s := (c - txearn_was_s)%Qc in
  let txearn_sey_s := np_where (gtb temp1_s temp2_s) temp2_s temp1_s in
  let temp1_p_em :=
    np_where (gtb 0%Qc (sey_p_em * sey_frac)%Qc) 0%Qc
      (sey_p_em * sey_frac)%Qc in
  let temp2_p_em := (c - txearn_was_p_em)%Qc in
  let txearn_sey_p_em :=
    np_where (gtb temp1_p_em temp2_p_em) temp2_p_em temp1_p_em in
  let temp1_s_em :=
    np_where (gtb 0%Qc (sey_s_em * sey_frac)%Qc) 0%Qc
      (sey_s_em * sey_frac)%Qc in
  let temp2_s_em := (c - txearn_was_s_em)%Qc in
  let txearn_sey_s_em :=
    np_where (gtb temp1_s_em temp2_s_em) temp2_s_em temp1_s_em in
  let ptax_ss_was_p_employee := (trt * half * txearn_was_p_em)%Qc in
  let ptax_ss_was_s_employee := (trt * half * txearn_was_s_em)%Qc in
  let setax_ss_p_employee := (trt * half * txearn_sey_p_em)%Qc in
  let setax_ss_s_employee := (trt * half * txearn_sey_s_em)%Qc in
  let '(ptax_ss_was_p_employer, ptax_ss_was_s_employer,
        setax_ss_p_employer, setax_ss_s_employer) :=
    if fica_em_employer then
      ((trt * half * txearn_was_p_em)%Qc, (trt * half * txearn_was_s_em)%Qc,
       (trt * half * txearn_sey_p_em)%Qc, (trt * half * txearn_sey_s_em)%Qc)
    else
      ((trt * half * txearn_was_p)%Qc, (trt * half * txearn_was_s)%Qc,
       (trt * half * txearn_sey_p)%Qc, (trt * half * txearn_sey_s)%Qc) in
  let ptax_ss_was_p := (ptax_ss_was_p_employee + ptax_ss_was_p_employer)%Qc in
  let ptax_ss_was_s := (ptax_ss_was_s_employee + ptax_ss_was_s_employer)%Qc in
  let setax_ss_p := (setax_ss_p_employee + setax_ss_p_employer)%Qc in
  let setax_ss_s := (setax_ss_s_employee + setax_ss_s_employer)%Qc in
  (ptax_ss_was_p + ptax_ss_was_s + setax_ss_p + setax_ss_s)%Qc.

(** [pseudo_ptax_amount(self)] *)
Definition pseudo_ptax_amount (self : calculator) : calculator * res unit :=
  match getkey (ptax_em_param self) "FICA_ss_em" with
  | Ok ptax_em =>
      match getkey (ptax_em_param self) "FICA_ss_em_employer" with
      | Ok fica_em_employer =>
          (set_ptax_oasdi
             (oasdi self (number ptax_em) (truth fica_em_employer)
                <$> records self) self, Ok tt)
      | Raise e => (self, Raise e)
      end
  | Raise e => (self, Raise e)
  end.

(** Lines 152-154 of [calc_all]: the two calls added to the parent's
    method. *)
Definition calc_all_ptax (syr : Z) (self : calculator)
    : calculator * res unit :=
  match specify_pseudo_ptax_policy syr self with
  | (self, Ok _) => pseudo_ptax_amount self
  | (self, Raise e) => (self, Raise e)
  end.

End Ptax.

(** * Definitions for the statements

    Functions and predicates that follow the words of the specification,
    and the assertions used to reason about statements. *)

(** The parameter [p] with the granularity list replaced by [gs]: used to
    compare a column of a multi-column value with a scalar value. *)
Definition with_round_to (p : param) (gs : list Qc) : param :=
  mkParam (indexed p) (value_yrs p) (value p) gs (round_dir p).

(** The eligibility test in the words of the specification: the parameter
    is indexed, has a value recorded for the final year and is not in the
    exclusion list. *)
Definition reverts (fyear : Z) (pdata : gmap string param)
    (pname : string) : Prop :=
  ∃ p, pdata !! pname = Some p ∧ indexed p = true
       ∧ fyear ∈ value_yrs p ∧ pname ∉ skip_list.

#[global] Instance reverts_dec fyear pdata pname :
  Decision (reverts fyear pdata pname).
Proof.
  unfold reverts. destruct (pdata !! pname) as [p|] eqn:Hp.
  - destruct (decide (indexed p = true ∧ fyear ∈ value_yrs p
                      ∧ pname ∉ skip_list)) as [H|H].
    + left. by exists p.
    + right. intros (p' & [= <-] & H'). done.
  - right. by intros (p' & [=] & _).
Defined.

(** A line that may appear in the output: a title names a parameter that
    [reverts]. *)
Definition reverting_line (fyear : Z) (pdata : gmap string param)
    (l : line) : Prop :=
  match l with
  | Title pname => reverts fyear pdata pname
  | Entry _ _ => True
  end.

(** [rate[y]], the inflation rate of the year [y], where the list has one;
    and the product of the numbers of a list. *)
Definition rate (syear : Z) (irate : list Qc) (y : Z) : Qc :=
  match getitem irate (y - syear) with
  | Ok r => r
  | Raise _ => 0%Qc
  end.

Definition product (l : list Qc) : Qc := foldr Qcmult 1%Qc l.

(** The compounded factor from the year [lo] up to, not including, the year
    [hi]: the product of [1 + rate[y]] over [lo <= y < hi]. *)
Definition compound (syear : Z) (irate : list Qc) (lo hi : Z) : Qc :=
  product ((λ y, 1 + rate syear irate y)%Qc <$> range lo hi).

(** The recorded value of the year [y], where the parameter has one. *)
Definition history (syear : Z) (p : param) (y : Z) : pyval :=
  match getitem (value p) (y - syear) with
  | Ok v => v
  | Raise _ => PyList []
  end.

(** The lines of [ppp.old] for a table with a value for every year: for
    each reverting parameter a title and the values of [pyear .. fyear]. *)
Definition old_block (syear pyear fyear : Z) (pdata : gmap string param)
    (pname : string) : list line :=
  match pdata !! pname with
  | Some p =>
      Title pname
      :: ((λ y, Entry y (history syear p y)) <$> range pyear (fyear + 1))
  | None => []
  end.

Definition old_dump (syear pyear fyear : Z) (pdata : gmap string param)
    (rp : list string) : list line :=
  concat (old_block syear pyear fyear pdata <$> rp).

(** Every reverting parameter has a value for every year written to
    [ppp.old]. *)
Definition full_history (syear pyear fyear : Z) (pdata : gmap string param)
    (rp : list string) : Prop :=
  ∀ pname p y, pname ∈ rp → pdata !! pname = Some p →
    (pyear ≤ y ≤ fyear)%Z → ∃ v, getitem (value p) (y - syear) = Ok v.

(** *** The projection in the words of the specification

    [clamp] caps a value at [9e99]; [policy] is the rounding of a projected
    value [x] with the granularity [g]: RoundDown, RoundNearest or, for a
    parameter without ['round_dir'], the rounding to [nd] decimals. *)
Definition clamp (x : Qc) : Qc :=
  if decide (x ≤ PyNum.cap)%Qc then x else PyNum.cap.

Definition grid_floor (x g : Qc) : Qc :=
  (PyNum.of_Z (PyNum.floor (x / g)) * g)%Qc.

Definition grid_nearest (x g : Qc) : Qc :=
  let c := (PyNum.of_Z (PyNum.ceil (x / g)) * g)%Qc in
  let m := PyNum.py_mod x g in
  (if decide (0 < m ∧ m < g / PyNum.of_Z 2)%Qc then c - g else c)%Qc.

Definition spec_round_down (x g : Qc) : Qc := clamp (grid_floor x g).

Definition spec_round_nearest (x g : Qc) : Qc := clamp (grid_nearest x g).

Definition unclamped (dir : option string) (nd : nat) (x g : Qc) : Qc :=
  match dir with
  | None => PyNum.py_round x nd
  | Some dir =>
      if decide (dir = "down") then grid_floor x g else grid_nearest x g
  end.

Definition policy (dir : option string) (nd : nat) (x g : Qc) : Qc :=
  clamp (unclamped dir nd x g).

(** The granularity of the column [i], and the projection of the value [v]
    of a year with the factor [factor], column by column. *)
Definition granularity (p : param) (i : nat) : Qc :=
  match round_to p !! i with
  | Some g => g
  | None => 0%Qc
  end.

Definition projected (p : param) (nd : nat) (factor : Qc) (v : pyval)
    : pyval :=
  match v with
  | PyFloat x => PyFloat (policy (round_dir p) nd (x * factor) (granularity p 0))
  | PyList xs =>
      PyList (imap (λ i x, policy (round_dir p) nd (x * factor)
                             (granularity p i)) xs)
  end.

(** The factor of the year [y] in the dictionary [d]. *)
Definition factor_of (d : gmap Z Qc) (y : Z) : Qc :=
  match d !! y with
  | Some f => f
  | None => 0%Qc
  end.

(** The lines of [ppp.new] for one parameter: the title, the recorded
    values of [pyear .. byear], the values of the intermediate years
    projected from the value of [byear], and the value of [fyear] projected
    from the value of [pyear]. *)
Definition new_block (syear pyear byear fyear : Z) (p : param)
    (final_ifactor : Qc) (ifactor : Z → Qc) (pname : string) : list line :=
  Title pname
  :: ((λ y, Entry y (history syear p y)) <$> range pyear (byear + 1))
  ++ ((λ y, Entry y (projected p 2 (ifactor y) (history syear p byear)))
        <$> range (byear + 1) fyear)
  ++ [Entry fyear (projected p 0 final_ifactor (history syear p pyear))].

(** The number of columns of a value. *)
Definition columns (v : pyval) : nat :=
  match v with
  | PyFloat _ => 1
  | PyList xs => length xs
  end.

(** What the script expects of a parameter: a rounding direction that is
    ['down'] or ['nearest'] when there is one, a value for every year up to
    [byear], and, when there is a rounding direction, a non-zero
    granularity for every column of the values of [byear] and [pyear]. *)
Definition well_formed (syear pyear byear : Z) (p : param) : Prop :=
  (∀ dir, round_dir p = Some dir → dir = "down" ∨ dir = "nearest")
  ∧ (∀ y, (pyear ≤ y ≤ byear)%Z → ∃ v, getitem (value p) (y - syear) = Ok v)
  ∧ (∀ dir i, round_dir p = Some dir →
       (i < columns (history syear p byear)
        ∨ i < columns (history syear p pyear))%nat →
       ∃ g, round_to p !! i = Some g ∧ g ≠ 0%Qc).

(** The column [i] of the value [v] is [x], with the global [idx] at that
    column when [v] is a list. *)
Definition at_column (g : globals) (v : pyval) (i : nat) (x : Qc) : Prop :=
  match v with
  | PyFloat y => i = 0%nat ∧ x = y
  | PyList xs => g_idx g = Some (Z.of_nat i) ∧ xs !! i = Some x
  end.

(** [g'] differs from [g] at most in [idx], [value], [val_round] and
    [val]. *)
Definition same_frame (g g' : globals) : Prop :=
  g_pname g' = g_pname g ∧ g_year g' = g_year g
  ∧ f_old g' = f_old g ∧ f_new g' = f_new g ∧ f_stdout g' = f_stdout g.

(** [target] assigns its argument to the global [name] and to nothing
    else. *)
Definition assigns (target : Qc → M unit) (name : globals → option Qc)
    : Prop :=
  ∀ r g, ∃ g', target r g = (g', Ok tt) ∧ name g' = Some r
               ∧ g_idx g' = g_idx g ∧ g_value g' = g_value g
               ∧ same_frame g g'.

(** The whole of [ppp.new]: the blocks of the reverting parameters, with
    the compounded factors. *)
Definition new_dump (syear pyear byear fyear : Z) (pdata : gmap string param)
    (irate : list Qc) (rp : list string) : list line :=
  concat ((λ pname,
             match pdata !! pname with
             | Some p =>
                 new_block syear pyear byear fyear p
                   (compound syear irate pyear fyear)
                   (compound syear irate byear) pname
             | None => []
             end) <$> rp).

(** The inputs the script expects: every reverting parameter is well
    formed and has a value for every year up to [fyear], and there is a
    rate for every year from [pyear] up to [fyear]. *)
Definition valid_inputs (syear pyear byear fyear : Z)
    (pdata : gmap string param) (irate : list Qc) : Prop :=
  (∀ pname p, pdata !! pname = Some p → reverts fyear pdata pname →
     well_formed syear pyear byear p)
  ∧ full_history syear pyear fyear pdata
      (filter (reverts fyear pdata) (sorted_keys pdata))
  ∧ (∀ y, (pyear ≤ y < fyear)%Z → ∃ r, getitem irate (y - syear) = Ok r).

(** The numbers of a value. *)
Definition numbers (v : pyval) : list Qc :=
  match v with
  | PyFloat x => [x]
  | PyList xs => xs
  end.

(** A line of [ppp.new] whose numbers are at most [9e99] when its year is
    after [byear]. *)
Definition capped_line (byear : Z) (l : line) : Prop :=
  match l with
  | Title _ => True
  | Entry y v => (byear < y)%Z → Forall (λ x, x ≤ PyNum.cap)%Qc (numbers v)
  end.

(** Every reverting parameter has a rounding direction that the
    specification allows, or none. *)
Definition known_directions (fyear : Z) (pdata : gmap string param) : Prop :=
  ∀ pname p dir, pdata !! pname = Some p → reverts fyear pdata pname →
    round_dir p = Some dir → dir = "down" ∨ dir = "nearest".

(** *** The payroll tax in the words of the comments of [ptax_exemp.py]

    [exempted em x] is the amount [x] less the exemption, not below zero;
    [taxable c frac x y] is the taxable earnings of one person with the
    wages [x] and the self-employment income [y]: the wages plus the taxable
    fraction of the self-employment income, not above the ceiling [c]. *)
Definition qmin (a b : Qc) : Qc := if decide (a ≤ b)%Qc then a else b.

Definition qmax (a b : Qc) : Qc := if decide (a ≤ b)%Qc then b else a.

Definition exempted (em x : Qc) : Qc := qmax (x - em)%Qc 0%Qc.

Definition taxable (c frac x y : Qc) : Qc :=
  qmin c (x + qmax 0%Qc (y * frac)%Qc)%Qc.

(** The wages and the self-employment income of the two persons of a
    row, and the taxable fraction of self-employment income. *)
Definition wages_p (u : Ptax.row) : Qc := (Ptax.e00200p u + Ptax.pencon_p u)%Qc.
Definition wages_s (u : Ptax.row) : Qc := (Ptax.e00200s u + Ptax.pencon_s u)%Qc.
Definition sey_p (u : Ptax.row) : Qc :=
  (Ptax.e00900p u + Ptax.e02100p u + Ptax.k1bx14p u)%Qc.
Definition sey_s (u : Ptax.row) : Qc :=
  (Ptax.e00900s u + Ptax.e02100s u + Ptax.k1bx14s u)%Qc.
Definition sey_frac (self : Ptax.calculator) : Qc :=
  (1 - Ptax.half * (Ptax.FICA_ss_trt self + Ptax.FICA_mc_trt self))%Qc.

(** The taxable earnings of the two persons of a row after the exemption
    [em]. *)
Definition taxable_row (self : Ptax.calculator) (em : Qc) (u : Ptax.row)
    : Qc :=
  (taxable (Ptax.SS_Earnings_c self) (sey_frac self)
     (exempted em (wages_p u)) (exempted em (sey_p u))
   + taxable (Ptax.SS_Earnings_c self) (sey_frac self)
       (exempted em (wages_s u)) (exempted em (sey_s u)))%Qc.

(** The same before the exemption. *)
Definition taxable_row_pre (self : Ptax.calculator) (u : Ptax.row) : Qc :=
  (taxable (Ptax.SS_Earnings_c self) (sey_frac self) (wages_p u) (sey_p u)
   + taxable (Ptax.SS_Earnings_c self) (sey_frac self)
       (wages_s u) (sey_s u))%Qc.

(** The exemption of the year [this_year]: 5000 in 2019, indexed with the
    rates of the years since, to the cent. *)
Definition indexed_exemption (syr : Z) (self : Ptax.calculator) : Qc :=
  if Ptax.ptax_em_active self && (2019 <=? Ptax.current_year self)%Z
  then PyNum.py_round
         (PyNum.of_Z 5000
          * compound syr (Ptax.inflation_rates self) 2019
              (Ptax.current_year self))%Qc 2
  else 0%Qc.

(** ** Assertions about statements *)

(** [wp m Q E g]: run from [g], the statement [m] ends in a state and a
    value satisfying [Q], or raises an exception in a state satisfying
    [E]. *)
Definition wp {A} (m : M A) (Q : A → globals → Prop)
    (E : exn → globals → Prop) (g : globals) : Prop :=
  match m g with
  | (g', Ok a) => Q a g'
  | (g', Raise e) => E e g'
  end.

(** [preserves Inv m]: the statement [m] keeps [Inv], whether it returns or
    raises. *)
Definition preserves {A} (Inv : globals → Prop) (m : M A) : Prop :=
  ∀ g, Inv g → wp m (λ _, Inv) (λ _, Inv) g.

(** The three files are left as they were. *)
Definition same_files (g g' : globals) : Prop :=
  f_old g' = f_old g ∧ f_new g' = f_new g ∧ f_stdout g' = f_stdout g.

(** An invariant [J] of the two files, as a predicate on the globals. *)
Definition on_files (J : list line → list line → Prop) (g : globals) : Prop :=
  J (f_old g) (f_new g).

(** A statement that leaves the globals as they are and returns a number
    that is at most [9e99]. *)
Definition returns_capped (m : M Qc) : Prop :=
  ∀ g, wp m (λ r g', g' = g ∧ (r ≤ PyNum.cap)%Qc) (λ _ g', g' = g) g.

(** The exceptions that the data can cause once the year constants have
    passed the assertions: a missing value, rate or granularity, a name
    that was never assigned, a granularity of zero. *)
Definition data_error (e : exn) : Prop :=
  e = IndexError ∨ e = NameError ∨ e = ZeroDivisionError.

(** [raises_data m g]: run from [g], the statement [m] returns or raises a
    [data_error]; when it returns, [Q] holds. *)
Definition raises_data {A} (m : M A) (Q : A → globals → Prop)
    (g : globals) : Prop :=
  wp m Q (λ e _, data_error e) g.

(** Two lines with the same title, or for the same year and, up to the
    year [byear], with the same value. *)
Definition agrees_until (byear : Z) (l l' : line) : Prop :=
  match l, l' with
  | Title n, Title n' => n = n'
  | Entry y v, Entry y' v' => y = y' ∧ ((y ≤ byear)%Z → v = v')
  | _, _ => False
  end.

(** The factor argument has a factor for the global [year]. *)
Definition factor_ready (fa : factor_arg) (g : globals) : Prop :=
  match fa with
  | FDict d => ∃ y, g_year g = Some y ∧ is_Some (d !! y)
  | FFloat _ => True
  end.

(** ** Sample inputs *)

Module Sample.

(** A one-parameter table with a grid of 100, and the globals as they are
    inside the loop over that parameter. *)
Definition std : param :=
  mkParam true [2026] [] [PyNum.of_Z 100] (Some "down").

Definition grid100 : gmap string param := {[ "_STD" := std ]}.

Definition at_std : globals := (set_pname "_STD" fresh).1.

(** The same with a grid of [4e99], close to the cap. *)
Definition wide : param :=
  mkParam true [2026] [] [PyNum.of_Z (4 * 10 ^ 99)] (Some "down").

Definition grid4e99 : gmap string param := {[ "_STD" := wide ]}.

(** Two columns, and the globals inside the loop over the columns, at the
    second column. *)
Definition at_col1 : globals := (set_idx 1 at_std).1.

Definition two : param :=
  mkParam true [2026] [] [PyNum.of_Z 50; PyNum.of_Z 100] (Some "nearest").

Definition grid2 : gmap string param := {[ "_STD" := two ]}.

(** A table with a scalar parameter rounded down, a two-column parameter
    rounded to the nearest, a parameter without rounding direction, one that
    is not indexed and one of the exclusion list; all have the same value
    for the fourteen years from 2013 to 2026. *)
Definition flat (v : pyval) : list pyval := replicate 14 v.

Definition table : gmap string param :=
  list_to_map
    [ ("_AMT_em", mkParam true [2013; 2026] (flat (PyFloat (PyNum.of_Z 1000)))
                    [PyNum.of_Z 50] (Some "down"));
      ("_II_em", mkParam true [2013; 2026]
                   (flat (PyList [PyNum.of_Z 1000; PyNum.of_Z 2000]))
                   [PyNum.of_Z 50; PyNum.of_Z 100] (Some "nearest"));
      ("_STD", mkParam true [2013; 2026] (flat (PyFloat (PyNum.of_Z 1000)))
                 [PyNum.of_Z 50] None);
      ("_CTC_c", mkParam false [2013; 2026]
                   (flat (PyFloat (PyNum.of_Z 1000))) [PyNum.of_Z 50] None);
      ("_II_brk7", mkParam true [2013; 2026]
                     (flat (PyFloat PyNum.cap)) [PyNum.of_Z 50] (Some "down"))
    ].

(** A scalar parameter whose rounding direction is neither ['down'] nor
    ['nearest']. *)
Definition odd : param :=
  mkParam true [2013; 2026] (flat (PyFloat (PyNum.of_Z 1000)))
    [PyNum.of_Z 50] (Some "up").

Definition odd_table : gmap string param := {[ "_STD" := odd ]}.

(** Thirteen yearly rates of 2%, for 2013 to 2025. *)
Definition rates : list Qc := replicate 13 (Q2Qc (2 # 100)).

End Sample.

(** ** Further sample inputs *)

Module Edge.

(** A parameter with values for 2013 to 2018 only. *)
Definition short : param :=
  mkParam true [2013; 2026] (replicate 6 (PyFloat (PyNum.of_Z 1000)))
    [PyNum.of_Z 50] (Some "down").

Definition short_table : gmap string param := {[ "_STD" := short ]}.

(** A two-column parameter whose rounding direction is neither ['down']
    nor ['nearest']. *)
Definition odd_list : param :=
  mkParam true [2013; 2026]
    (Sample.flat (PyList [PyNum.of_Z 1000; PyNum.of_Z 2000]))
    [PyNum.of_Z 50; PyNum.of_Z 100] (Some "up").

Definition odd_list_table : gmap string param := {[ "_STD" := odd_list ]}.

(** A parameter with a granularity of zero, and a dictionary with a factor
    for 2020. *)
Definition zero_grid : param :=
  mkParam true [2013; 2026] (Sample.flat (PyFloat (PyNum.of_Z 1000)))
    [0%Qc] (Some "down").

Definition zero_table : gmap string param := {[ "_STD" := zero_grid ]}.

Definition factors : gmap Z Qc := {[ 2020 := 1%Qc ]}.

End Edge.

Module Payroll.

(** A unit with wages and self-employment income for the first person and
    wages above the ceiling for the second, and a unit with a loss from
    self-employment. *)
Definition unit1 : Ptax.row :=
  Ptax.mkRow (PyNum.of_Z 10000) 0%Qc 0%Qc 0%Qc 0%Qc 0%Qc
    (PyNum.of_Z 50000) (PyNum.of_Z 2000) (PyNum.of_Z 200000) 0%Qc.

Definition unit2 : Ptax.row :=
  Ptax.mkRow (PyNum.of_Z (-3000)) 0%Qc 0%Qc 0%Qc 0%Qc 0%Qc
    (PyNum.of_Z 4000) 0%Qc 0%Qc 0%Qc.

(** A calculator in 2021 with the reform active, a ceiling of 132900 and
    the rates 12.4% and 2.9%. *)
Definition base : Ptax.calculator :=
  Ptax.mkCalculator true ∅ 2021 Sample.rates (PyNum.of_Z 132900)
    (Q2Qc (124 # 1000)) (Q2Qc (29 # 1000)) [unit1; unit2] [].

(** The same with rates for 2013 to 2019 only. *)
Definition short_rates : Ptax.calculator :=
  Ptax.mkCalculator true ∅ 2021 (take 7 Sample.rates) (PyNum.of_Z 132900)
    (Q2Qc (124 # 1000)) (Q2Qc (29 # 1000)) [unit1; unit2] [].

(** The policy of the reform year, with and without the exemption for the
    employer. *)
Definition employer_exempt (b : bool) : gmap string Ptax.pobj :=
  {[ "FICA_ss_em" := Ptax.PNum (PyNum.of_Z 5000);
     "FICA_ss_em_employer" := Ptax.PBool b ]}.

End Payroll.

(** * Properties *)

(** ** Rational arithmetic *)

(** Moves a goal about [Qc] to [Q], where [lra] and [nra] work. *)
Ltac qc2q :=
  try apply Qc_is_canon;
  unfold PyNum.of_Z, Qcle, Qclt, Qcminus, Qcdiv, Qcplus, Qcmult, Qcopp,
    Qcinv in *;
  cbn [this Q2Qc] in *;
  rewrite ?Qred_correct in *.

Section Numbers.

Local Open Scope Qc_scope.
Import PyNum.

Lemma of_Z_add a b : of_Z (a + b) = of_Z a + of_Z b.
Proof. qc2q. by rewrite inject_Z_plus. Qed.

Lemma of_Z_1 : of_Z 1 = 1.
Proof. by apply Qc_is_canon. Qed.

Lemma of_Z_le a b : (a ≤ b)%Z ↔ of_Z a ≤ of_Z b.
Proof. qc2q. by rewrite Zle_Qle. Qed.

Lemma of_Z_lt a b : (a < b)%Z ↔ of_Z a < of_Z b.
Proof. qc2q. by rewrite Zlt_Qlt. Qed.

Lemma floor_spec x : of_Z (floor x) ≤ x ∧ x < of_Z (floor x) + 1.
Proof.
  unfold floor. qc2q. split; [apply Qfloor_le|].
  generalize (Qlt_floor x). by rewrite inject_Z_plus.
Qed.

Lemma ceil_spec x : of_Z (ceil x) - 1 < x ∧ x ≤ of_Z (ceil x).
Proof.
  unfold ceil. qc2q. split; [|apply Qle_ceiling].
  generalize (Qceiling_lt x). unfold Zminus. by rewrite inject_Z_plus.
Qed.

Lemma floor_unique x k : of_Z k ≤ x → x < of_Z k + 1 → floor x = k.
Proof.
  intros Hl Hu. destruct (floor_spec x) as [Hl' Hu'].
  rewrite <-of_Z_1, <-of_Z_add in Hu, Hu'.
  assert (of_Z k < of_Z (floor x + 1)) as H1%of_Z_lt
    by (eapply Qcle_lt_trans; eauto).
  assert (of_Z (floor x) < of_Z (k + 1)) as H2%of_Z_lt
    by (eapply Qcle_lt_trans; eauto).
  lia.
Qed.

Lemma floor_of_Z k : floor (of_Z k) = k.
Proof.
  apply floor_unique; [apply Qcle_refl|].
  rewrite <-of_Z_1, <-of_Z_add, <-of_Z_lt. lia.
Qed.

Lemma ceil_of_Z k : ceil (of_Z k) = k.
Proof.
  unfold ceil, of_Z. cbn [this Q2Qc].
  rewrite (Qceiling_comp _ _ (Qred_correct _)). apply Qceiling_Z.
Qed.

End Numbers.

(** ** The rounding functions on scalars *)

Section Rounding.
Local Open Scope Qc_scope.
Import PyNum.

Lemma py_min_le_l a b : a ≤ b → py_min a b = a.
Proof.
  intros H. unfold py_min, ltb. case_bool_decide; [|done].
  by apply Qclt_not_le in H0.
Qed.

Lemma py_min_gt a b : b < a → py_min a b = b.
Proof. intros H. unfold py_min, ltb. by case_bool_decide. Qed.

Lemma py_min_le_r a b : py_min a b ≤ b.
Proof.
  unfold py_min, ltb. case_bool_decide; [apply Qcle_refl|].
  by apply Qcnot_lt_le.
Qed.

Lemma getitem_nonneg {A} (l : list A) i :
  (0 ≤ i)%Z → getitem l i
  = match l !! Z.to_nat i with Some a => Ok a | None => Raise IndexError end.
Proof.
  intros Hi. unfold getitem.
  assert ((i <? 0)%Z = false) as Hlt by by apply Z.ltb_ge.
  rewrite Hlt. cbv zeta. rewrite Hlt. cbn [orb].
  destruct (Z.leb_spec (Z.of_nat (length l)) i); [|done].
  by rewrite lookup_ge_None_2 by lia.
Qed.

Variable pdata : gmap string param.
Variables (pname : string) (p : param) (st : globals).
Hypothesis Hpname : g_pname st = Some pname.
Hypothesis Hp : pdata !! pname = Some p.

Lemma round_down_scalar v f g :
  getitem (round_to p) 0 = Ok g → g ≠ 0 →
  round_down pdata (PyFloat v) (FFloat f) st
  = (st, Ok (py_min (of_Z (floor (v * f / g)) * g) cap)).
Proof.
  intros Hg Hg0. unfold round_down, bind, read, lift, getkey, scale, ret.
  rewrite Hpname, Hp, Hg. unfold floor_to_grid, py_div.
  by rewrite bool_decide_eq_false_2.
Qed.

Lemma round_nearest_scalar v f g :
  getitem (round_to p) 0 = Ok g → g ≠ 0 →
  round_nearest pdata (PyFloat v) (FFloat f) st
  = (st, Ok (py_min (if in_lower_half (v * f) g
                     then of_Z (ceil (v * f / g)) * g - g
                     else of_Z (ceil (v * f / g)) * g) cap)).
Proof.
  intros Hg Hg0. unfold round_nearest, bind, read, lift, getkey, scale, ret.
  rewrite Hpname, Hp, Hg. unfold py_div.
  by rewrite bool_decide_eq_false_2.
Qed.

End Rounding.

(** Closes an equation between results whose numbers are closed terms. *)
Ltac qc_compute :=
  lazymatch goal with
  | |- (?s, Ok ?a) = (?s, Ok ?b) =>
      apply (f_equal (fun x => (s, Ok x))); apply Qc_is_canon;
      vm_compute; reflexivity
  end.

Section RoundingClaims.
Local Open Scope Qc_scope.
Import PyNum.





Lemma floor_mul_div k g : g ≠ 0 → floor (of_Z k * g * 1 / g) = k.
Proof.
  intros Hg. replace (of_Z k * g * 1 / g) with (of_Z k) by by field.
  apply floor_of_Z.
Qed.

Lemma ceil_mul_div k g : g ≠ 0 → ceil (of_Z k * g * 1 / g) = k.
Proof.
  intros Hg. replace (of_Z k * g * 1 / g) with (of_Z k) by by field.
  apply ceil_of_Z.
Qed.

Lemma on_grid_not_lower_half k g :
  g ≠ 0 → in_lower_half (of_Z k * g * 1) g = false.
Proof.
  intros Hg. unfold in_lower_half, py_mod.
  replace (of_Z k * g * 1 / g) with (of_Z k) by by field.
  rewrite floor_of_Z.
  replace (of_Z k * g * 1 - of_Z k * g) with (Q2Qc 0) by ring.
  by rewrite andb_false_r.
Qed.

Lemma of_Z_inj a b : of_Z a = of_Z b → a = b.
Proof. intros H%(f_equal floor). by rewrite !floor_of_Z in H. Qed.

Lemma py_min_below a : py_min a cap < cap → py_min a cap = a.
Proof.
  intros H. destruct (decide (a ≤ cap)); [by apply py_min_le_l|].
  rewrite py_min_gt in H by by apply Qcnot_le_lt.
  by apply Qclt_not_eq in H.
Qed.




End RoundingClaims.

(** ** The rounding functions on multi-column values *)

Section Columns.
Local Open Scope Qc_scope.
Import PyNum.

Variable pdata : gmap string param.
Variables (pname : string) (p : param) (st : globals).
Variables (xs : list Qc) (idx : Z) (x : Qc) (ifactor : factor_arg).
Hypothesis Hpname : g_pname st = Some pname.
Hypothesis Hp : pdata !! pname = Some p.
Hypothesis Hidx : g_idx st = Some idx.
Hypothesis Hnonneg : (0 ≤ idx)%Z.
Hypothesis Hx : xs !! Z.to_nat idx = Some x.

Lemma scale_state val st' r : scale val ifactor st = (st', r) → st' = st.
Proof.
  unfold scale, bind, read, lift, ret. destruct ifactor; [|congruence].
  destruct (g_year st); [|congruence]. destruct (getkey _ _); congruence.
Qed.

Lemma round_down_column g :
  getitem (round_to p) idx = Ok g →
  round_down pdata (PyList xs) ifactor st
  = round_down (<[pname := with_round_to p [g]]> pdata) (PyFloat x) ifactor st.
Proof.
  intros Hg. unfold round_down, bind, read, lift, getkey.
  rewrite Hpname, Hp, Hidx, lookup_insert_eq, getitem_nonneg, Hx by done.
  destruct (scale x ifactor st) as [st' [val|e]]; [|done].
  by rewrite Hg.
Qed.

Lemma round_nearest_column g :
  getitem (round_to p) idx = Ok g →
  round_nearest pdata (PyList xs) ifactor st
  = round_nearest (<[pname := with_round_to p [g]]> pdata) (PyFloat x)
      ifactor st.
Proof.
  intros Hg. unfold round_nearest, bind, read, lift, getkey.
  rewrite Hpname, Hp, Hidx, lookup_insert_eq, getitem_nonneg, Hx by done.
  destruct (scale x ifactor st) as [st' [val|e]]; [|done].
  rewrite Hg. cbn [with_round_to round_to].
  change (getitem [g] 0) with (Ok g). cbv beta iota.
  destruct (py_div val g) as [q|e]; [|done]. unfold ret.
  destruct (in_lower_half val g); [|done].
  do 2 f_equal. apply py_min_le_l, py_min_le_r.
Qed.

Lemma round_column_out_of_range val :
  scale x ifactor st = (st, Ok val) →
  (Z.of_nat (length (round_to p)) ≤ idx)%Z →
  round_down pdata (PyList xs) ifactor st = (st, Raise IndexError)
  ∧ round_nearest pdata (PyList xs) ifactor st = (st, Raise IndexError).
Proof.
  intros Hval Hlen. unfold round_down, round_nearest, bind, read, lift, getkey.
  rewrite Hpname, Hp, Hidx, getitem_nonneg, Hx, Hval by done.
  rewrite getitem_nonneg, lookup_ge_None_2 by lia. done.
Qed.

End Columns.

Section ColumnClaims.
Local Open Scope Qc_scope.
Import PyNum.

(** C5 (amended): on a multi-column value, at column [idx], [round_down]
    and [round_nearest] return what they return on the scalar [value[idx]]
    with the single granularity [round_to[idx]], whenever [round_to] has an
    entry at [idx]; when it has none (a [round_to] of length 1 and
    [idx > 0]), both raise [IndexError]. *)
Theorem rounding_per_column pdata pname p st xs idx x ifactor :
  g_pname st = Some pname → pdata !! pname = Some p →
  g_idx st = Some idx → (0 ≤ idx)%Z → xs !! Z.to_nat idx = Some x →
  (∀ g, getitem (round_to p) idx = Ok g →
     round_down pdata (PyList xs) ifactor st
     = round_down (<[pname := with_round_to p [g]]> pdata) (PyFloat x)
         ifactor st
     ∧ round_nearest pdata (PyList xs) ifactor st
       = round_nearest (<[pname := with_round_to p [g]]> pdata) (PyFloat x)
           ifactor st)
  ∧ (∀ val, scale x ifactor st = (st, Ok val) →
       (Z.of_nat (length (round_to p)) ≤ idx)%Z →
       round_down pdata (PyList xs) ifactor st = (st, Raise IndexError)
       ∧ round_nearest pdata (PyList xs) ifactor st
         = (st, Raise IndexError)).
Proof.
  intros Hpname Hp Hidx Hnonneg Hx. split.
  - intros g Hg. split.
    + by eapply round_down_column.
    + by eapply round_nearest_column.
  - intros val Hval Hlen. by eapply round_column_out_of_range.
Qed.

Lemma rounding_per_column_witness :
  let xs := [of_Z 1030; of_Z 2050] in
  g_pname Sample.at_col1 = Some "_STD"%string
  ∧ Sample.grid2 !! "_STD"%string = Some Sample.two
  ∧ g_idx Sample.at_col1 = Some 1%Z
  ∧ (0 ≤ 1)%Z
  ∧ xs !! Z.to_nat 1 = Some (of_Z 2050)
  ∧ (∀ g, getitem (round_to Sample.two) 1 = Ok g →
       round_down Sample.grid2 (PyList xs) (FFloat 1) Sample.at_col1
       = round_down (<["_STD"%string := with_round_to Sample.two [g]]>
                       Sample.grid2)
           (PyFloat (of_Z 2050)) (FFloat 1) Sample.at_col1
       ∧ round_nearest Sample.grid2 (PyList xs) (FFloat 1) Sample.at_col1
         = round_nearest (<["_STD"%string := with_round_to Sample.two [g]]>
                            Sample.grid2)
             (PyFloat (of_Z 2050)) (FFloat 1) Sample.at_col1)
  ∧ (∀ val, scale (of_Z 2050) (FFloat 1) Sample.at_col1
            = (Sample.at_col1, Ok val) →
       (Z.of_nat (length (round_to Sample.two)) ≤ 1)%Z →
       round_down Sample.grid2 (PyList xs) (FFloat 1) Sample.at_col1
       = (Sample.at_col1, Raise IndexError)
       ∧ round_nearest Sample.grid2 (PyList xs) (FFloat 1) Sample.at_col1
         = (Sample.at_col1, Raise IndexError)).
Proof.
  cbv zeta. do 3 (split; [reflexivity|]). split; [lia|].
  split; [reflexivity|].
  apply (rounding_per_column Sample.grid2 "_STD" Sample.two Sample.at_col1
           [of_Z 1030; of_Z 2050] 1 (of_Z 2050) (FFloat 1));
    first [reflexivity | lia].
Defined.

(** C5 fails for a [round_to] of length 1: at the second column of
    [[1050, 2050]] both functions raise [IndexError], where the scalar
    2050 is rounded to 2000 and 2100 with that granularity. *)
Lemma single_granularity_not_shared :
  let xs := [of_Z 1050; of_Z 2050] in
  length (round_to Sample.std) = 1%nat
  ∧ round_down Sample.grid100 (PyList xs) (FFloat 1) Sample.at_col1
    = (Sample.at_col1, Raise IndexError)
  ∧ round_nearest Sample.grid100 (PyList xs) (FFloat 1) Sample.at_col1
    = (Sample.at_col1, Raise IndexError)
  ∧ round_down Sample.grid100 (PyFloat (of_Z 2050)) (FFloat 1)
      Sample.at_col1 = (Sample.at_col1, Ok (of_Z 2000))
  ∧ round_nearest Sample.grid100 (PyFloat (of_Z 2050)) (FFloat 1)
      Sample.at_col1 = (Sample.at_col1, Ok (of_Z 2100)).
Proof.
  cbv zeta. split; [reflexivity|].
  destruct (round_column_out_of_range Sample.grid100 "_STD" Sample.std
              Sample.at_col1 [of_Z 1050; of_Z 2050] 1 (of_Z 2050) (FFloat 1)
              eq_refl eq_refl eq_refl ltac:(lia) eq_refl
              (of_Z 2050 * 1) eq_refl ltac:(cbn; lia)) as [Hd Hn].
  split; [exact Hd|]. split; [exact Hn|].
  split.
  - rewrite (round_down_scalar Sample.grid100 "_STD" Sample.std
               Sample.at_col1 eq_refl eq_refl _ _ (of_Z 100) eq_refl) by done.
    qc_compute.
  - rewrite (round_nearest_scalar Sample.grid100 "_STD" Sample.std
               Sample.at_col1 eq_refl eq_refl _ _ (of_Z 100) eq_refl) by done.
    qc_compute.
Qed.

End ColumnClaims.

(** ** Weakest preconditions for statements *)

Section Wp.
Context {A B : Type}.
Implicit Types (Q : A → globals → Prop) (E : exn → globals → Prop).

Lemma wp_of_run (m : M A) Q E g g' a :
  m g = (g', Ok a) → Q a g' → wp m Q E g.
Proof. unfold wp. by intros ->. Qed.

Lemma wp_bind (m : M A) (k : A → M B) (R : B → globals → Prop) E g :
  wp m (λ a g', wp (k a) R E g') E g → wp (bind m k) R E g.
Proof. unfold wp, bind. by destruct (m g) as [g' [a|e]]. Qed.

Lemma wp_mono (m : M A) Q Q' E E' g :
  (∀ a g', Q a g' → Q' a g') → (∀ e g', E e g' → E' e g') →
  wp m Q E g → wp m Q' E' g.
Proof. unfold wp. destruct (m g) as [g' [a|e]]; auto. Qed.

Lemma wp_conj (m : M A) Q Q' E E' g :
  wp m Q E g → wp m Q' E' g →
  wp m (λ a g', Q a g' ∧ Q' a g') (λ e g', E e g' ∧ E' e g') g.
Proof. unfold wp. by destruct (m g) as [g' [a|e]]. Qed.

Lemma wp_lift (r : res A) Q E g :
  match r with Ok a => Q a g | Raise e => E e g end → wp (lift r) Q E g.
Proof. done. Qed.

Lemma wp_read (name : globals → option A) Q E g :
  match name g with Some a => Q a g | None => E NameError g end →
  wp (read name) Q E g.
Proof. unfold wp, read. by destruct (name g). Qed.

End Wp.

(** The loop rules: the invariant [I] is indexed by the list of the
    elements already visited. *)
Lemma wp_for_each {X} (I : list X → globals → Prop) (xs : list X)
    (body : X → M unit) E g :
  I [] g →
  (∀ seen x rest g', xs = seen ++ x :: rest → I seen g' →
     wp (body x) (λ _, I (seen ++ [x])) E g') →
  wp (for_each xs body) (λ _, I xs) E g.
Proof.
  intros HI Hbody.
  cut (∀ seen rest g', xs = seen ++ rest → I seen g' →
         wp (for_each rest body) (λ _, I xs) E g').
  { intros H. by apply (H [] xs). }
  intros seen rest. revert seen.
  induction rest as [|x rest IH]; intros seen g' Hxs Hseen.
  - rewrite app_nil_r in Hxs. by subst.
  - cbn [for_each]. apply wp_bind.
    eapply wp_mono; [| |by eapply Hbody]; [|done].
    intros u g'' Hg''. apply (IH (seen ++ [x])); [|done].
    by rewrite <-app_assoc.
Qed.

Lemma wp_for_fold {X S} (I : list X → S → globals → Prop) (xs : list X)
    (acc : S) (body : X → S → M S) E g :
  I [] acc g →
  (∀ seen x rest acc' g', xs = seen ++ x :: rest → I seen acc' g' →
     wp (body x acc') (I (seen ++ [x])) E g') →
  wp (for_fold xs acc body) (I xs) E g.
Proof.
  intros HI Hbody.
  cut (∀ seen rest acc' g', xs = seen ++ rest → I seen acc' g' →
         wp (for_fold rest acc' body) (I xs) E g').
  { intros H. by apply (H [] xs). }
  intros seen rest. revert seen.
  induction rest as [|x rest IH]; intros seen acc' g' Hxs Hseen.
  - rewrite app_nil_r in Hxs. by subst.
  - cbn [for_fold]. apply wp_bind.
    eapply wp_mono; [| |by eapply Hbody]; [|done].
    intros acc'' g'' Hg''. apply (IH (seen ++ [x])); [|done].
    by rewrite <-app_assoc.
Qed.

(** The primitive statements. *)
Section WpPrimitive.
Context {A : Type}.
Implicit Types (Q : A → globals → Prop) (U : unit → globals → Prop).
Implicit Types (E : exn → globals → Prop).

Lemma wp_ret (a : A) Q E g : Q a g → wp (ret a) Q E g.
Proof. done. Qed.
Lemma wp_raise e Q E g : E e g → wp (raise e) Q E g.
Proof. done. Qed.
Lemma wp_set_pname s U E g :
  U tt (set_pname s g).1 → wp (set_pname s) U E g.
Proof. done. Qed.
Lemma wp_set_year y U E g : U tt (set_year y g).1 → wp (set_year y) U E g.
Proof. done. Qed.
Lemma wp_set_idx i U E g : U tt (set_idx i g).1 → wp (set_idx i) U E g.
Proof. done. Qed.
Lemma wp_set_value v U E g :
  U tt (set_value v g).1 → wp (set_value v) U E g.
Proof. done. Qed.
Lemma wp_set_val_round x U E g :
  U tt (set_val_round x g).1 → wp (set_val_round x) U E g.
Proof. done. Qed.
Lemma wp_set_val x U E g : U tt (set_val x g).1 → wp (set_val x) U E g.
Proof. done. Qed.
Lemma wp_old_write l U E g :
  U tt (old_write l g).1 → wp (old_write l) U E g.
Proof. done. Qed.
Lemma wp_new_write l U E g :
  U tt (new_write l g).1 → wp (new_write l) U E g.
Proof. done. Qed.
Lemma wp_print n U E g : U tt (print n g).1 → wp (print n) U E g.
Proof. done. Qed.

End WpPrimitive.

(** One step of symbolic execution. *)
Ltac wp_step :=
  lazymatch goal with
  | |- wp (bind _ _) _ _ _ => apply wp_bind
  | |- wp (lift _) _ _ _ => apply wp_lift
  | |- wp (read _) _ _ _ => apply wp_read
  | |- wp (ret _) _ _ _ => apply wp_ret
  | |- wp (raise _) _ _ _ => apply wp_raise
  | |- wp (set_pname _) _ _ _ => apply wp_set_pname
  | |- wp (set_year _) _ _ _ => apply wp_set_year
  | |- wp (set_idx _) _ _ _ => apply wp_set_idx
  | |- wp (set_value _) _ _ _ => apply wp_set_value
  | |- wp (set_val_round _) _ _ _ => apply wp_set_val_round
  | |- wp (set_val _) _ _ _ => apply wp_set_val
  | |- wp (old_write _) _ _ _ => apply wp_old_write
  | |- wp (new_write _) _ _ _ => apply wp_new_write
  | |- wp (print _) _ _ _ => apply wp_print
  end.

(** ** The selection of the reverting parameters *)

Section Selection.
Variables (fyear : Z) (pdata : gmap string param).

Lemma elem_of_sorted_keys pname :
  pname ∈ sorted_keys pdata ↔ is_Some (pdata !! pname).
Proof.
  unfold sorted_keys. rewrite merge_sort_Permutation, list_elem_of_fmap.
  split.
  - intros ([k p] & -> & Hin%elem_of_map_to_list). by exists p.
  - intros [p Hp]. exists (pname, p). by rewrite elem_of_map_to_list.
Qed.

Lemma reverting_params_wp g :
  wp (reverting_params fyear pdata)
    (λ rp g', rp = filter (reverts fyear pdata) (sorted_keys pdata)
              ∧ same_files g g')
    (λ _ _, False) g.
Proof.
  unfold reverting_params.
  apply (wp_for_fold
           (λ seen acc g', acc = filter (reverts fyear pdata) seen
                           ∧ same_files g g')).
  { done. }
  intros seen pname rest acc g' Hxs [-> Hfiles].
  assert (pname ∈ sorted_keys pdata) as [p Hp]%elem_of_sorted_keys.
  { rewrite Hxs. set_solver. }
  do 4 wp_step. unfold getkey. rewrite Hp. cbv beta iota.
  rewrite filter_app, filter_cons, filter_nil.
  destruct (indexed p) eqn:Hi; cbn [andb].
  - case_bool_decide as Hy; [case_bool_decide as Hs|].
    + wp_step. split; [|done]. rewrite decide_True; [done|]. by exists p.
    + wp_step. split; [|done].
      rewrite decide_False, app_nil_r; [done|].
      intros (p' & Hp' & _ & _ & Hn). done.
    + wp_step. split; [|done].
      rewrite decide_False, app_nil_r; [done|].
      intros (p' & Hp' & _ & Hn & _). congruence.
  - wp_step. split; [|done].
    rewrite decide_False, app_nil_r; [done|].
    intros (p' & Hp' & Hn & _). congruence.
Qed.

End Selection.

(** ** Invariants of the output files *)

Section Preserves.
Variable Inv : globals → Prop.

Lemma preserves_bind {A B} (m : M A) (k : A → M B) :
  preserves Inv m → (∀ a, preserves Inv (k a)) → preserves Inv (bind m k).
Proof.
  intros Hm Hk g Hg. apply wp_bind.
  eapply wp_mono; [| |by apply Hm]; [|done]. intros a g' Hg'. by apply Hk.
Qed.

Lemma preserves_ret {A} (a : A) : preserves Inv (ret a).
Proof. by intros g Hg. Qed.

Lemma preserves_raise {A} e : preserves Inv (@raise A e).
Proof. by intros g Hg. Qed.

Lemma preserves_lift {A} (r : res A) : preserves Inv (lift r).
Proof. intros g Hg. apply wp_lift. by destruct r. Qed.

Lemma preserves_read {A} (name : globals → option A) :
  preserves Inv (read name).
Proof. intros g Hg. apply wp_read. by destruct (name g). Qed.

Lemma preserves_for_each {X} (xs : list X) (body : X → M unit) :
  (∀ x, x ∈ xs → preserves Inv (body x)) → preserves Inv (for_each xs body).
Proof.
  intros Hbody g Hg.
  apply (wp_for_each (λ _, Inv)); [done|].
  intros seen x rest g' -> Hg'. apply Hbody; [set_solver|done].
Qed.

Lemma preserves_for_fold {X S} (xs : list X) (acc : S) (body : X → S → M S) :
  (∀ x acc', x ∈ xs → preserves Inv (body x acc')) →
  preserves Inv (for_fold xs acc body).
Proof.
  intros Hbody g Hg.
  eapply wp_mono;
    [| |apply (wp_for_fold (λ _ _, Inv) xs acc body (λ _, Inv))];
    [done|done|done|].
  intros seen x rest acc' g' -> Hg'. apply Hbody; [set_solver|done].
Qed.

End Preserves.

(** Invariants that speak of the two files only. *)
Section FileInvariant.
Variable J : list line → list line → Prop.
Variable ok_old ok_new : line → Prop.
Hypothesis J_old : ∀ o n l, ok_old l → J o n → J (o ++ [l]) n.
Hypothesis J_new : ∀ o n l, ok_new l → J o n → J o (n ++ [l]).

Lemma preserves_set_pname s : preserves (on_files J) (set_pname s).
Proof. by intros g Hg. Qed.
Lemma preserves_set_year y : preserves (on_files J) (set_year y).
Proof. by intros g Hg. Qed.
Lemma preserves_set_idx i : preserves (on_files J) (set_idx i).
Proof. by intros g Hg. Qed.
Lemma preserves_set_value v : preserves (on_files J) (set_value v).
Proof. by intros g Hg. Qed.
Lemma preserves_set_val_round x : preserves (on_files J) (set_val_round x).
Proof. by intros g Hg. Qed.
Lemma preserves_set_val x : preserves (on_files J) (set_val x).
Proof. by intros g Hg. Qed.
Lemma preserves_print n : preserves (on_files J) (print n).
Proof. by intros g Hg. Qed.
Lemma preserves_old_write l : ok_old l → preserves (on_files J) (old_write l).
Proof. intros Hl g Hg. by apply J_old. Qed.
Lemma preserves_new_write l : ok_new l → preserves (on_files J) (new_write l).
Proof. intros Hl g Hg. by apply J_new. Qed.

End FileInvariant.

(** Splits a compound statement into its primitive statements. *)
Ltac preserves_split :=
  repeat lazymatch goal with
    | |- preserves _ (ret _) => apply preserves_ret
    | |- preserves _ (raise _) => apply preserves_raise
    | |- preserves _ (lift _) => apply preserves_lift
    | |- preserves _ (read _) => apply preserves_read
    | |- preserves _ (set_pname _) => apply preserves_set_pname
    | |- preserves _ (set_year _) => apply preserves_set_year
    | |- preserves _ (set_idx _) => apply preserves_set_idx
    | |- preserves _ (set_value _) => apply preserves_set_value
    | |- preserves _ (set_val_round _) => apply preserves_set_val_round
    | |- preserves _ (set_val _) => apply preserves_set_val
    | |- preserves _ (print _) => apply preserves_print
    | |- preserves _ (bind _ _) => apply preserves_bind; [|intros ?]
    | |- preserves _ (for_each _ _) => apply preserves_for_each; intros ? ?
    | |- preserves _ (for_fold _ _ _) =>
        apply preserves_for_fold; intros ? ? ?
    | |- preserves _ (match ?x with _ => _ end) => destruct x
    end.

Section FileInvariantScript.
Variable J : list line → list line → Prop.
Variable ok_old ok_new : line → Prop.
Hypothesis J_old : ∀ o n l, ok_old l → J o n → J (o ++ [l]) n.
Hypothesis J_new : ∀ o n l, ok_new l → J o n → J o (n ++ [l]).
Local Abbreviation Inv := (on_files J).

Lemma preserves_scale x f : preserves Inv (scale x f).
Proof. unfold scale. preserves_split. Qed.

Lemma preserves_round_down pdata v f : preserves Inv (round_down pdata v f).
Proof. unfold round_down. preserves_split; apply preserves_scale. Qed.

Lemma preserves_round_nearest pdata v f :
  preserves Inv (round_nearest pdata v f).
Proof. unfold round_nearest. preserves_split; apply preserves_scale. Qed.

Lemma preserves_value_append x : preserves Inv (value_append x).
Proof. unfold value_append. preserves_split. Qed.

Lemma preserves_dispatch pdata pname down nearest default target :
  preserves Inv down → preserves Inv nearest → preserves Inv default →
  (∀ r, preserves Inv (target r)) →
  preserves Inv (dispatch pdata pname down nearest default target).
Proof. intros. unfold dispatch. preserves_split; done. Qed.

Lemma preserves_param_value syear pdata pname y :
  preserves Inv (param_value syear pdata pname y).
Proof. unfold param_value. preserves_split. Qed.

Lemma preserves_reverting_params fyear pdata :
  preserves Inv (reverting_params fyear pdata).
Proof. unfold reverting_params. preserves_split. Qed.

Lemma preserves_final_ifactor syear pyear fyear irate :
  preserves Inv (final_ifactor syear pyear fyear irate).
Proof. unfold final_ifactor. preserves_split. Qed.

Lemma preserves_ifactor syear byear fyear irate :
  preserves Inv (ifactor syear byear fyear irate).
Proof. unfold ifactor. preserves_split. Qed.

Lemma preserves_py_assert b : preserves Inv (py_assert b).
Proof. unfold py_assert. destruct b; preserves_split. Qed.

(** The statements that write lines: here every [Entry] line is allowed. *)
Hypothesis entry_old : ∀ y v, ok_old (Entry y v).
Hypothesis entry_new : ∀ y v, ok_new (Entry y v).

Lemma preserves_write_old syear pyear fyear pdata rp :
  Forall (λ pname, ok_old (Title pname)) rp →
  preserves Inv (write_old syear pyear fyear pdata rp).
Proof.
  intros Hrp. unfold write_old. apply preserves_for_each.
  intros pname Hin. rewrite Forall_forall in Hrp.
  preserves_split;
    first [ by eapply preserves_old_write; eauto
          | by apply preserves_param_value ].
Qed.

Lemma preserves_intermediate_years byear fyear pdata pname bvalue d :
  preserves Inv (intermediate_years byear fyear pdata pname bvalue d).
Proof.
  unfold intermediate_years. preserves_split;
    try (by eapply preserves_new_write; eauto);
    try apply preserves_value_append;
    apply preserves_dispatch; intros;
    preserves_split;
    auto using preserves_round_down, preserves_round_nearest.
Qed.

Lemma preserves_final_year fyear pdata pname pvalue f :
  preserves Inv (final_year fyear pdata pname pvalue f).
Proof.
  unfold final_year. preserves_split;
    try (by eapply preserves_new_write; eauto);
    try apply preserves_value_append;
    apply preserves_dispatch; intros;
    preserves_split;
    auto using preserves_round_down, preserves_round_nearest.
Qed.

Lemma preserves_recorded_years syear pyear byear pdata pname :
  ok_new (Title pname) →
  preserves Inv (recorded_years syear pyear byear pdata pname).
Proof.
  intros Hpname. unfold recorded_years. preserves_split;
    first [ by eapply preserves_new_write; eauto
          | by apply preserves_param_value ].
Qed.

Lemma preserves_project syear pyear byear fyear pdata f d pname :
  ok_new (Title pname) →
  preserves Inv (project syear pyear byear fyear pdata f d pname).
Proof.
  intros Hpname. unfold project. preserves_split;
    first [ by apply preserves_recorded_years
          | by apply preserves_param_value
          | by apply preserves_intermediate_years
          | by apply preserves_final_year ].
Qed.

End FileInvariantScript.

(** ** The parameters in the output *)

Section SelectionClaims.
Variables (syear pyear byear fyear : Z).
Variable pdata : gmap string param.
Variable irate : list Qc.

Lemma StronglySorted_filter {A} (R : relation A) (P : A → Prop)
    `{∀ x, Decision (P x)} (l : list A) :
  StronglySorted R l → StronglySorted R (filter P l).
Proof.
  induction 1 as [|x l Hl IH Hx]; [constructor|].
  rewrite filter_cons. case_decide; [|done].
  constructor; [done|].
  eapply Forall_impl; [|done].
  rewrite Forall_forall in Hx |- *. intros y [_ Hy]%list_elem_of_filter.
  by apply Hx.
Qed.

Lemma main_titles :
  preserves
    (on_files (λ o n, Forall (reverting_line fyear pdata) o
                      ∧ Forall (reverting_line fyear pdata) n))
    (main syear pyear byear fyear pdata irate).
Proof.
  set (J := λ o n, Forall (reverting_line fyear pdata) o
                   ∧ Forall (reverting_line fyear pdata) n).
  assert (∀ o n l, reverting_line fyear pdata l → J o n → J (o ++ [l]) n)
    as J_old.
  { intros o n l Hl [Ho Hn]. split; [|done]. apply Forall_app; auto. }
  assert (∀ o n l, reverting_line fyear pdata l → J o n → J o (n ++ [l]))
    as J_new.
  { intros o n l Hl [Ho Hn]. split; [done|]. apply Forall_app; auto. }
  unfold main. do 3 (apply preserves_bind; [apply preserves_py_assert|]; intros _).
  intros g Hg. apply wp_bind.
  eapply wp_mono;
    [| |apply (wp_conj _ _ _ _ _ _ (reverting_params_wp fyear pdata g)
                 (preserves_reverting_params J fyear pdata g Hg))].
  2:{ by intros e g' [[] _]. }
  intros rp g' [[-> _] Hg']. revert g' Hg'.
  assert (Forall (λ n, reverting_line fyear pdata (Title n))
            (filter (reverts fyear pdata) (sorted_keys pdata))) as Hrp.
  { apply Forall_forall. by intros n [Hn _]%list_elem_of_filter. }
  change (preserves (on_files J)
            (print (length (filter (reverts fyear pdata) (sorted_keys pdata)));;
             write_old syear pyear fyear pdata
               (filter (reverts fyear pdata) (sorted_keys pdata));;
             final_ifactor <- final_ifactor syear pyear fyear irate;
             ifactor <- ifactor syear byear fyear irate;
             for_each (filter (reverts fyear pdata) (sorted_keys pdata))
               (project syear pyear byear fyear pdata final_ifactor ifactor))).
  apply preserves_bind; [apply preserves_print|intros _].
  apply preserves_bind; [by eapply preserves_write_old|intros _].
  apply preserves_bind; [apply preserves_final_ifactor|intros f].
  apply preserves_bind; [apply preserves_ifactor|intros d].
  apply preserves_for_each. intros pname Hin.
  rewrite Forall_forall in Hrp.
  eapply preserves_project with (ok_new := reverting_line fyear pdata);
    [done..|]. by apply Hrp.
Qed.

(** C7: the selection returns the sorted list, without repetition, of
    the names whose record is indexed, has the final year among its value
    years and is not in the exclusion list; no other name gets a title in
    [ppp.old] or [ppp.new]. *)
Theorem reverting_params_exact :
  ∃ rp,
    (∀ g, ∃ g', reverting_params fyear pdata g = (g', Ok rp))
    ∧ StronglySorted String.le rp ∧ NoDup rp
    ∧ (∀ pname, pname ∈ rp ↔
         ∃ p, pdata !! pname = Some p ∧ indexed p = true
              ∧ fyear ∈ value_yrs p ∧ pname ∉ skip_list)
    ∧ (∀ pname, Title pname ∈ f_old (main syear pyear byear fyear pdata
                                        irate fresh).1
                ∨ Title pname ∈ f_new (main syear pyear byear fyear pdata
                                         irate fresh).1 →
         pname ∈ rp).
Proof.
  exists (filter (reverts fyear pdata) (sorted_keys pdata)).
  split; [|split; [|split; [|split]]].
  - intros g. pose proof (reverting_params_wp fyear pdata g) as H.
    unfold wp in H. destruct (reverting_params fyear pdata g) as [g' [rp|e]];
      [|done].
    destruct H as [-> _]. by exists g'.
  - apply StronglySorted_filter, StronglySorted_merge_sort; apply _.
  - apply NoDup_filter. unfold sorted_keys.
    rewrite merge_sort_Permutation. apply NoDup_fst_map_to_list.
  - intros pname. rewrite list_elem_of_filter, elem_of_sorted_keys.
    unfold reverts. split; [by intros [H _]|].
    intros (p & Hp & H). split; [by exists p|by exists p].
  - intros pname Hin.
    pose proof (main_titles fresh) as H. unfold wp in H.
    destruct (main syear pyear byear fyear pdata irate fresh) as [g' r].
    cbn [fst] in Hin.
    assert (Forall (reverting_line fyear pdata) (f_old g')
            ∧ Forall (reverting_line fyear pdata) (f_new g')) as [Ho Hn].
    { destruct r; apply H; by split. }
    rewrite Forall_forall in Ho, Hn.
    assert (reverts fyear pdata pname) as Hr.
    { destruct Hin as [Hin|Hin]; [by apply Ho in Hin|by apply Hn in Hin]. }
    rewrite list_elem_of_filter, elem_of_sorted_keys. split; [done|].
    destruct Hr as (p & Hp & _). by exists p.
Qed.

End SelectionClaims.

(** ** The inflation factors *)

Section Factors.
Local Open Scope Qc_scope.
Variables (syear : Z) (irate : list Qc).

Lemma range_nil lo : range lo lo = [].
Proof. unfold range. by rewrite seqZ_nil by lia. Qed.

Lemma range_cons lo hi :
  (lo < hi)%Z → range lo hi = lo :: range (lo + 1) hi.
Proof.
  intros H. unfold range. rewrite seqZ_cons by lia.
  do 2 f_equal; lia.
Qed.

Lemma range_snoc lo hi :
  (lo ≤ hi)%Z → range lo (hi + 1) = range lo hi ++ [hi].
Proof.
  intros H. unfold range.
  replace (hi + 1 - lo)%Z with ((hi - lo) + 1)%Z by lia.
  rewrite seqZ_app by lia. f_equal.
  rewrite seqZ_cons, seqZ_nil by lia. f_equal. lia.
Qed.

Lemma elem_of_range lo hi y : y ∈ range lo hi ↔ (lo ≤ y < hi)%Z.
Proof. unfold range. rewrite elem_of_seqZ. lia. Qed.

(** The elements visited before [x] in a loop over [range lo hi]. *)
Lemma range_split lo hi seen x rest :
  range lo hi = seen ++ x :: rest →
  seen = range lo x ∧ rest = range (x + 1) hi ∧ (lo ≤ x < hi)%Z.
Proof.
  revert lo. induction seen as [|y seen IH]; intros lo Hxs.
  - destruct (decide (lo < hi)%Z) as [Hlt|Hge].
    + rewrite range_cons in Hxs by done. injection Hxs as <- <-.
      by rewrite range_nil.
    + unfold range in Hxs. by rewrite seqZ_nil in Hxs by lia.
  - destruct (decide (lo < hi)%Z) as [Hlt|Hge].
    + rewrite range_cons in Hxs by done. injection Hxs as <- Hxs.
      destruct (IH _ Hxs) as (-> & -> & Hx).
      split; [|split; [done|lia]].
      by rewrite (range_cons lo) by lia.
    + unfold range in Hxs. by rewrite seqZ_nil in Hxs by lia.
Qed.

Lemma product_snoc l x : product (l ++ [x]) = product l * x.
Proof.
  unfold product. induction l as [|y l IH]; cbn.
  - by rewrite Qcmult_1_l, Qcmult_1_r.
  - rewrite IH. ring.
Qed.

Lemma compound_nil lo : compound syear irate lo lo = 1.
Proof. unfold compound. by rewrite range_nil. Qed.

Lemma compound_snoc lo hi :
  (lo ≤ hi)%Z →
  compound syear irate lo (hi + 1)
  = compound syear irate lo hi * (1 + rate syear irate hi).
Proof.
  intros H. unfold compound.
  rewrite range_snoc, fmap_app by done. apply product_snoc.
Qed.

Lemma rate_covered y r :
  getitem irate (y - syear) = Ok r → rate syear irate y = r.
Proof. unfold rate. by intros ->. Qed.

Section Covered.
Variables (lo hi : Z).
Hypothesis covered :
  ∀ y, (lo ≤ y < hi)%Z → ∃ r, getitem irate (y - syear) = Ok r.

Lemma final_ifactor_wp g :
  wp (final_ifactor syear lo hi irate)
    (λ f g', f = compound syear irate lo hi ∧ same_files g g')
    (λ _ _, False) g.
Proof.
  unfold final_ifactor.
  apply (wp_for_fold
           (λ seen f g', f = product ((λ y, 1 + rate syear irate y) <$> seen)
                         ∧ same_files g g')).
  { done. }
  intros seen y rest f g' Hxs [-> Hfiles].
  apply range_split in Hxs as (-> & -> & Hy).
  destruct (covered y Hy) as [r Hr].
  do 4 wp_step. rewrite Hr. wp_step.
  split; [|done].
  rewrite fmap_app. symmetry. etrans; [apply product_snoc|].
      cbv beta. by rewrite (rate_covered _ _ Hr).
Qed.

Lemma ifactor_wp g :
  wp (ifactor syear lo hi irate)
    (λ d g', (∀ y, d !! y = if decide (lo ≤ y < hi)%Z
                            then Some (compound syear irate lo y) else None)
             ∧ same_files g g')
    (λ _ _, False) g.
Proof.
  unfold ifactor. wp_step.
  eapply wp_mono with (E := λ _ _, False); [| |
    apply (wp_for_fold
             (λ seen '(d, f) g',
                (∀ y, d !! y = if decide (y ∈ seen)
                               then Some (compound syear irate lo y) else None)
                ∧ f = product ((λ y, 1 + rate syear irate y) <$> seen)
                ∧ same_files g g'))].
  - intros [d f] g' (Hd & _ & Hfiles). wp_step. split; [|done].
    intros y. rewrite Hd. cbn [fst].
    destruct (decide (y ∈ range lo hi)) as [Hy|Hy];
      rewrite elem_of_range in Hy;
      [by rewrite decide_True|by rewrite decide_False].
  - done.
  - split; [|done]. intros y. rewrite lookup_empty.
    rewrite decide_False; [done|]. apply not_elem_of_nil.
  - intros seen y rest [d f] g' Hxs (Hd & -> & Hfiles).
    apply range_split in Hxs as (-> & -> & Hy).
    destruct (covered y Hy) as [r Hr].
    do 4 wp_step. rewrite Hr. wp_step.
    split; [|split; [|done]].
    + intros z. destruct (decide (z = y)) as [->|Hne].
      * rewrite lookup_insert_eq, decide_True; [done|].
        rewrite elem_of_app, list_elem_of_singleton. by right.
      * rewrite lookup_insert_ne, Hd by done.
        destruct (decide (z ∈ range lo y)) as [Hz|Hz].
        -- rewrite decide_True; [done|]. rewrite elem_of_app. by left.
        -- rewrite decide_False; [done|].
           rewrite elem_of_app, list_elem_of_singleton. by intros [?|?].
    + rewrite fmap_app. symmetry. etrans; [apply product_snoc|].
      cbv beta. by rewrite (rate_covered _ _ Hr).
Qed.

End Covered.
End Factors.

Section FactorClaims.
Local Open Scope Qc_scope.

(** C3 (amended): when the rate list covers the window, the dictionary
    [ifactor] holds exactly 1 for [byear], and for every year [y] of the
    window whose successor is in the window too ([byear <= y] and
    [y + 1 < fyear]), the factor of [y + 1] is the factor of [y] times
    [1 + rate[y]]; the dictionary has no entry for [fyear]. *)
Theorem ifactor_recurrence syear byear fyear irate g :
  (byear < fyear)%Z →
  (∀ y, (byear ≤ y < fyear)%Z → ∃ r, getitem irate (y - syear) = Ok r) →
  ∃ g' d,
    ifactor syear byear fyear irate g = (g', Ok d)
    ∧ d !! byear = Some 1
    ∧ (∀ y r, (byear ≤ y)%Z → (y + 1 < fyear)%Z →
         getitem irate (y - syear) = Ok r →
         ∃ f, d !! y = Some f ∧ d !! (y + 1)%Z = Some (f * (1 + r)))
    ∧ d !! fyear = None.
Proof.
  intros Hwindow Hcovered.
  pose proof (ifactor_wp syear irate byear fyear Hcovered g) as H.
  unfold wp in H.
  destruct (ifactor syear byear fyear irate g) as [g' [d|e]]; [|done].
  destruct H as [Hd _]. exists g', d. split; [done|].
  split; [|split].
  - rewrite Hd, decide_True by lia. by rewrite compound_nil.
  - intros y r Hy Hy' Hr. eexists. rewrite !Hd, !decide_True by lia.
    split; [done|]. by rewrite compound_snoc, (rate_covered _ _ _ _ Hr).
  - rewrite Hd, decide_False; [done|lia].
Qed.

Lemma ifactor_recurrence_witness :
  (2019 < 2026)%Z
  ∧ (∀ y, (2019 ≤ y < 2026)%Z →
       ∃ r, getitem Sample.rates (y - 2013) = Ok r)
  ∧ ∃ g' d,
      ifactor 2013 2019 2026 Sample.rates fresh = (g', Ok d)
      ∧ d !! 2019%Z = Some 1
      ∧ (∀ y r, (2019 ≤ y)%Z → (y + 1 < 2026)%Z →
           getitem Sample.rates (y - 2013) = Ok r →
           ∃ f, d !! y = Some f ∧ d !! (y + 1)%Z = Some (f * (1 + r)))
      ∧ d !! 2026%Z = None.
Proof.
  assert (∀ y, (2019 ≤ y < 2026)%Z →
            ∃ r, getitem Sample.rates (y - 2013) = Ok r) as Hcovered.
  { intros y Hy. rewrite getitem_nonneg by lia.
    destruct (Sample.rates !! Z.to_nat (y - 2013)) eqn:E; [by eexists|].
    apply lookup_ge_None_1 in E. cbn in E. lia. }
  split; [lia|]. split; [exact Hcovered|].
  apply (ifactor_recurrence 2013 2019 2026 Sample.rates fresh);
    [lia|exact Hcovered].
Defined.

(** C3 fails for the last year of the window: with the thirteen rates for
    2013 to 2025 and the window [2019, 2026), the year 2025 has a factor but
    2026 has none. *)
Lemma ifactor_no_successor_of_last_year :
  match ifactor 2013 2019 2026 Sample.rates fresh with
  | (_, Ok d) =>
      is_Some (d !! 2025%Z) ∧ d !! 2026%Z = None
  | (_, Raise _) => False
  end.
Proof. vm_compute. split; [by eexists|done]. Qed.

End FactorClaims.

(** ** A rate list that is too short *)

Section ShortRates.
Variables (syear pyear byear fyear : Z).
Variable pdata : gmap string param.
Variable irate : list Qc.

Lemma getitem_out_of_range {A} (l : list A) i :
  (Z.of_nat (length l) ≤ i)%Z → getitem l i = Raise IndexError.
Proof.
  intros Hi. rewrite getitem_nonneg by lia. by rewrite lookup_ge_None_2 by lia.
Qed.

Lemma final_ifactor_short g :
  (syear ≤ pyear)%Z → (pyear < fyear)%Z →
  (Z.of_nat (length irate) < fyear - syear)%Z →
  wp (final_ifactor syear pyear fyear irate) (λ _ _, False)
    (λ e g', e = IndexError ∧ same_files g g') g.
Proof.
  intros Hs Hwindow Hshort. unfold final_ifactor.
  eapply wp_mono with (E := λ e g', e = IndexError ∧ same_files g g'); [|done|
    apply (wp_for_fold
             (λ seen (_ : Qc) g',
                Forall (λ y, y - syear < Z.of_nat (length irate))%Z seen
                ∧ same_files g g'))].
  - intros _ g' [Hall _]. rewrite Forall_forall in Hall.
    assert (fyear - 1 - syear < Z.of_nat (length irate))%Z; [|lia].
    apply Hall, elem_of_range. lia.
  - done.
  - intros seen y rest f g' Hxs [Hseen Hfiles].
    apply range_split in Hxs as (-> & -> & Hy).
    do 4 wp_step.
    destruct (decide (y - syear < Z.of_nat (length irate))%Z) as [Hlt|Hge].
    + rewrite getitem_nonneg by lia.
      destruct (lookup_lt_is_Some_2 irate (Z.to_nat (y - syear))) as [r ->];
        [lia|].
      wp_step. split; [|done]. apply Forall_app. split; [done|].
      by apply Forall_singleton.
    + rewrite getitem_out_of_range by lia. done.
Qed.

Lemma write_old_wp rp g :
  (∀ pname, pname ∈ rp → is_Some (pdata !! pname)) →
  full_history syear pyear fyear pdata rp →
  wp (write_old syear pyear fyear pdata rp)
    (λ _ g', f_old g' = f_old g ++ old_dump syear pyear fyear pdata rp
             ∧ f_new g' = f_new g ∧ f_stdout g' = f_stdout g)
    (λ _ _, False) g.
Proof.
  intros Hkeys Hfull. unfold write_old.
  apply (wp_for_each
           (λ seen g', f_old g' = f_old g
                                  ++ old_dump syear pyear fyear pdata seen
                       ∧ f_new g' = f_new g ∧ f_stdout g' = f_stdout g)).
  { unfold old_dump. cbn. by rewrite app_nil_r. }
  intros seen pname rest g1 -> (Hold & Hnew & Hout).
  assert (pname ∈ seen ++ pname :: rest) as Hin.
  { rewrite elem_of_app, elem_of_cons. auto. }
  destruct (Hkeys pname Hin) as [p Hp].
  do 4 wp_step.
  eapply wp_mono with (E := λ _ _, False); [| |
    apply (wp_for_each
             (λ years g',
                f_old g' = f_old g1 ++ [Title pname]
                           ++ ((λ y, Entry y (history syear p y)) <$> years)
                ∧ f_new g' = f_new g ∧ f_stdout g' = f_stdout g))].
  - intros _ g2 (Hold2 & Hnew2 & Hout2). split; [|done].
    rewrite Hold2, Hold. unfold old_dump.
    rewrite fmap_app, concat_app, <-app_assoc. f_equal.
    cbn. f_equal. unfold old_block. by rewrite Hp, app_nil_r.
  - done.
  - cbn. done.
  - intros years y later g2 Hxs (Hold2 & Hnew2 & Hout2).
    apply range_split in Hxs as (-> & -> & Hy).
    destruct (Hfull pname p y Hin Hp) as [v Hv]; [lia|].
    do 3 wp_step. unfold param_value. do 2 wp_step.
    unfold getkey. rewrite Hp. cbv beta iota. wp_step. rewrite Hv.
    do 2 wp_step. wp_step. cbn.
    split; [|done]. rewrite Hold2, fmap_app, <-!app_assoc. do 3 f_equal.
    cbn. unfold history. by rewrite Hv.
Qed.

End ShortRates.

Section ShortRatesClaims.

(** C9 (amended): when the rate list has fewer entries than the years up to
    [fyear] need, the run raises [IndexError] while it builds
    [final_ifactor]: nothing is written to [ppp.new], but by then the count
    of the reverting parameters has been printed and [ppp.old] has been
    written in full. *)
Theorem short_rate_list_aborts syear byear pdata irate :
  let rp := filter (reverts 2026 pdata) (sorted_keys pdata) in
  (syear ≤ 2017)%Z → (2017 < byear < 2026)%Z →
  (Z.of_nat (length irate) < 2026 - syear)%Z →
  full_history syear 2017 2026 pdata rp →
  ∃ g', main syear 2017 byear 2026 pdata irate fresh = (g', Raise IndexError)
        ∧ f_stdout g' = [length rp]
        ∧ f_old g' = old_dump syear 2017 2026 pdata rp
        ∧ f_new g' = [].
Proof.
  intros rp Hs Hb Hshort Hfull.
  cut (wp (main syear 2017 byear 2026 pdata irate) (λ _ _, False)
         (λ e g', e = IndexError ∧ f_stdout g' = [length rp]
                  ∧ f_old g' = old_dump syear 2017 2026 pdata rp
                  ∧ f_new g' = []) fresh).
  { unfold wp. destruct (main _ _ _ _ _ _ _) as [g' [[]|e]]; [done|].
    intros [-> H]. by exists g'. }
  unfold main.
  replace ((2017 <? byear)%Z && (byear <? 2026)%Z) with true
    by (symmetry; apply andb_true_iff; split; apply Z.ltb_lt; lia).
  cbn [Z.eqb Pos.eqb py_assert].
  do 6 wp_step. wp_step.
  eapply wp_mono; [| |apply reverting_params_wp]; [|done].
  intros ? g1 (-> & Hold1 & Hnew1 & Hout1). fold rp.
  do 2 wp_step. wp_step.
  eapply wp_mono; [| |apply write_old_wp]; [|done| |done].
  2:{ intros pname [(p & Hp & _) _]%list_elem_of_filter. by exists p. }
  intros _ g2 (Hold2 & Hnew2 & Hout2).
  cbn in Hold2, Hnew2, Hout2. rewrite Hold1 in Hold2.
  rewrite Hnew1 in Hnew2. rewrite Hout1 in Hout2.
  wp_step.
  eapply wp_mono; [| |by apply final_ifactor_short]; [done|].
  intros e g3 (-> & Hold3 & Hnew3 & Hout3).
  split; [done|]. by rewrite Hold3, Hnew3, Hout3.
Qed.

Lemma short_rate_list_aborts_witness :
  let rp := filter (reverts 2026 Sample.table) (sorted_keys Sample.table) in
  (2013 ≤ 2017)%Z ∧ (2017 < 2019 < 2026)%Z
  ∧ (Z.of_nat (length (take 12 Sample.rates)) < 2026 - 2013)%Z
  ∧ full_history 2013 2017 2026 Sample.table rp
  ∧ ∃ g', main 2013 2017 2019 2026 Sample.table (take 12 Sample.rates) fresh
          = (g', Raise IndexError)
          ∧ f_stdout g' = [length rp]
          ∧ f_old g' = old_dump 2013 2017 2026 Sample.table rp
          ∧ f_new g' = [].
Proof.
  assert (full_history 2013 2017 2026 Sample.table
            (filter (reverts 2026 Sample.table) (sorted_keys Sample.table)))
    as Hfull.
  { intros pname p y _ Hp Hy.
    assert (length (value p) = 14%nat) as Hlen.
    { unfold Sample.table in Hp.
      repeat (rewrite list_to_map_cons in Hp;
              apply lookup_insert_Some in Hp as [[_ <-]|[_ Hp]]; [done|]).
      by rewrite list_to_map_nil, lookup_empty in Hp. }
    rewrite getitem_nonneg by lia.
    destruct (value p !! Z.to_nat (y - 2013)) eqn:E; [by eexists|].
    apply lookup_ge_None_1 in E. lia. }
  cbv zeta. split; [lia|]. split; [lia|]. split; [cbn; lia|].
  split; [exact Hfull|].
  apply (short_rate_list_aborts 2013 2019 Sample.table (take 12 Sample.rates));
    [lia|lia|cbn; lia|exact Hfull].
Defined.

(** C9 fails on its last part, and no [ConfigurationError] exists: with
    twelve rates, one fewer than the years 2013 to 2025, the run raises
    [IndexError] after it has printed the count 3 and written the 33 lines
    of [ppp.old]. *)
Lemma short_rate_list_after_old_dump :
  match main 2013 2017 2019 2026 Sample.table (take 12 Sample.rates) fresh with
  | (g', r) =>
      r = Raise IndexError ∧ f_stdout g' = [3%nat]
      ∧ length (f_old g') = 33%nat ∧ f_new g' = []
  end.
Proof. vm_compute. done. Qed.

End ShortRatesClaims.

(** ** The rounding functions and the policy of the specification *)

Section Policy.
Local Open Scope Qc_scope.
Import PyNum.

Lemma py_min_clamp_r x : py_min x cap = clamp x.
Proof.
  unfold clamp. case_decide; [by apply py_min_le_l|].
  apply py_min_gt. by apply Qcnot_le_lt.
Qed.

Lemma py_min_clamp_l x : py_min cap x = clamp x.
Proof.
  unfold clamp, py_min, ltb. case_bool_decide as Hlt.
  - rewrite decide_True; [done|]. by apply Qclt_le_weak.
  - case_decide as Hle; [|done].
    apply Qcle_antisym; [by apply Qcnot_lt_le|done].
Qed.

Lemma clamp_le x : clamp x ≤ cap.
Proof. rewrite <-py_min_clamp_r. apply py_min_le_r. Qed.

Lemma in_lower_half_decide val g :
  in_lower_half val g
  = bool_decide (0 < py_mod val g ∧ py_mod val g < g / of_Z 2).
Proof.
  unfold in_lower_half, ltb. apply eq_true_iff_eq.
  rewrite andb_true_iff, !bool_decide_eq_true. tauto.
Qed.

Lemma scale_dict x d y f g :
  g_year g = Some y → d !! y = Some f →
  scale x (FDict d) g = (g, Ok (x * f)).
Proof.
  intros Hy Hf. unfold scale, bind, read, lift, getkey, ret.
  by rewrite Hy, Hf.
Qed.

Variable pdata : gmap string param.
Variables (pname : string) (p : param) (g : globals).
Variables (v : pyval) (i : nat) (x val gr : Qc) (fa : factor_arg).
Hypothesis Hpname : g_pname g = Some pname.
Hypothesis Hp : pdata !! pname = Some p.
Hypothesis Hcol : at_column g v i x.
Hypothesis Hscale : scale x fa g = (g, Ok val).
Hypothesis Hgr : round_to p !! i = Some gr.
Hypothesis Hgr0 : gr ≠ 0.

Lemma round_down_value :
  round_down pdata v fa g = (g, Ok (spec_round_down val gr)).
Proof.
  unfold round_down, bind, read, lift, getkey. rewrite Hpname, Hp.
  destruct v as [y|xs]; cbn in Hcol.
  - destruct Hcol as [-> ->]. rewrite Hscale.
    cbv zeta. rewrite getitem_nonneg by done.
    change (Z.to_nat 0) with 0%nat. rewrite Hgr.
    unfold floor_to_grid, py_div. rewrite bool_decide_eq_false_2 by done.
    by rewrite py_min_clamp_r.
  - destruct Hcol as [Hidx Hx]. rewrite Hidx.
    cbv zeta. rewrite !getitem_nonneg, Nat2Z.id, Hx, Hscale, Hgr by lia.
    unfold floor_to_grid, py_div. rewrite bool_decide_eq_false_2 by done.
    by rewrite py_min_clamp_r.
Qed.

Lemma round_nearest_value :
  round_nearest pdata v fa g = (g, Ok (spec_round_nearest val gr)).
Proof.
  unfold round_nearest, bind, read, lift, getkey. rewrite Hpname, Hp.
  unfold spec_round_nearest, grid_nearest. cbv zeta.
  destruct v as [y|xs]; cbn in Hcol.
  - destruct Hcol as [-> ->]. rewrite Hscale.
    cbv zeta. rewrite getitem_nonneg by done.
    change (Z.to_nat 0) with 0%nat. rewrite Hgr.
    unfold py_div, ret. rewrite bool_decide_eq_false_2 by done.
    rewrite in_lower_half_decide, py_min_clamp_r.
    destruct (decide _);
      [by rewrite bool_decide_eq_true_2 by done
      |by rewrite bool_decide_eq_false_2 by done].
  - destruct Hcol as [Hidx Hx]. rewrite Hidx.
    cbv zeta. rewrite !getitem_nonneg, Nat2Z.id, Hx, Hscale, Hgr by lia.
    unfold py_div, ret. rewrite bool_decide_eq_false_2 by done.
    rewrite in_lower_half_decide, !py_min_clamp_r.
    do 2 f_equal. destruct (decide _) as [H|H].
    + rewrite bool_decide_eq_true_2 by done.
      rewrite <-py_min_clamp_r. apply py_min_le_l, clamp_le.
    + by rewrite bool_decide_eq_false_2 by done.
Qed.

End Policy.

(** ** The rounding statement and the loop over the columns *)

Section Dispatch.
Local Open Scope Qc_scope.
Import PyNum.

Variable pdata : gmap string param.
Variables (pname : string) (p : param).
Hypothesis Hp : pdata !! pname = Some p.
Hypothesis Hdir :
  ∀ dir, round_dir p = Some dir → dir = "down"%string ∨ dir = "nearest"%string.

Lemma dispatch_policy g v i x val nd fa default target
    (Q : unit → globals → Prop) E :
  g_pname g = Some pname →
  at_column g v i x → scale x fa g = (g, Ok val) →
  (∀ dir, round_dir p = Some dir → ∃ gr, round_to p !! i = Some gr ∧ gr ≠ 0) →
  (round_dir p = None → default g = (g, Ok (clamp (py_round val nd)))) →
  wp (target (policy (round_dir p) nd val (granularity p i))) Q E g →
  wp (dispatch pdata pname (round_down pdata v fa) (round_nearest pdata v fa)
        default target) Q E g.
Proof.
  intros Hpname Hcol Hscale Hgr Hdefault Htarget.
  unfold dispatch. do 2 wp_step. unfold getkey. rewrite Hp. cbv beta iota.
  unfold policy, unclamped, granularity in Htarget.
  destruct (round_dir p) as [dir|] eqn:Hrd.
  - destruct (Hgr dir eq_refl) as (gr & Hgr' & Hgr0). rewrite Hgr' in Htarget.
    destruct (Hdir dir eq_refl) as [->| ->].
    + rewrite bool_decide_eq_true_2 by done. wp_step.
      eapply wp_of_run; [by eapply round_down_value|].
      by rewrite decide_True in Htarget by done.
    + rewrite bool_decide_eq_false_2, bool_decide_eq_true_2 by done. wp_step.
      eapply wp_of_run; [by eapply round_nearest_value|].
      by rewrite decide_False in Htarget by done.
  - wp_step. eapply wp_of_run; [by apply Hdefault|done].
Qed.

Lemma assigns_val_round : assigns set_val_round g_val_round.
Proof. intros r g. by eexists. Qed.

Lemma assigns_val : assigns set_val g_val.
Proof. intros r g. by eexists. Qed.

(** The loop over the columns of a list [xs], which builds the global
    [value] from the empty list. *)
Lemma columns_loop target name xs fa fac nd default g :
  assigns target name →
  g_pname g = Some pname →
  g_value g = Some (PyList []) →
  (∀ x g', g_year g' = g_year g → scale x fa g' = (g', Ok (x * fac))) →
  (∀ dir i, round_dir p = Some dir → (i < length xs)%nat →
     ∃ gr, round_to p !! i = Some gr ∧ gr ≠ 0) →
  (∀ i x g', xs !! i = Some x → g_year g' = g_year g →
     default (Z.of_nat i) g' = (g', Ok (clamp (py_round (x * fac) nd)))) →
  wp (for_each (range 0 (Z.of_nat (length xs))) (λ idx,
        set_idx idx;;
        dispatch pdata pname (round_down pdata (PyList xs) fa)
          (round_nearest pdata (PyList xs) fa) (default idx) target;;
        r <- read name;
        value_append r))
    (λ _ g', g_value g' = Some (projected p nd fac (PyList xs))
             ∧ same_frame g g')
    (λ _ _, False) g.
Proof.
  intros Htarget Hpname Hvalue Hscale Hgr Hdefault.
  set (F := λ i x, policy (round_dir p) nd (x * fac) (granularity p i)).
  eapply wp_mono with (E := λ _ _, False); [| |
    apply (wp_for_each
             (λ seen g', g_value g'
                         = Some (PyList (imap F (take (length seen) xs)))
                         ∧ same_frame g g'))].
  - intros _ g' [Hv Hframe]. split; [|done]. rewrite Hv. cbn [projected].
    unfold range. rewrite length_seqZ, Z.sub_0_r, Nat2Z.id.
    by rewrite firstn_all.
  - done.
  - by split.
  - intros seen idx rest g1 Hxs (Hv1 & Hpn1 & Hy1 & Ho1 & Hn1 & Hs1).
    apply range_split in Hxs as (-> & -> & Hidx).
    assert (length (range 0 idx) = Z.to_nat idx) as Hlen.
    { unfold range. rewrite length_seqZ. f_equal. lia. }
    rewrite Hlen in Hv1.
    destruct (lookup_lt_is_Some_2 xs (Z.to_nat idx)) as [x Hx]; [lia|].
    do 3 wp_step.
    eapply (dispatch_policy _ (PyList xs) (Z.to_nat idx) x (x * fac));
      [by rewrite <-Hpname| | | | |].
    { split; [cbn; f_equal; lia|done]. }
    { apply Hscale. by rewrite <-Hy1. }
    { intros dir Hrd. apply (Hgr dir); [done|].
      apply lookup_lt_Some in Hx. lia. }
    { intros _. replace idx with (Z.of_nat (Z.to_nat idx)) at 1 by lia.
      apply Hdefault; [done|]. by rewrite <-Hy1. }
    fold (F (Z.to_nat idx) x).
    destruct (Htarget (F (Z.to_nat idx) x) (set_idx idx g1).1)
      as (g2 & Hrun & Hname & Hidx2 & Hv2 & Hpn2 & Hy2 & Ho2 & Hn2 & Hs2).
    cbn in Hidx2, Hv2, Hpn2, Hy2, Ho2, Hn2, Hs2.
    eapply wp_of_run; [exact Hrun|].
    do 2 wp_step. rewrite Hname. unfold value_append. do 2 wp_step.
    rewrite Hv2, Hv1. wp_step.
    cbn. split; [|unfold same_frame; cbn; repeat split; congruence].
    do 2 f_equal. rewrite length_app, Hlen. cbn [length].
    rewrite Nat.add_1_r, (take_S_r _ _ x), imap_app by done.
    f_equal. cbn. rewrite length_take_le, Nat.add_0_r; [done|].
    apply lookup_lt_Some in Hx. lia.
Qed.

End Dispatch.

(** ** The projection of one parameter *)

Section Projection.
Local Open Scope Qc_scope.
Import PyNum.

Variables (syear pyear byear fyear : Z).
Variable pdata : gmap string param.
Variables (pname : string) (p : param).
Hypothesis Hp : pdata !! pname = Some p.
Hypothesis Hdir :
  ∀ dir, round_dir p = Some dir → dir = "down"%string ∨ dir = "nearest"%string.

Lemma intermediate_years_wp bvalue d g :
  g_pname g = Some pname →
  (∀ y, (byear < y < fyear)%Z → is_Some (d !! y)) →
  (∀ dir i, round_dir p = Some dir → (i < columns bvalue)%nat →
     ∃ gr, round_to p !! i = Some gr ∧ gr ≠ 0) →
  wp (intermediate_years byear fyear pdata pname bvalue d)
    (λ _ g',
       f_new g' = f_new g
                  ++ ((λ y, Entry y (projected p 2 (factor_of d y) bvalue))
                        <$> range (byear + 1) fyear)
       ∧ g_pname g' = Some pname
       ∧ f_old g' = f_old g ∧ f_stdout g' = f_stdout g)
    (λ _ _, False) g.
Proof.
  intros Hpname Hd Hgr. unfold intermediate_years.
  eapply wp_mono with (E := λ _ _, False); [| |
    apply (wp_for_each
             (λ seen g',
                f_new g' = f_new g
                           ++ ((λ y, Entry y (projected p 2 (factor_of d y)
                                                bvalue)) <$> seen)
                ∧ g_pname g' = Some pname
                ∧ f_old g' = f_old g ∧ f_stdout g' = f_stdout g))];
    [done|done| |].
  { cbn. by rewrite app_nil_r. }
  intros seen y rest g1 Hxs (Hn1 & Hpn1 & Ho1 & Hs1).
  apply range_split in Hxs as (-> & -> & Hy).
  destruct (Hd y) as [f Hf]; [lia|].
  assert (factor_of d y = f) as Hfy by (unfold factor_of; by rewrite Hf).
  assert (∀ x g', g_year g' = Some y →
            scale x (FDict d) g' = (g', Ok (x * f))) as Hscale.
  { intros x g' Hy'. by eapply scale_dict. }
  do 3 wp_step.
  destruct bvalue as [b|bs].
  - eapply (dispatch_policy pdata pname p Hp Hdir _ (PyFloat b) 0%nat b
              (b * f) 2); [done|done|by apply Hscale| | |].
    { intros dir Hrd. apply (Hgr dir); [done|cbn; lia]. }
    { intros _. unfold bind, lift, getkey, ret. rewrite Hf.
      by rewrite py_min_clamp_l. }
    wp_step. do 2 wp_step. cbn [set_value set_year fst g_value]. wp_step.
    cbn. rewrite Hn1, fmap_app, <-app_assoc. cbn.
    unfold factor_of. by rewrite Hf.
  - do 2 wp_step.
    eapply wp_mono with (E := λ _ _, False); [| |
      eapply (columns_loop pdata pname p Hp Hdir set_val_round g_val_round
                bs (FDict d) f 2)]; [| |apply assigns_val_round|..]; try done.
    + intros _ g2 (Hv2 & Hpn2 & Hy2 & Ho2 & Hn2 & Hs2).
      cbn in Hpn2, Hy2, Ho2, Hn2, Hs2.
      do 2 wp_step. rewrite Hv2. wp_step.
      cbn. rewrite Hn2, Hn1, fmap_app, <-app_assoc. cbn.
      unfold factor_of. rewrite Hf. repeat split; congruence.
    + intros i x g' Hx Hy'. unfold bind, lift, getkey, ret.
      rewrite getitem_nonneg, Nat2Z.id, Hx, Hf by lia.
      by rewrite py_min_clamp_l.
Qed.

Lemma final_year_wp pvalue f g :
  g_pname g = Some pname →
  (∀ dir i, round_dir p = Some dir → (i < columns pvalue)%nat →
     ∃ gr, round_to p !! i = Some gr ∧ gr ≠ 0) →
  wp (final_year fyear pdata pname pvalue f)
    (λ _ g',
       f_new g' = f_new g ++ [Entry fyear (projected p 0 f pvalue)]
       ∧ g_pname g' = Some pname
       ∧ f_old g' = f_old g ∧ f_stdout g' = f_stdout g)
    (λ _ _, False) g.
Proof.
  intros Hpname Hgr. unfold final_year. wp_step.
  destruct pvalue as [b|bs].
  - eapply (dispatch_policy pdata pname p Hp Hdir _ (PyFloat b) 0%nat b
              (b * f) 0); [done|done|done| | |].
    { intros dir Hrd. apply (Hgr dir); [done|cbn; lia]. }
    { intros _. unfold ret. by rewrite py_min_clamp_l. }
    wp_step. do 2 wp_step. cbn [set_value fst g_value]. wp_step. done.
  - do 2 wp_step.
    eapply wp_mono with (E := λ _ _, False); [| |
      eapply (columns_loop pdata pname p Hp Hdir set_val g_val
                bs (FFloat f) f 0)]; [| |apply assigns_val|..]; try done.
    + intros _ g2 (Hv2 & Hpn2 & Hy2 & Ho2 & Hn2 & Hs2).
      cbn in Hpn2, Hy2, Ho2, Hn2, Hs2.
      do 2 wp_step. rewrite Hv2. wp_step.
      cbn. rewrite Hn2. repeat split; congruence.
    + intros i x g' Hx Hy'. unfold bind, lift, ret.
      rewrite getitem_nonneg, Nat2Z.id, Hx by lia.
      by rewrite py_min_clamp_l.
Qed.

Lemma param_value_run y g :
  (∃ v, getitem (value p) (y - syear) = Ok v) →
  param_value syear pdata pname y g = (g, Ok (history syear p y)).
Proof.
  intros [v Hv]. unfold param_value, bind, lift, getkey, history.
  by rewrite Hp, Hv.
Qed.

Lemma recorded_years_wp g :
  (pyear ≤ byear)%Z →
  (∀ y, (pyear ≤ y ≤ byear)%Z → ∃ v, getitem (value p) (y - syear) = Ok v) →
  wp (recorded_years syear pyear byear pdata pname)
    (λ _ g',
       f_new g' = f_new g ++ [Title pname]
                  ++ ((λ y, Entry y (history syear p y))
                        <$> range pyear (byear + 1))
       ∧ g_value g' = Some (history syear p byear)
       ∧ g_pname g' = g_pname g
       ∧ f_old g' = f_old g ∧ f_stdout g' = f_stdout g)
    (λ _ _, False) g.
Proof.
  intros Hwindow Hhist. unfold recorded_years.
  do 3 wp_step.
  eapply wp_of_run; [apply param_value_run, Hhist; lia|].
  do 4 wp_step.
  eapply wp_mono with (E := λ _ _, False); [| |
    apply (wp_for_each
             (λ seen g',
                f_new g' = f_new g ++ [Title pname]
                           ++ ((λ y, Entry y (history syear p y))
                                 <$> pyear :: seen)
                ∧ g_value g'
                  = Some (history syear p (pyear + Z.of_nat (length seen)))
                ∧ g_pname g' = g_pname g
                ∧ f_old g' = f_old g ∧ f_stdout g' = f_stdout g))];
    [|done| |].
  - intros _ g1 (Hn1 & Hv1 & Hpn1 & Ho1 & Hs1).
    rewrite <-range_cons in Hn1 by lia.
    split; [done|]. split; [|done]. rewrite Hv1. do 2 f_equal.
    unfold range. rewrite length_seqZ. lia.
  - cbn. rewrite <-app_assoc, Z.add_0_r. done.
  - intros seen y rest g1 Hxs (Hn1 & Hv1 & Hpn1 & Ho1 & Hs1).
    apply range_split in Hxs as (-> & -> & Hy).
    do 3 wp_step.
    eapply wp_of_run; [apply param_value_run, Hhist; lia|].
    do 3 wp_step. cbn. rewrite Hn1.
    split; [|split; [|done]].
    + rewrite (fmap_app _ (range (pyear + 1) y)), <-!app_assoc. done.
    + do 2 f_equal. rewrite length_app. unfold range.
      rewrite length_seqZ. cbn. lia.
Qed.

Lemma project_wp f d g :
  (pyear ≤ byear)%Z →
  well_formed syear pyear byear p →
  (∀ y, (byear < y < fyear)%Z → is_Some (d !! y)) →
  wp (project syear pyear byear fyear pdata f d pname)
    (λ _ g',
       f_new g' = f_new g
                  ++ new_block syear pyear byear fyear p f (factor_of d) pname
       ∧ f_old g' = f_old g ∧ f_stdout g' = f_stdout g)
    (λ _ _, False) g.
Proof.
  intros Hwindow (_ & Hhist & Hgr) Hd. unfold project.
  do 3 wp_step.
  eapply wp_mono with (E := λ _ _, False); [| |
    by apply recorded_years_wp]; [|done].
  intros _ g1 (Hn1 & _ & Hpn1 & Ho1 & Hs1). cbn in Hn1, Hpn1, Ho1, Hs1.
  wp_step. eapply wp_of_run; [apply param_value_run, Hhist; lia|].
  wp_step.
  eapply wp_mono with (E := λ _ _, False); [| |
    apply intermediate_years_wp; [done|done|]]; [|done|].
  2:{ intros dir i Hrd Hi. apply (Hgr dir); auto. }
  intros _ g2 (Hn2 & Hpn2 & Ho2 & Hs2).
  wp_step. eapply wp_of_run; [apply param_value_run, Hhist; lia|].
  eapply wp_mono with (E := λ _ _, False); [| |
    apply final_year_wp; [done|]]; [|done|].
  2:{ intros dir i Hrd Hi. apply (Hgr dir); auto. }
  intros _ g3 (Hn3 & Hpn3 & Ho3 & Hs3).
  split; [|split; congruence].
  rewrite Hn3, Hn2, Hn1. unfold new_block.
  by rewrite <-!app_assoc.
Qed.

End Projection.

(** ** The whole run on valid inputs *)

Section Run.
Local Open Scope Qc_scope.
Import PyNum.

Variables (syear byear : Z).
Variable pdata : gmap string param.
Variable irate : list Qc.
Hypothesis Hwindow : (2017 < byear < 2026)%Z.
Hypothesis Hvalid : valid_inputs syear 2017 byear 2026 pdata irate.

Lemma new_block_ext pyear fyear p f (F G : Z → Qc) pname :
  (∀ y, (byear < y < fyear)%Z → F y = G y) →
  new_block syear pyear byear fyear p f F pname
  = new_block syear pyear byear fyear p f G pname.
Proof.
  intros HFG. unfold new_block. do 3 f_equal.
  apply list_fmap_ext. intros i y Hy%list_elem_of_lookup_2%elem_of_range.
  rewrite HFG; [done|lia].
Qed.

Lemma main_wp :
  wp (main syear 2017 byear 2026 pdata irate)
    (λ _ g', f_stdout g' = [length (filter (reverts 2026 pdata) (sorted_keys pdata))]
             ∧ f_old g' = old_dump syear 2017 2026 pdata
                         (filter (reverts 2026 pdata) (sorted_keys pdata))
             ∧ f_new g' = new_dump syear 2017 byear 2026 pdata irate
                         (filter (reverts 2026 pdata) (sorted_keys pdata)))
    (λ _ _, False) fresh.
Proof.
  destruct Hvalid as (Hwf & Hfull & Hrates).
  unfold main.
  replace ((2017 <? byear)%Z && (byear <? 2026)%Z) with true
    by (symmetry; apply andb_true_iff; split; apply Z.ltb_lt; lia).
  cbn [Z.eqb Pos.eqb py_assert].
  do 6 wp_step. wp_step.
  eapply wp_mono; [| |apply reverting_params_wp]; [|done].
  intros ? g1 (-> & Ho1 & Hn1 & Hs1).
  do 3 wp_step.
  eapply wp_mono; [| |apply write_old_wp]; [|done| |done].
  2:{ intros pname [(p & Hp & _) _]%list_elem_of_filter. by exists p. }
  intros _ g2 (Ho2 & Hn2 & Hs2). cbn in Ho2, Hn2, Hs2.
  rewrite Ho1 in Ho2. rewrite Hn1 in Hn2. rewrite Hs1 in Hs2.
  wp_step.
  eapply wp_mono; [| |by apply final_ifactor_wp]; [|done].
  intros ? g3 (-> & Ho3 & Hn3 & Hs3).
  wp_step.
  eapply wp_mono; [| |apply ifactor_wp]; [|done|].
  2:{ intros y Hy. apply Hrates. lia. }
  intros d g4 (Hd & Ho4 & Hn4 & Hs4).
  eapply wp_mono with (E := λ _ _, False); [| |
    apply (wp_for_each
             (λ seen g',
                f_stdout g' = [length (filter (reverts 2026 pdata) (sorted_keys pdata))]
                ∧ f_old g' = old_dump syear 2017 2026 pdata
                         (filter (reverts 2026 pdata) (sorted_keys pdata))
                ∧ f_new g' = new_dump syear 2017 byear 2026 pdata irate
                               seen))];
    [done|done| |].
  { split; [by rewrite Hs4, Hs3, Hs2|].
    split; [by rewrite Ho4, Ho3, Ho2|]. by rewrite Hn4, Hn3, Hn2. }
  intros seen pname rest g5 Hxs (Hs5 & Ho5 & Hn5).
  assert (pname ∈ filter (reverts 2026 pdata) (sorted_keys pdata)) as [Hrev _]%list_elem_of_filter.
  { rewrite Hxs, elem_of_app, elem_of_cons. auto. }
  pose proof Hrev as (p & Hp & _).
  eapply wp_mono with (E := λ _ _, False); [| |
    apply (project_wp syear 2017 byear 2026 pdata pname p Hp)];
    [|done| | | |].
  - intros _ g6 (Hn6 & Ho6 & Hs6).
    split; [congruence|]. split; [congruence|].
    rewrite Hn6, Hn5. unfold new_dump.
    rewrite fmap_app, concat_app. f_equal. cbn. rewrite Hp, app_nil_r.
    apply new_block_ext. intros y Hy. unfold factor_of.
    rewrite Hd, decide_True; [done|lia].
  - by apply (Hwf pname p).
  - lia.
  - by apply (Hwf pname p).
  - intros y Hy. rewrite Hd, decide_True; [done|lia].
Qed.

End Run.

(** ** The cap on every run *)

Section Capped.
Local Open Scope Qc_scope.
Import PyNum.

Lemma scale_pure x fa g :
  wp (scale x fa) (λ _ g', g' = g) (λ _ g', g' = g) g.
Proof.
  unfold wp. destruct (scale x fa g) as [g' r] eqn:E.
  apply scale_state in E. by destruct r.
Qed.

Lemma round_down_capped pdata v fa : returns_capped (round_down pdata v fa).
Proof.
  intros g. unfold round_down. do 2 wp_step.
  destruct (g_pname g); [|done]. do 2 wp_step.
  destruct (getkey pdata s) as [p|]; [|done]. cbv zeta.
  destruct v as [x|xs].
  - wp_step. eapply wp_mono; [| |apply scale_pure]; [|done].
    intros val ? ->. do 2 wp_step.
    destruct (getitem (round_to p) 0) as [gr|]; [|done]. wp_step.
    unfold floor_to_grid. destruct (py_div val gr); [|done].
    split; [done|apply py_min_le_r].
  - do 2 wp_step. destruct (g_idx g) as [idx|]; [|done]. do 2 wp_step.
    destruct (getitem xs idx) as [x|]; [|done].
    wp_step. eapply wp_mono; [| |apply scale_pure]; [|done].
    intros val ? ->. do 2 wp_step.
    destruct (getitem (round_to p) idx) as [gr|]; [|done]. wp_step.
    unfold floor_to_grid. destruct (py_div val gr); [|done].
    split; [done|apply py_min_le_r].
Qed.

Lemma round_nearest_capped pdata v fa :
  returns_capped (round_nearest pdata v fa).
Proof.
  intros g. unfold round_nearest. do 2 wp_step.
  destruct (g_pname g); [|done]. do 2 wp_step.
  destruct (getkey pdata s) as [p|]; [|done]. cbv zeta.
  destruct v as [x|xs].
  - wp_step. eapply wp_mono; [| |apply scale_pure]; [|done].
    intros val ? ->. do 2 wp_step.
    destruct (getitem (round_to p) 0) as [gr|]; [|done]. do 2 wp_step.
    destruct (py_div val gr); [|done]. wp_step.
    split; [done|apply py_min_le_r].
  - do 2 wp_step. destruct (g_idx g) as [idx|]; [|done]. do 2 wp_step.
    destruct (getitem xs idx) as [x|]; [|done].
    wp_step. eapply wp_mono; [| |apply scale_pure]; [|done].
    intros val ? ->. do 2 wp_step.
    destruct (getitem (round_to p) idx) as [gr|]; [|done]. do 2 wp_step.
    destruct (py_div val gr); [|done]. wp_step.
    split; [done|apply py_min_le_r].
Qed.

Lemma py_min_cap_le x : py_min cap x ≤ cap.
Proof. rewrite py_min_clamp_l. apply clamp_le. Qed.

(** The rounding statement with a known direction: the target is run on a
    capped number, or an exception leaves the globals as they are. *)
Lemma dispatch_capped pdata pname p down nearest default target
    (Q : unit → globals → Prop) (E : exn → globals → Prop) g :
  pdata !! pname = Some p →
  (∀ dir, round_dir p = Some dir →
     dir = "down"%string ∨ dir = "nearest"%string) →
  returns_capped down → returns_capped nearest → returns_capped default →
  (∀ r, r ≤ cap → wp (target r) Q E g) →
  (∀ e, E e g) →
  wp (dispatch pdata pname down nearest default target) Q E g.
Proof.
  intros Hp Hdir Hdown Hnearest Hdefault Htarget HE.
  unfold dispatch. do 2 wp_step. unfold getkey. rewrite Hp. cbv beta iota.
  destruct (round_dir p) as [dir|].
  - destruct (Hdir dir eq_refl) as [->| ->].
    + rewrite bool_decide_eq_true_2 by done. wp_step.
      eapply wp_mono; [| |apply Hdown].
      * intros r ? [-> Hr]. by apply Htarget.
      * by intros e ? ->.
    + rewrite bool_decide_eq_false_2, bool_decide_eq_true_2 by done. wp_step.
      eapply wp_mono; [| |apply Hnearest].
      * intros r ? [-> Hr]. by apply Htarget.
      * by intros e ? ->.
  - wp_step. eapply wp_mono; [| |apply Hdefault].
    + intros r ? [-> Hr]. by apply Htarget.
    + by intros e ? ->.
Qed.

End Capped.

Section CappedProjection.
Local Open Scope Qc_scope.
Import PyNum.

Variables (syear pyear byear fyear : Z).
Variable pdata : gmap string param.
Variables (pname : string) (p : param).
Hypothesis Hp : pdata !! pname = Some p.
Hypothesis Hdir :
  ∀ dir, round_dir p = Some dir → dir = "down"%string ∨ dir = "nearest"%string.

Local Abbreviation capped :=
  (on_files (λ _ n, Forall (capped_line byear) n)).

Lemma capped_new_write y v g :
  capped g → ((byear < y)%Z → Forall (λ x, x ≤ cap) (numbers v)) →
  capped (new_write (Entry y v) g).1.
Proof. intros Hg Hv. apply Forall_app. split; [done|]. by constructor. Qed.

Lemma columns_capped target name down nearest (default : Z → M Qc) n g :
  assigns target name →
  returns_capped down → returns_capped nearest →
  (∀ idx, returns_capped (default idx)) →
  g_value g = Some (PyList []) →
  wp (for_each (range 0 n) (λ idx,
        set_idx idx;;
        dispatch pdata pname down nearest (default idx) target;;
        r <- read name;
        value_append r))
    (λ _ g', f_new g' = f_new g
             ∧ ∃ ys, g_value g' = Some (PyList ys) ∧ Forall (λ x, x ≤ cap) ys)
    (λ _ g', f_new g' = f_new g) g.
Proof.
  intros Htarget Hdown Hnearest Hdefault Hvalue.
  apply (wp_for_each
           (λ _ g', f_new g' = f_new g
                    ∧ ∃ ys, g_value g' = Some (PyList ys)
                            ∧ Forall (λ x, x ≤ cap) ys)).
  { split; [done|]. by exists []. }
  intros seen idx rest g1 _ (Hn1 & ys & Hv1 & Hys).
  do 3 wp_step.
  apply (dispatch_capped pdata pname p); [done..| |by intros].
  intros r Hr.
  destruct (Htarget r (set_idx idx g1).1)
    as (g2 & Hrun & Hname & _ & Hv2 & _ & _ & _ & Hn2 & _).
  cbn in Hv2, Hn2.
  eapply wp_of_run; [exact Hrun|].
  do 2 wp_step. rewrite Hname. unfold value_append. do 2 wp_step.
  rewrite Hv2, Hv1. wp_step. cbn. split; [congruence|].
  eexists. split; [done|]. apply Forall_app. split; [done|]. by constructor.
Qed.

Lemma intermediate_years_capped bvalue d g :
  capped g →
  wp (intermediate_years byear fyear pdata pname bvalue d)
    (λ _, capped) (λ _, capped) g.
Proof.
  intros Hg. unfold intermediate_years.
  apply (wp_for_each (λ _, capped)); [done|].
  intros seen y rest g1 Hxs Hg1.
  apply range_split in Hxs as (_ & _ & Hy).
  do 3 wp_step.
  destruct bvalue as [b|bs].
  - apply (dispatch_capped pdata pname p); [done|done|..].
    + apply round_down_capped.
    + apply round_nearest_capped.
    + intros g'. do 2 wp_step. destruct (getkey d y); [|done].
      wp_step. split; [done|apply py_min_cap_le].
    + intros r Hr. wp_step. do 2 wp_step. cbn [set_value fst g_value].
      wp_step. apply capped_new_write; [done|]. intros _. by constructor.
    + by intros.
  - do 2 wp_step.
    eapply wp_mono; [| |
      apply (columns_capped set_val_round g_val_round)];
      [| |apply assigns_val_round|apply round_down_capped
       |apply round_nearest_capped| |done].
    + intros u g2 (Hn2 & ys & Hv2 & Hys). cbn in Hn2.
      do 2 wp_step. rewrite Hv2. wp_step.
      apply capped_new_write; [|done]. unfold on_files. by rewrite Hn2.
    + intros e g2 Hn2. unfold on_files. by rewrite Hn2.
    + intros idx g'. do 2 wp_step. destruct (getitem bs idx); [|done].
      do 2 wp_step. destruct (getkey d y); [|done].
      wp_step. split; [done|apply py_min_cap_le].
Qed.

Lemma final_year_capped pvalue f g :
  capped g →
  wp (final_year fyear pdata pname pvalue f) (λ _, capped) (λ _, capped) g.
Proof.
  intros Hg. unfold final_year. wp_step.
  destruct pvalue as [b|bs].
  - apply (dispatch_capped pdata pname p); [done|done|..].
    + apply round_down_capped.
    + apply round_nearest_capped.
    + intros g'. wp_step. split; [done|apply py_min_cap_le].
    + intros r Hr. wp_step. do 2 wp_step. cbn [set_value fst g_value].
      wp_step. apply capped_new_write; [done|]. intros _. by constructor.
    + by intros.
  - do 2 wp_step.
    eapply wp_mono; [| |
      apply (columns_capped set_val g_val)];
      [| |apply assigns_val|apply round_down_capped
       |apply round_nearest_capped| |done].
    + intros u g2 (Hn2 & ys & Hv2 & Hys). cbn in Hn2.
      do 2 wp_step. rewrite Hv2. wp_step.
      apply capped_new_write; [|done]. unfold on_files. by rewrite Hn2.
    + intros e g2 Hn2. unfold on_files. by rewrite Hn2.
    + intros idx g'. do 2 wp_step. destruct (getitem bs idx); [|done].
      wp_step. split; [done|apply py_min_cap_le].
Qed.

Lemma capped_param_value pn y g (Q : pyval → globals → Prop) :
  capped g → (∀ v, Q v g) →
  wp (param_value syear pdata pn y) Q (λ _, capped) g.
Proof.
  intros Hg HQ. unfold param_value. do 2 wp_step.
  destruct (getkey pdata pn); [|done]. wp_step. by destruct (getitem _ _).
Qed.

Lemma recorded_years_capped g :
  (pyear ≤ byear)%Z → capped g →
  wp (recorded_years syear pyear byear pdata pname)
    (λ _, capped) (λ _, capped) g.
Proof.
  intros Hwindow Hg. unfold recorded_years. do 3 wp_step.
  assert (capped (new_write (Title pname) g).1) as Hg1.
  { apply Forall_app. split; [done|]. by constructor. }
  apply capped_param_value; [done|]. intros v. do 4 wp_step.
  apply (wp_for_each (λ _, capped)).
  { apply capped_new_write; [done|]. lia. }
  intros seen y rest g2 Hxs Hg2.
  apply range_split in Hxs as (_ & _ & Hy).
  do 3 wp_step. apply capped_param_value; [done|]. intros v'.
  do 3 wp_step. apply capped_new_write; [done|]. lia.
Qed.

Lemma project_capped f d g :
  (pyear ≤ byear)%Z → capped g →
  wp (project syear pyear byear fyear pdata f d pname)
    (λ _, capped) (λ _, capped) g.
Proof.
  intros Hwindow Hg. unfold project. do 3 wp_step.
  eapply wp_mono; [| |by apply recorded_years_capped]; [|done].
  intros u1 g1 Hg1. wp_step.
  eapply wp_mono; [| |
    apply (capped_param_value pname byear g1 (λ _ g', g' = g1))];
    [|done|done|done].
  intros bvalue ? ->. wp_step.
  eapply wp_mono; [| |by apply intermediate_years_capped]; [|done].
  intros u2 g2 Hg2. wp_step.
  eapply wp_mono; [| |
    apply (capped_param_value pname pyear g2 (λ _ g', g' = g2))];
    [|done|done|done].
  intros pvalue ? ->. by apply final_year_capped.
Qed.

End CappedProjection.

Section CappedRun.
Local Open Scope Qc_scope.
Import PyNum.

Variables (syear pyear byear fyear : Z).
Variable pdata : gmap string param.
Variable irate : list Qc.
Hypothesis Hdirs : known_directions fyear pdata.

Lemma main_capped :
  preserves (on_files (λ _ n, Forall (capped_line byear) n))
    (main syear pyear byear fyear pdata irate).
Proof.
  set (J := λ (_ n : list line), Forall (capped_line byear) n).
  assert (∀ o n l, True → J o n → J (o ++ [l]) n) as J_old by done.
  unfold main.
  do 2 (apply preserves_bind; [apply preserves_py_assert|]; intros _).
  destruct ((pyear <? byear)%Z && (byear <? fyear)%Z) eqn:Hwindow;
    cbn [py_assert]; [|intros g Hg; apply wp_bind; by apply wp_raise].
  apply andb_true_iff in Hwindow as [Hwindow%Z.ltb_lt _].
  apply preserves_bind; [apply preserves_ret|]; intros _.
  intros g Hg. apply wp_bind.
  eapply wp_mono;
    [| |apply (wp_conj _ _ _ _ _ _ (reverting_params_wp fyear pdata g)
                 (preserves_reverting_params J fyear pdata g Hg))].
  2:{ by intros e g' [[] _]. }
  intros rp g' [[-> _] Hg']. revert g' Hg'.
  change (preserves (on_files J)
            (print (length (filter (reverts fyear pdata) (sorted_keys pdata)));;
             write_old syear pyear fyear pdata
               (filter (reverts fyear pdata) (sorted_keys pdata));;
             final_ifactor <- final_ifactor syear pyear fyear irate;
             ifactor <- ifactor syear byear fyear irate;
             for_each (filter (reverts fyear pdata) (sorted_keys pdata))
               (project syear pyear byear fyear pdata final_ifactor ifactor))).
  apply preserves_bind; [apply preserves_print|intros _].
  apply preserves_bind;
    [apply preserves_write_old with (ok_old := λ _, True); [done..|]
    |intros _].
  { by apply Forall_forall. }
  apply preserves_bind; [apply preserves_final_ifactor|intros f].
  apply preserves_bind; [apply preserves_ifactor|intros d].
  apply preserves_for_each. intros pname [Hrev _]%list_elem_of_filter.
  pose proof Hrev as (p & Hp & _).
  intros g1 Hg1. apply (project_capped _ _ _ _ _ _ p); [done| |lia|done].
  intros dir Hrd. by apply (Hdirs pname p).
Qed.

End CappedRun.

(** ** The projected values *)

Section RunClaims.
Local Open Scope Qc_scope.
Import PyNum.

Lemma py_round_0_nearest x :
  ∃ n, py_round x 0 = of_Z n ∧ of_Z n - x ≤ Q2Qc (1 # 2)
       ∧ x - of_Z n ≤ Q2Qc (1 # 2).
Proof.
  exists (round_half_even (x * of_Z (10 ^ Z.of_nat 0))).
  unfold py_round. change (of_Z (10 ^ Z.of_nat 0)) with (Q2Qc 1).
  rewrite Qcmult_1_r. split; [by field|].
  unfold round_half_even, ltb.
  destruct (floor_spec x) as [Hl Hu].
  case_bool_decide as H1; [|case_bool_decide as H2].
  - split; [|by apply Qclt_le_weak].
    revert Hl. clear. generalize (of_Z (floor x)). intros f Hl.
    qc2q. lra.
  - rewrite of_Z_add, of_Z_1. split.
    + revert H2. clear. generalize (of_Z (floor x)). intros f H2.
      qc2q. lra.
    + revert Hu. clear. generalize (of_Z (floor x)). intros f Hu.
      qc2q. lra.
  - apply Qcnot_lt_le in H1, H2.
    assert (x - of_Z (floor x) = Q2Qc (1 # 2)) as Hhalf
      by by apply Qcle_antisym.
    destruct (Z.even (floor x)).
    + rewrite Hhalf. split; [|apply Qcle_refl].
      revert Hhalf. clear. generalize (of_Z (floor x)). intros f Hhalf.
      assert (this x + - this f == 1 # 2)%Q as Hh.
      { transitivity (this (x - f)); [|by rewrite Hhalf].
        unfold Qcminus, Qcplus, Qcopp. cbn [this Q2Qc].
        by rewrite !Qred_correct. }
      clear Hhalf. qc2q. lra.
    + rewrite of_Z_add, of_Z_1.
      revert Hhalf. clear. generalize (of_Z (floor x)). intros f Hhalf.
      assert (this x + - this f == 1 # 2)%Q as Hh.
      { transitivity (this (x - f)); [|by rewrite Hhalf].
        unfold Qcminus, Qcplus, Qcopp. cbn [this Q2Qc].
        by rewrite !Qred_correct. }
      clear Hhalf. split; qc2q; lra.
Qed.

Lemma main_run syear byear pdata irate :
  (2017 < byear < 2026)%Z →
  valid_inputs syear 2017 byear 2026 pdata irate →
  ∃ g', main syear 2017 byear 2026 pdata irate fresh = (g', Ok tt)
        ∧ f_new g' = new_dump syear 2017 byear 2026 pdata irate
                       (filter (reverts 2026 pdata) (sorted_keys pdata)).
Proof.
  intros Hwindow Hvalid.
  pose proof (main_wp syear byear pdata irate Hwindow Hvalid) as H.
  unfold wp in H.
  destruct (main syear 2017 byear 2026 pdata irate fresh) as [g' [[]|e]];
    [|done].
  exists g'. split; [done|]. apply H.
Qed.


Lemma valid_known_directions syear pyear byear fyear pdata irate :
  valid_inputs syear pyear byear fyear pdata irate →
  known_directions fyear pdata.
Proof.
  intros (Hwf & _ & _) pname p dir Hp Hrev Hdir.
  destruct (Hwf pname p Hp Hrev) as (Hd & _). by apply Hd.
Qed.


Lemma sample_lookup pname p :
  Sample.table !! pname = Some p → length (value p) = 14%nat.
Proof.
  unfold Sample.table. intros Hp.
  repeat (rewrite list_to_map_cons in Hp;
          apply lookup_insert_Some in Hp as [[_ <-]|[_ Hp]]; [done|]).
  by rewrite list_to_map_nil, lookup_empty in Hp.
Qed.

Lemma sample_valid :
  valid_inputs 2013 2017 2019 2026 Sample.table Sample.rates.
Proof.
  assert (∀ n, (0 < n)%Z → of_Z n ≠ 0) as Hne.
  { intros n Hn. change 0 with (of_Z 0). intros H%of_Z_inj. lia. }
  split; [|split].
  - intros pname p Hp _. split; [|split].
    + unfold Sample.table in Hp.
      repeat (rewrite list_to_map_cons in Hp;
              apply lookup_insert_Some in Hp as [[_ <-]|[_ Hp]];
              [intros dir [= <-]; auto|]).
      by rewrite list_to_map_nil, lookup_empty in Hp.
    + intros y Hy. pose proof (sample_lookup _ _ Hp) as Hlen.
      rewrite getitem_nonneg by lia.
      destruct (value p !! Z.to_nat (y - 2013)) eqn:E; [by eexists|].
      apply lookup_ge_None_1 in E. lia.
    + unfold Sample.table in Hp.
      repeat (rewrite list_to_map_cons in Hp;
              apply lookup_insert_Some in Hp as [[_ <-]|[_ Hp]];
              [intros dir i Hrd Hi; vm_compute in Hi;
               destruct i as [|[|i]];
               first [ eexists; split; [reflexivity|apply Hne; lia]
                     | discriminate Hrd | lia ]|]).
      by rewrite list_to_map_nil, lookup_empty in Hp.
  - intros pname p y _ Hp Hy. pose proof (sample_lookup _ _ Hp) as Hlen.
    rewrite getitem_nonneg by lia.
    destruct (value p !! Z.to_nat (y - 2013)) eqn:E; [by eexists|].
    apply lookup_ge_None_1 in E. lia.
  - intros y Hy. rewrite getitem_nonneg by lia.
    destruct (Sample.rates !! Z.to_nat (y - 2013)) eqn:E; [by eexists|].
    apply lookup_ge_None_1 in E. cbn in E. lia.
Qed.



End RunClaims.

(** ** A rounding direction that is neither ['down'] nor ['nearest'] *)

Section UnknownDirection.
Local Open Scope Qc_scope.

Variables (syear pyear byear fyear : Z).
Variable pdata : gmap string param.
Variables (pname : string) (p : param) (dir : string).
Hypothesis Hp : pdata !! pname = Some p.
Hypothesis Hdir : round_dir p = Some dir.
Hypothesis Hdown : dir ≠ "down"%string.
Hypothesis Hnearest : dir ≠ "nearest"%string.

Lemma intermediate_years_stale v b d g :
  g_value g = Some v →
  wp (intermediate_years byear fyear pdata pname (PyFloat b) d)
    (λ _ g',
       f_new g' = f_new g ++ ((λ y, Entry y v) <$> range (byear + 1) fyear)
       ∧ g_value g' = Some v)
    (λ _ _, False) g.
Proof.
  intros Hv. unfold intermediate_years.
  apply (wp_for_each
           (λ seen g', f_new g' = f_new g ++ ((λ y, Entry y v) <$> seen)
                       ∧ g_value g' = Some v)).
  { cbn. by rewrite app_nil_r. }
  intros seen y rest g1 _ (Hn1 & Hv1).
  do 3 wp_step. unfold dispatch. do 2 wp_step.
  unfold getkey. rewrite Hp. cbv beta iota. rewrite Hdir.
  rewrite !bool_decide_eq_false_2 by done.
  do 2 wp_step. cbn [set_year fst g_value]. rewrite Hv1. wp_step.
  cbn. split; [|done]. by rewrite Hn1, fmap_app, <-app_assoc.
Qed.

End UnknownDirection.

Section UnknownDirectionClaims.
Local Open Scope Qc_scope.

(** C10: for a parameter whose ['round_dir'] is neither ['down'] nor
    ['nearest'] and whose value for [byear] is a scalar [b], no branch
    assigns [value] in the intermediate years: after the title and the
    recorded values of [pyear .. byear], the line of every intermediate
    year carries [b], the value left over from [byear]. *)
Theorem unknown_round_dir_writes_stale_value
    syear pyear byear fyear pdata f d pname p dir b g :
  pdata !! pname = Some p →
  round_dir p = Some dir → dir ≠ "down"%string → dir ≠ "nearest"%string →
  (pyear ≤ byear)%Z →
  (∀ y, (pyear ≤ y ≤ byear)%Z → ∃ v, getitem (value p) (y - syear) = Ok v) →
  getitem (value p) (byear - syear) = Ok (PyFloat b) →
  ∃ tail,
    f_new (project syear pyear byear fyear pdata f d pname g).1
    = f_new g ++ [Title pname]
      ++ ((λ y, Entry y (history syear p y)) <$> range pyear (byear + 1))
      ++ ((λ y, Entry y (PyFloat b)) <$> range (byear + 1) fyear)
      ++ tail.
Proof.
  intros Hp Hdir Hdown Hnearest Hwindow Hhist Hb.
  set (N := f_new g ++ [Title pname]
      ++ ((λ y, Entry y (history syear p y)) <$> range pyear (byear + 1))
      ++ ((λ y, Entry y (PyFloat b)) <$> range (byear + 1) fyear)).
  set (J := λ (o n : list line), ∃ tail, n = N ++ tail).
  cut (wp (project syear pyear byear fyear pdata f d pname)
         (λ _, on_files J) (λ _, on_files J) g).
  { unfold wp. destruct (project _ _ _ _ _ _ _ _ _) as [g' r]. cbn [fst].
    intros H. assert (on_files J g') as [tail Htail] by by destruct r.
    exists tail. rewrite Htail. unfold N. by rewrite <-!app_assoc. }
  assert (history syear p byear = PyFloat b) as Hbv.
  { unfold history. by rewrite Hb. }
  unfold project. do 3 wp_step.
  eapply wp_mono; [| |by apply (recorded_years_wp syear pyear byear pdata
                                  pname p Hp)]; [|done].
  intros _ g1 (Hn1 & Hv1 & _). cbn in Hn1. rewrite Hbv in Hv1.
  wp_step. eapply wp_of_run; [by apply param_value_run; auto with lia|].
  rewrite Hbv. wp_step.
  eapply wp_mono; [| |
    by apply (intermediate_years_stale byear fyear pdata pname p dir)];
    [|done].
  intros _ g2 (Hn2 & Hv2).
  assert (on_files J g2) as HJ.
  { exists []. rewrite Hn2, Hn1, app_nil_r. unfold N.
    by rewrite <-!app_assoc. }
  revert HJ. generalize g2.
  change (preserves (on_files J)
            (pvalue <- param_value syear pdata pname pyear;
             final_year fyear pdata pname pvalue f)).
  assert (∀ (o n : list line) (l : line), True → J o n → J o (n ++ [l]))
    as J_new.
  { intros o n l _ [tail ->]. exists (tail ++ [l]). by rewrite app_assoc. }
  apply preserves_bind; [apply preserves_param_value|intros pvalue].
  by apply preserves_final_year with (ok_new := λ _, True).
Qed.

Lemma unknown_round_dir_writes_stale_value_witness :
  let b := PyNum.of_Z 1000 in
  Sample.odd_table !! "_STD"%string = Some Sample.odd
  ∧ round_dir Sample.odd = Some "up"%string
  ∧ "up"%string ≠ "down"%string ∧ "up"%string ≠ "nearest"%string
  ∧ (2017 ≤ 2019)%Z
  ∧ (∀ y, (2017 ≤ y ≤ 2019)%Z →
       ∃ v, getitem (value Sample.odd) (y - 2013) = Ok v)
  ∧ getitem (value Sample.odd) (2019 - 2013) = Ok (PyFloat b)
  ∧ ∃ tail,
      f_new (project 2013 2017 2019 2026 Sample.odd_table 1 ∅ "_STD"
               fresh).1
      = f_new fresh ++ [Title "_STD"]
        ++ ((λ y, Entry y (history 2013 Sample.odd y)) <$> range 2017 (2019 + 1))
        ++ ((λ y, Entry y (PyFloat b)) <$> range (2019 + 1) 2026)
        ++ tail.
Proof.
  assert (∀ y, (2017 ≤ y ≤ 2019)%Z →
            ∃ v, getitem (value Sample.odd) (y - 2013) = Ok v) as Hhist.
  { intros y Hy. rewrite getitem_nonneg by lia.
    destruct (value Sample.odd !! Z.to_nat (y - 2013)) eqn:E; [by eexists|].
    apply lookup_ge_None_1 in E. cbn in E. lia. }
  cbv zeta. do 2 (split; [reflexivity|]). do 2 (split; [discriminate|]).
  split; [lia|]. split; [exact Hhist|]. split; [reflexivity|].
  apply (unknown_round_dir_writes_stale_value 2013 2017 2019 2026
           Sample.odd_table 1 ∅ "_STD" Sample.odd "up" (PyNum.of_Z 1000) fresh);
    first [reflexivity | discriminate | lia | exact Hhist].
Defined.

End UnknownDirectionClaims.

(** ** Facts about the sample inputs *)

Section SampleFacts.
Local Open Scope Qc_scope.
Import PyNum.

Lemma sample_rates_covered y :
  (2013 ≤ y < 2026)%Z →
  getitem Sample.rates (y - 2013) = Ok (Q2Qc (2 # 100)).
Proof.
  intros Hy. rewrite getitem_nonneg by lia. unfold Sample.rates.
  rewrite lookup_replicate_2; [done|lia].
Qed.

Lemma sample_full_history :
  full_history 2013 2017 2026 Sample.table
    (filter (reverts 2026 Sample.table) (sorted_keys Sample.table)).
Proof. apply sample_valid. Qed.

End SampleFacts.

(** ** The dump of the recorded values *)

Section OldDump.
Variables (syear byear : Z).
Variable pdata : gmap string param.
Variable irate : list Qc.

Lemma old_dump_length (rp : list string) :
  (∀ pname, pname ∈ rp → is_Some (pdata !! pname)) →
  length (old_dump syear 2017 2026 pdata rp) = (11 * length rp)%nat.
Proof.
  unfold old_dump. induction rp as [|pname l IH]; intros Hrp; [done|].
  cbn [fmap list_fmap concat]. rewrite length_app, IH
    by (intros x Hx; apply Hrp, elem_of_cons; auto).
  destruct (Hrp pname) as [p Hp]; [apply elem_of_cons; auto|].
  unfold old_block. rewrite Hp. cbn [length].
  rewrite length_fmap. unfold range. rewrite length_seqZ. cbn [length]. lia.
Qed.

End OldDump.

Section OldDumpClaims.

(** X1: when every reverting parameter has a value for each of the years
    2017 to 2026, [ppp.old] holds the whole dump however the run ends (a
    short rate list, a granularity of zero or an unknown rounding direction
    stop the run later): for each reverting parameter, in sorted order, a
    title and the ten recorded values, eleven lines in all. *)
Theorem old_dump_complete syear byear pdata irate :
  let rp := filter (reverts 2026 pdata) (sorted_keys pdata) in
  2017 < byear < 2026 →
  full_history syear 2017 2026 pdata rp →
  f_old (main syear 2017 byear 2026 pdata irate fresh).1
  = old_dump syear 2017 2026 pdata rp
  ∧ length (old_dump syear 2017 2026 pdata rp) = (11 * length rp)%nat.
Proof.
  intros rp Hb Hfull. split.
  - set (J := λ (o n : list line), o = old_dump syear 2017 2026 pdata rp).
    cut (wp (main syear 2017 byear 2026 pdata irate)
           (λ _, on_files J) (λ _, on_files J) fresh).
    { unfold wp. destruct (main _ _ _ _ _ _ _) as [g' r]. by destruct r. }
    unfold main.
    replace ((2017 <? byear)%Z && (byear <? 2026)%Z) with true
      by (symmetry; apply andb_true_iff; split; apply Z.ltb_lt; lia).
    cbn [Z.eqb Pos.eqb py_assert].
    do 6 wp_step. wp_step.
    eapply wp_mono; [| |apply reverting_params_wp]; [|done].
    intros ? g1 (-> & Hold1 & Hnew1 & Hout1). fold rp.
    do 2 wp_step. wp_step.
    eapply wp_mono; [| |apply write_old_wp]; [|done| |done].
    2:{ intros pname [(p & Hp & _) _]%list_elem_of_filter. by exists p. }
    intros _ g2 (Hold2 & Hnew2 & Hout2).
    cbn in Hold2. rewrite Hold1 in Hold2. cbn in Hold2.
    assert (on_files J g2) as HJ by done.
    revert HJ. generalize g2.
    change (preserves (on_files J)
              (final_ifactor <- final_ifactor syear 2017 2026 irate;
               ifactor <- ifactor syear byear 2026 irate;
               for_each rp (project syear 2017 byear 2026 pdata
                              final_ifactor ifactor))).
    assert (∀ (o n : list line) (l : line), True → J o n → J o (n ++ [l]))
      as J_new by done.
    apply preserves_bind; [apply preserves_final_ifactor|intros f].
    apply preserves_bind; [apply preserves_ifactor|intros d].
    apply preserves_for_each. intros pname _.
    by apply preserves_project with (ok_new := λ _, True).
  - apply old_dump_length.
    intros pname [(p & Hp & _) _]%list_elem_of_filter. by exists p.
Qed.

Lemma old_dump_complete_witness :
  let rp := filter (reverts 2026 Sample.table) (sorted_keys Sample.table) in
  (2017 < 2019 < 2026)%Z
  ∧ full_history 2013 2017 2026 Sample.table rp
  ∧ f_old (main 2013 2017 2019 2026 Sample.table [] fresh).1
    = old_dump 2013 2017 2026 Sample.table rp
  ∧ length (old_dump 2013 2017 2026 Sample.table rp) = (11 * length rp)%nat.
Proof.
  cbv zeta. split; [lia|]. split; [exact sample_full_history|].
  apply (old_dump_complete 2013 2019 Sample.table []);
    [lia|exact sample_full_history].
Defined.
End OldDumpClaims.

(** ** A parameter with too few recorded values *)

Section Loops.

Lemma for_each_app {X} (xs ys : list X) (body : X → M unit) g :
  for_each (xs ++ ys) body g = (for_each xs body;; for_each ys body) g.
Proof.
  revert g. induction xs as [|x xs IH]; intros g; [done|].
  cbn [app for_each]. unfold bind.
  destruct (body x g) as [g' [[]|e]]; [|done]. rewrite IH. done.
Qed.

Lemma wp_for_each_app {X} (xs ys : list X) (body : X → M unit) Q E g :
  wp (for_each xs body;; for_each ys body) Q E g →
  wp (for_each (xs ++ ys) body) Q E g.
Proof. unfold wp. by rewrite for_each_app. Qed.

End Loops.

Section MissingValue.
Variable syear : Z.
Variable pdata : gmap string param.

Lemma old_entries_short pname p g :
  pdata !! pname = Some p →
  syear ≤ 2017 →
  Z.of_nat (length (value p)) < 2027 - syear →
  wp (for_each (range 2017 (2026 + 1)) (fun year =>
        set_year year;;
        v <- param_value syear pdata pname year;
        set_value v;;
        old_write (Entry year v)))
    (λ _ _, False)
    (λ e g', e = IndexError
             ∧ f_old g' = f_old g
                 ++ ((λ y, Entry y (history syear p y))
                       <$> range 2017 (syear + Z.of_nat (length (value p))))
             ∧ f_new g' = f_new g ∧ f_stdout g' = f_stdout g) g.
Proof.
  intros Hp Hs Hshort.
  set (n := Z.of_nat (length (value p))) in *.
  eapply wp_mono with
    (E := λ e g', e = IndexError
             ∧ f_old g' = f_old g
                 ++ ((λ y, Entry y (history syear p y))
                       <$> range 2017 (syear + n))
             ∧ f_new g' = f_new g ∧ f_stdout g' = f_stdout g); [|done|
    apply (wp_for_each
             (λ seen g',
                Forall (λ y, y - syear < n) seen
                ∧ f_old g' = f_old g
                    ++ ((λ y, Entry y (history syear p y)) <$> seen)
                ∧ f_new g' = f_new g ∧ f_stdout g' = f_stdout g))].
  - intros _ g' [Hall _]. rewrite Forall_forall in Hall.
    assert (2026 - syear < n); [|lia]. apply Hall, elem_of_range. lia.
  - cbn. by rewrite app_nil_r.
  - intros seen y rest g1 Hxs (Hseen & Ho & Hn & Hs1).
    apply range_split in Hxs as (-> & -> & Hy).
    do 3 wp_step. unfold param_value. do 2 wp_step.
    unfold getkey. rewrite Hp. cbv beta iota. wp_step.
    destruct (decide (y - syear < n)) as [Hlt|Hge].
    + rewrite getitem_nonneg by lia.
      destruct (lookup_lt_is_Some_2 (value p) (Z.to_nat (y - syear)))
        as [v Hv]; [lia|].
      rewrite Hv. do 3 wp_step. cbn.
      split; [|split; [|done]].
      * apply Forall_app. split; [done|]. by apply Forall_singleton.
      * rewrite Ho, fmap_app, <-app_assoc. do 2 f_equal. cbn.
        unfold history. rewrite getitem_nonneg by lia. by rewrite Hv.
    + rewrite getitem_out_of_range by lia.
      split; [done|]. split; [|done]. cbn. rewrite Ho. do 2 f_equal.
      destruct (decide (y = 2017)) as [->|Hne].
      * rewrite range_nil. unfold range. by rewrite seqZ_nil by lia.
      * rewrite Forall_forall in Hseen.
        assert (y - 1 - syear < n) by (apply Hseen, elem_of_range; lia).
        f_equal. lia.
Qed.

End MissingValue.

Section MissingValueClaims.

(** X2: when a reverting parameter has fewer values than the years up to
    2026 need, the run raises [IndexError] while it writes [ppp.old].  The
    count of the reverting parameters has been printed; [ppp.old] holds the
    whole blocks of the parameters before that one, then its title and the
    values it has from 2017 on; [ppp.new] is empty. *)
Theorem missing_value_aborts_in_old_dump
    syear byear pdata irate seen pname rest p :
  let rp := filter (reverts 2026 pdata) (sorted_keys pdata) in
  2017 < byear < 2026 →
  syear ≤ 2017 →
  rp = seen ++ pname :: rest →
  full_history syear 2017 2026 pdata seen →
  pdata !! pname = Some p →
  Z.of_nat (length (value p)) < 2027 - syear →
  ∃ g', main syear 2017 byear 2026 pdata irate fresh = (g', Raise IndexError)
        ∧ f_stdout g' = [length rp]
        ∧ f_old g' = old_dump syear 2017 2026 pdata seen
                     ++ Title pname
                        :: ((λ y, Entry y (history syear p y))
                              <$> range 2017
                                    (syear + Z.of_nat (length (value p))))
        ∧ f_new g' = [].
Proof.
  intros rp Hb Hs Hrp Hfull Hp Hshort.
  cut (wp (main syear 2017 byear 2026 pdata irate) (λ _ _, False)
         (λ e g', e = IndexError ∧ f_stdout g' = [length rp]
                  ∧ f_old g' = old_dump syear 2017 2026 pdata seen
                     ++ Title pname
                        :: ((λ y, Entry y (history syear p y))
                              <$> range 2017
                                    (syear + Z.of_nat (length (value p))))
                  ∧ f_new g' = []) fresh).
  { unfold wp. destruct (main _ _ _ _ _ _ _) as [g' [[]|e]]; [done|].
    intros [-> H]. by exists g'. }
  unfold main.
  replace ((2017 <? byear)%Z && (byear <? 2026)%Z) with true
    by (symmetry; apply andb_true_iff; split; apply Z.ltb_lt; lia).
  cbn [Z.eqb Pos.eqb py_assert].
  do 6 wp_step. wp_step.
  eapply wp_mono; [| |apply reverting_params_wp]; [|done].
  intros ? g1 (-> & Hold1 & Hnew1 & Hout1). fold rp.
  do 2 wp_step. wp_step.
  unfold write_old. rewrite Hrp. apply wp_for_each_app. wp_step.
  eapply wp_mono; [| |
    apply (write_old_wp syear 2017 2026 pdata seen)]; [|done| |done].
  2:{ intros x Hx.
      assert (x ∈ rp) as [(q & Hq & _) _]%list_elem_of_filter;
        [rewrite Hrp, elem_of_app; auto|by exists q]. }
  intros _ g2 (Hold2 & Hnew2 & Hout2).
  cbn in Hold2, Hnew2, Hout2. rewrite Hold1 in Hold2.
  rewrite Hnew1 in Hnew2. rewrite Hout1 in Hout2. cbn in Hold2.
  cbn [for_each]. do 4 wp_step. wp_step.
  eapply wp_mono; [| |by apply (old_entries_short syear pdata pname p)]; [done|].
  intros e g3 (-> & Hold3 & Hnew3 & Hout3). cbn in Hold3, Hnew3, Hout3.
  split; [done|]. rewrite Hold3, Hnew3, Hout3, Hold2, Hnew2, Hout2.
  by rewrite <-app_assoc.
Qed.

Lemma missing_value_aborts_in_old_dump_witness :
  let rp :=
    filter (reverts 2026 Edge.short_table) (sorted_keys Edge.short_table) in
  (2017 < 2019 < 2026)%Z ∧ (2013 ≤ 2017)%Z
  ∧ rp = [] ++ "_STD"%string :: []
  ∧ full_history 2013 2017 2026 Edge.short_table []
  ∧ Edge.short_table !! "_STD"%string = Some Edge.short
  ∧ (Z.of_nat (length (value Edge.short)) < 2027 - 2013)%Z
  ∧ ∃ g', main 2013 2017 2019 2026 Edge.short_table Sample.rates fresh
          = (g', Raise IndexError)
          ∧ f_stdout g' = [length rp]
          ∧ f_old g' = old_dump 2013 2017 2026 Edge.short_table []
                       ++ Title "_STD"
                          :: ((λ y, Entry y (history 2013 Edge.short y))
                                <$> range 2017
                                      (2013 + Z.of_nat
                                                (length (value Edge.short))))
          ∧ f_new g' = [].
Proof.
  assert (full_history 2013 2017 2026 Edge.short_table []) as Hfull.
  { intros pname p y Hin. by apply elem_of_nil in Hin. }
  cbv zeta. split; [lia|]. split; [lia|]. split; [reflexivity|].
  split; [exact Hfull|]. split; [reflexivity|]. split; [cbn; lia|].
  apply (missing_value_aborts_in_old_dump 2013 2019 Edge.short_table
           Sample.rates [] "_STD" [] Edge.short);
    [lia|lia|reflexivity|exact Hfull|reflexivity|cbn; lia].
Defined.

End MissingValueClaims.

(** ** The projection of one parameter on unexpected data *)

Section ProjectEdges.
Local Open Scope Qc_scope.

Variables (syear pyear byear fyear : Z).
Variable pdata : gmap string param.
Variables (pname : string) (p : param).
Hypothesis Hp : pdata !! pname = Some p.
Hypothesis Hwindow : (pyear ≤ byear)%Z.
Hypothesis Hhist :
  ∀ y, (pyear ≤ y ≤ byear)%Z → ∃ v, getitem (value p) (y - syear) = Ok v.

(** [recorded_years] assigns [year] and [value] only. *)
Lemma recorded_years_frame g0 :
  preserves (λ g', g_pname g' = g_pname g0 ∧ g_idx g' = g_idx g0
                   ∧ g_val_round g' = g_val_round g0 ∧ g_val g' = g_val g0)
    (recorded_years syear pyear byear pdata pname).
Proof.
  set (I := λ g' : globals, _).
  assert (∀ l, preserves I (new_write l)) as Hnew by by intros l g' Hg'.
  assert (∀ v, preserves I (set_value v)) as Hval by by intros l g' Hg'.
  assert (∀ y, preserves I (set_year y)) as Hyear by by intros l g' Hg'.
  unfold recorded_years, param_value.
  repeat lazymatch goal with
    | |- preserves _ (bind _ _) => apply preserves_bind; [|intros ?]
    | |- preserves _ (for_each _ _) => apply preserves_for_each; intros ? ?
    | |- preserves _ (lift _) => apply preserves_lift
    | |- preserves _ (new_write _) => apply Hnew
    | |- preserves _ (set_value _) => apply Hval
    | |- preserves _ (set_year _) => apply Hyear
    end.
Qed.

(** The recorded part of [project], with the globals it leaves. *)
Lemma project_recorded (k : M unit) Q E g :
  (∀ g1,
     f_new g1 = f_new g ++ [Title pname]
                ++ ((λ y, Entry y (history syear p y))
                      <$> range pyear (byear + 1)) →
     g_value g1 = Some (history syear p byear) →
     g_pname g1 = Some pname →
     g_val_round g1 = g_val_round g → g_val g1 = g_val g →
     f_old g1 = f_old g → f_stdout g1 = f_stdout g →
     wp k Q E g1) →
  wp (set_pname pname;; recorded_years syear pyear byear pdata pname;; k)
    Q E g.
Proof.
  intros Hk. do 3 wp_step.
  eapply wp_mono; [| |
    apply (wp_conj _ _ _ _ _ _
             (recorded_years_wp syear pyear byear pdata pname p Hp _
                Hwindow Hhist)
             (recorded_years_frame (set_pname pname g).1 _
                (conj eq_refl (conj eq_refl (conj eq_refl eq_refl)))))].
  - intros _ g1 ((Hn1 & Hv1 & Hpn1 & Ho1 & Hs1) & (_ & _ & Hvr & Hvl)).
    by apply Hk.
  - by intros e g1 [[] _].
Qed.

Section Unknown.
Variable dir : string.
Hypothesis Hdir : round_dir p = Some dir.
Hypothesis Hdown : dir ≠ "down"%string.
Hypothesis Hnearest : dir ≠ "nearest"%string.

Lemma dispatch_unknown down nearest default target Q E g :
  Q tt g → wp (dispatch pdata pname down nearest default target) Q E g.
Proof.
  intros HQ. unfold dispatch. do 2 wp_step.
  unfold getkey. rewrite Hp. cbv beta iota. rewrite Hdir.
  rewrite !bool_decide_eq_false_2 by done. by wp_step.
Qed.

Lemma final_year_stale v q f g :
  g_value g = Some v →
  wp (final_year fyear pdata pname (PyFloat q) f)
    (λ _ g', f_new g' = f_new g ++ [Entry fyear v]
             ∧ f_old g' = f_old g ∧ f_stdout g' = f_stdout g)
    (λ _ _, False) g.
Proof.
  intros Hv. unfold final_year. wp_step.
  apply dispatch_unknown. wp_step. wp_step. rewrite Hv. by wp_step.
Qed.

Lemma intermediate_years_leftover bs r d g :
  g_val_round g = Some r →
  wp (intermediate_years byear fyear pdata pname (PyList bs) d)
    (λ _ g',
       f_new g' = f_new g
                  ++ ((λ y, Entry y (PyList (replicate (length bs) r)))
                        <$> range (byear + 1) fyear)
       ∧ g_val_round g' = Some r
       ∧ f_old g' = f_old g ∧ f_stdout g' = f_stdout g)
    (λ _ _, False) g.
Proof.
  intros Hr. unfold intermediate_years.
  apply (wp_for_each
           (λ seen g',
              f_new g' = f_new g
                         ++ ((λ y, Entry y (PyList (replicate (length bs) r)))
                               <$> seen)
              ∧ g_val_round g' = Some r
              ∧ f_old g' = f_old g ∧ f_stdout g' = f_stdout g)).
  { cbn. by rewrite app_nil_r. }
  intros seen y rest g1 _ (Hn1 & Hr1 & Ho1 & Hs1).
  do 3 wp_step. cbv beta iota. do 2 wp_step.
  eapply wp_mono with (E := λ _ _, False); [| |
    apply (wp_for_each
             (λ cols g',
                g_value g' = Some (PyList (replicate (length cols) r))
                ∧ g_val_round g' = Some r
                ∧ f_new g' = f_new g1
                ∧ f_old g' = f_old g ∧ f_stdout g' = f_stdout g))];
    [|done| |].
  - intros _ g2 (Hv2 & Hr2 & Hn2 & Ho2 & Hs2).
    do 2 wp_step. rewrite Hv2. wp_step. cbn.
    rewrite Hn2, Hn1, fmap_app, <-app_assoc. cbn.
    unfold range. rewrite length_seqZ, Z.sub_0_r, Nat2Z.id. done.
  - done.
  - intros cols idx later g2 _ (Hv2 & Hr2 & Hn2 & Ho2 & Hs2).
    do 3 wp_step. apply dispatch_unknown.
    do 2 wp_step. cbn [set_idx fst g_val_round]. rewrite Hr2.
    unfold value_append. do 2 wp_step. cbn [set_idx fst g_value].
    rewrite Hv2. wp_step. cbn.
    rewrite length_app. cbn [length].
    by rewrite Nat.add_1_r, replicate_S_end.
Qed.

Lemma intermediate_years_unbound b bs d g :
  (byear + 1 < fyear)%Z →
  g_val_round g = None →
  wp (intermediate_years byear fyear pdata pname (PyList (b :: bs)) d)
    (λ _ _, False)
    (λ e g', e = NameError ∧ f_new g' = f_new g
             ∧ f_old g' = f_old g ∧ f_stdout g' = f_stdout g) g.
Proof.
  intros Hyears Hr. unfold intermediate_years.
  rewrite range_cons by done. cbn [for_each].
  do 4 wp_step. cbv beta iota. do 2 wp_step.
  cbn [length]. rewrite Nat2Z.inj_succ, range_cons by lia. cbn [for_each].
  do 3 wp_step. wp_step. apply dispatch_unknown.
  do 2 wp_step. cbn. by rewrite Hr.
Qed.

End Unknown.
End ProjectEdges.

Section ProjectEdgeClaims.
Local Open Scope Qc_scope.
Import PyNum.

(** X3: for a parameter whose ['round_dir'] is neither ['down'] nor
    ['nearest'] and whose values for [pyear] and [byear] are scalars,
    [project] returns without an exception whatever the factors and the
    granularities are, and its block is the title, the recorded values of
    [pyear .. byear], and the value [b] of [byear] for every intermediate
    year and for [fyear] too. *)
Theorem unknown_round_dir_block
    syear pyear byear fyear pdata f d pname p dir b q g :
  pdata !! pname = Some p →
  round_dir p = Some dir → dir ≠ "down"%string → dir ≠ "nearest"%string →
  (pyear ≤ byear)%Z →
  (∀ y, (pyear ≤ y ≤ byear)%Z → ∃ v, getitem (value p) (y - syear) = Ok v) →
  getitem (value p) (byear - syear) = Ok (PyFloat b) →
  getitem (value p) (pyear - syear) = Ok (PyFloat q) →
  ∃ g', project syear pyear byear fyear pdata f d pname g = (g', Ok tt)
        ∧ f_new g'
          = f_new g ++ [Title pname]
            ++ ((λ y, Entry y (history syear p y)) <$> range pyear (byear + 1))
            ++ ((λ y, Entry y (PyFloat b)) <$> range (byear + 1) fyear)
            ++ [Entry fyear (PyFloat b)].
Proof.
  intros Hp Hdir Hdown Hnearest Hwindow Hhist Hb Hq.
  cut (wp (project syear pyear byear fyear pdata f d pname)
         (λ _ g', f_new g'
          = f_new g ++ [Title pname]
            ++ ((λ y, Entry y (history syear p y)) <$> range pyear (byear + 1))
            ++ ((λ y, Entry y (PyFloat b)) <$> range (byear + 1) fyear)
            ++ [Entry fyear (PyFloat b)])
         (λ _ _, False) g).
  { unfold wp. destruct (project _ _ _ _ _ _ _ _ _) as [g' [[]|e]]; [|done].
    intros H. by exists g'. }
  assert (history syear p byear = PyFloat b) as Hbv.
  { unfold history. by rewrite Hb. }
  assert (history syear p pyear = PyFloat q) as Hqv.
  { unfold history. by rewrite Hq. }
  unfold project.
  apply (project_recorded syear pyear byear pdata pname p Hp Hwindow Hhist).
  intros g1 Hn1 Hv1 Hpn1 _ _ _ _. rewrite Hbv in Hv1.
  wp_step. eapply wp_of_run; [by apply param_value_run; auto with lia|].
  rewrite Hbv. wp_step.
  eapply wp_mono; [| |
    by apply (intermediate_years_stale byear fyear pdata pname p dir)];
    [|done].
  intros _ g2 (Hn2 & Hv2).
  wp_step. eapply wp_of_run; [by apply param_value_run; auto with lia|].
  rewrite Hqv.
  eapply wp_mono; [| |
    by apply (final_year_stale fyear pdata pname p Hp dir)]; [|done].
  intros _ g3 (Hn3 & _). rewrite Hn3, Hn2, Hn1. by rewrite <-!app_assoc.
Qed.

Lemma unknown_round_dir_block_witness :
  let b := of_Z 1000 in
  Sample.odd_table !! "_STD"%string = Some Sample.odd
  ∧ round_dir Sample.odd = Some "up"%string
  ∧ "up"%string ≠ "down"%string ∧ "up"%string ≠ "nearest"%string
  ∧ (2017 ≤ 2019)%Z
  ∧ (∀ y, (2017 ≤ y ≤ 2019)%Z →
       ∃ v, getitem (value Sample.odd) (y - 2013) = Ok v)
  ∧ getitem (value Sample.odd) (2019 - 2013) = Ok (PyFloat b)
  ∧ getitem (value Sample.odd) (2017 - 2013) = Ok (PyFloat b)
  ∧ ∃ g', project 2013 2017 2019 2026 Sample.odd_table 1 ∅ "_STD" fresh
          = (g', Ok tt)
          ∧ f_new g'
            = f_new fresh ++ [Title "_STD"]
              ++ ((λ y, Entry y (history 2013 Sample.odd y))
                    <$> range 2017 (2019 + 1))
              ++ ((λ y, Entry y (PyFloat b)) <$> range (2019 + 1) 2026)
              ++ [Entry 2026 (PyFloat b)].
Proof.
  assert (∀ y, (2017 ≤ y ≤ 2019)%Z →
            ∃ v, getitem (value Sample.odd) (y - 2013) = Ok v) as Hhist.
  { intros y Hy. rewrite getitem_nonneg by lia.
    destruct (value Sample.odd !! Z.to_nat (y - 2013)) eqn:E; [by eexists|].
    apply lookup_ge_None_1 in E. cbn in E. lia. }
  cbv zeta. do 2 (split; [reflexivity|]). do 2 (split; [discriminate|]).
  split; [lia|]. split; [exact Hhist|]. do 2 (split; [reflexivity|]).
  apply (unknown_round_dir_block 2013 2017 2019 2026 Sample.odd_table 1 ∅
           "_STD" Sample.odd "up" (of_Z 1000) (of_Z 1000) fresh);
    first [reflexivity | discriminate | lia | exact Hhist].
Defined.

(** X4: for a parameter whose ['round_dir'] is neither ['down'] nor
    ['nearest'] and whose value for [byear] is a list with at least one
    column, the intermediate years read the global [val_round] that no
    branch has assigned.  When it was never assigned, [project] raises
    [NameError] after the recorded lines; when it holds a number [r] left
    by an earlier parameter, the line of every intermediate year is a list
    of [r], one per column. *)
Theorem unknown_round_dir_list_value
    syear pyear byear fyear pdata f d pname p dir b bs g :
  pdata !! pname = Some p →
  round_dir p = Some dir → dir ≠ "down"%string → dir ≠ "nearest"%string →
  (pyear ≤ byear)%Z → (byear + 1 < fyear)%Z →
  (∀ y, (pyear ≤ y ≤ byear)%Z → ∃ v, getitem (value p) (y - syear) = Ok v) →
  getitem (value p) (byear - syear) = Ok (PyList (b :: bs)) →
  let recorded :=
    [Title pname]
    ++ ((λ y, Entry y (history syear p y)) <$> range pyear (byear + 1)) in
  (g_val_round g = None →
   ∃ g', project syear pyear byear fyear pdata f d pname g
         = (g', Raise NameError)
         ∧ f_new g' = f_new g ++ recorded)
  ∧ (∀ r, g_val_round g = Some r →
       ∃ tail,
         f_new (project syear pyear byear fyear pdata f d pname g).1
         = f_new g ++ recorded
           ++ ((λ y, Entry y (PyList (replicate (S (length bs)) r)))
                 <$> range (byear + 1) fyear)
           ++ tail).
Proof.
  intros Hp Hdir Hdown Hnearest Hwindow Hyears Hhist Hb recorded.
  assert (history syear p byear = PyList (b :: bs)) as Hbv.
  { unfold history. by rewrite Hb. }
  split.
  - intros Hr.
    cut (wp (project syear pyear byear fyear pdata f d pname)
           (λ _ _, False)
           (λ e g', e = NameError ∧ f_new g' = f_new g ++ recorded) g).
    { unfold wp. destruct (project _ _ _ _ _ _ _ _ _) as [g' [[]|e]]; [done|].
      intros [-> H]. by exists g'. }
    unfold project.
    apply (project_recorded syear pyear byear pdata pname p Hp Hwindow Hhist).
    intros g1 Hn1 Hv1 Hpn1 Hvr1 _ _ _.
    wp_step. eapply wp_of_run; [by apply param_value_run; auto with lia|].
    rewrite Hbv. wp_step.
    eapply wp_mono; [| |
      apply (intermediate_years_unbound byear fyear pdata pname p Hp dir
               Hdir Hdown Hnearest b bs d g1 Hyears)]; [done| |congruence].
    intros e g2 (-> & Hn2 & _). split; [done|]. by rewrite Hn2, Hn1.
  - intros r Hr.
    set (N := f_new g ++ recorded
        ++ ((λ y, Entry y (PyList (replicate (S (length bs)) r)))
              <$> range (byear + 1) fyear)).
    set (J := λ (o n : list line), ∃ tail, n = N ++ tail).
    cut (wp (project syear pyear byear fyear pdata f d pname)
           (λ _, on_files J) (λ _, on_files J) g).
    { unfold wp. destruct (project _ _ _ _ _ _ _ _ _) as [g' r']. cbn [fst].
      intros H. assert (on_files J g') as [tail Htail] by by destruct r'.
      exists tail. rewrite Htail. unfold N. by rewrite <-!app_assoc. }
    unfold project.
    apply (project_recorded syear pyear byear pdata pname p Hp Hwindow Hhist).
    intros g1 Hn1 Hv1 Hpn1 Hvr1 _ _ _.
    wp_step. eapply wp_of_run; [by apply param_value_run; auto with lia|].
    rewrite Hbv. wp_step.
    eapply wp_mono; [| |
      apply (intermediate_years_leftover byear fyear pdata pname p Hp dir
               Hdir Hdown Hnearest (b :: bs) r d g1)]; [|done|congruence].
    intros _ g2 (Hn2 & _).
    assert (on_files J g2) as HJ.
    { exists []. rewrite Hn2, Hn1, app_nil_r. unfold N.
      by rewrite <-!app_assoc. }
    revert HJ. generalize g2.
    change (preserves (on_files J)
              (pvalue <- param_value syear pdata pname pyear;
               final_year fyear pdata pname pvalue f)).
    assert (∀ (o n : list line) (l : line), True → J o n → J o (n ++ [l]))
      as J_new.
    { intros o n l _ [tail ->]. exists (tail ++ [l]). by rewrite app_assoc. }
    apply preserves_bind; [apply preserves_param_value|intros pvalue].
    by apply preserves_final_year with (ok_new := λ _, True).
Qed.

Lemma unknown_round_dir_list_value_witness :
  let recorded :=
    [Title "_STD"]
    ++ ((λ y, Entry y (history 2013 Edge.odd_list y))
          <$> range 2017 (2019 + 1)) in
  Edge.odd_list_table !! "_STD"%string = Some Edge.odd_list
  ∧ round_dir Edge.odd_list = Some "up"%string
  ∧ "up"%string ≠ "down"%string ∧ "up"%string ≠ "nearest"%string
  ∧ (2017 ≤ 2019)%Z ∧ (2019 + 1 < 2026)%Z
  ∧ (∀ y, (2017 ≤ y ≤ 2019)%Z →
       ∃ v, getitem (value Edge.odd_list) (y - 2013) = Ok v)
  ∧ getitem (value Edge.odd_list) (2019 - 2013)
    = Ok (PyList [of_Z 1000; of_Z 2000])
  ∧ (g_val_round fresh = None →
     ∃ g', project 2013 2017 2019 2026 Edge.odd_list_table 1 ∅ "_STD" fresh
           = (g', Raise NameError)
           ∧ f_new g' = f_new fresh ++ recorded)
  ∧ (∀ r, g_val_round fresh = Some r →
       ∃ tail,
         f_new (project 2013 2017 2019 2026 Edge.odd_list_table 1 ∅ "_STD"
                  fresh).1
         = f_new fresh ++ recorded
           ++ ((λ y, Entry y (PyList (replicate 2 r)))
                 <$> range (2019 + 1) 2026)
           ++ tail).
Proof.
  assert (∀ y, (2017 ≤ y ≤ 2019)%Z →
            ∃ v, getitem (value Edge.odd_list) (y - 2013) = Ok v) as Hhist.
  { intros y Hy. rewrite getitem_nonneg by lia.
    destruct (value Edge.odd_list !! Z.to_nat (y - 2013)) eqn:E;
      [by eexists|].
    apply lookup_ge_None_1 in E. cbn in E. lia. }
  cbv zeta. do 2 (split; [reflexivity|]). do 2 (split; [discriminate|]).
  do 2 (split; [lia|]). split; [exact Hhist|]. split; [reflexivity|].
  apply (unknown_round_dir_list_value 2013 2017 2019 2026 Edge.odd_list_table
           1 ∅ "_STD" Edge.odd_list "up" (of_Z 1000) [of_Z 2000] fresh);
    first [reflexivity | discriminate | lia | exact Hhist].
Defined.

End ProjectEdgeClaims.

(** ** A granularity of zero *)

Section ZeroGranularity.
Local Open Scope Qc_scope.

Variable pdata : gmap string param.
Variables (pname : string) (p : param) (g : globals).
Variables (y : Z) (d : gmap Z Qc) (fac b : Qc) (gs : list Qc).
Hypothesis Hpname : g_pname g = Some pname.
Hypothesis Hp : pdata !! pname = Some p.
Hypothesis Hyear : g_year g = Some y.
Hypothesis Hfac : d !! y = Some fac.
Hypothesis Hzero : round_to p = 0 :: gs.

Lemma round_down_zero :
  round_down pdata (PyFloat b) (FDict d) g = (g, Raise ZeroDivisionError).
Proof.
  unfold round_down, scale, bind, read, lift, getkey, ret.
  rewrite Hpname. cbv beta iota. rewrite Hp. cbv beta iota.
  rewrite Hyear. cbv beta iota. rewrite Hfac. cbv beta iota.
  by rewrite Hzero.
Qed.

Lemma round_nearest_zero :
  round_nearest pdata (PyFloat b) (FDict d) g = (g, Raise ZeroDivisionError).
Proof.
  unfold round_nearest, scale, bind, read, lift, getkey, ret.
  rewrite Hpname. cbv beta iota. rewrite Hp. cbv beta iota.
  rewrite Hyear. cbv beta iota. rewrite Hfac. cbv beta iota.
  by rewrite Hzero.
Qed.

End ZeroGranularity.

Section ZeroGranularityClaims.
Local Open Scope Qc_scope.
Import PyNum.

(** X5: a granularity of zero stops the projection of a scalar parameter
    rounded ['down'] or ['nearest'] at the first intermediate year:
    [project] raises [ZeroDivisionError], and the block written so far is
    the title and the recorded values of [pyear .. byear]. *)
Theorem zero_granularity_aborts
    syear pyear byear fyear pdata f d pname p dir b fac gs g :
  pdata !! pname = Some p →
  round_dir p = Some dir → dir = "down"%string ∨ dir = "nearest"%string →
  (pyear ≤ byear)%Z → (byear + 1 < fyear)%Z →
  (∀ y, (pyear ≤ y ≤ byear)%Z → ∃ v, getitem (value p) (y - syear) = Ok v) →
  getitem (value p) (byear - syear) = Ok (PyFloat b) →
  d !! (byear + 1)%Z = Some fac →
  round_to p = 0 :: gs →
  ∃ g', project syear pyear byear fyear pdata f d pname g
        = (g', Raise ZeroDivisionError)
        ∧ f_new g'
          = f_new g ++ [Title pname]
            ++ ((λ y, Entry y (history syear p y))
                  <$> range pyear (byear + 1)).
Proof.
  intros Hp Hdir Hknown Hwindow Hyears Hhist Hb Hfac Hzero.
  cut (wp (project syear pyear byear fyear pdata f d pname)
         (λ _ _, False)
         (λ e g', e = ZeroDivisionError
                  ∧ f_new g'
                    = f_new g ++ [Title pname]
                      ++ ((λ y, Entry y (history syear p y))
                            <$> range pyear (byear + 1))) g).
  { unfold wp. destruct (project _ _ _ _ _ _ _ _ _) as [g' [[]|e]]; [done|].
    intros [-> H]. by exists g'. }
  assert (history syear p byear = PyFloat b) as Hbv.
  { unfold history. by rewrite Hb. }
  unfold project.
  apply (project_recorded syear pyear byear pdata pname p Hp Hwindow Hhist).
  intros g1 Hn1 Hv1 Hpn1 _ _ _ _.
  wp_step. eapply wp_of_run; [by apply param_value_run; auto with lia|].
  rewrite Hbv. wp_step.
  unfold intermediate_years. rewrite range_cons by done. cbn [for_each].
  do 4 wp_step. cbv beta iota.
  unfold dispatch. do 2 wp_step. unfold getkey. rewrite Hp. cbv beta iota.
  rewrite Hdir. destruct Hknown as [-> | ->].
  - rewrite bool_decide_eq_true_2 by done. wp_step.
    unfold wp.
    rewrite (round_down_zero pdata pname p _ (byear + 1) d fac b gs);
      [|done..]. cbv beta iota. split; [done|exact Hn1].
  - rewrite bool_decide_eq_false_2, bool_decide_eq_true_2 by done. wp_step.
    unfold wp.
    rewrite (round_nearest_zero pdata pname p _ (byear + 1) d fac b gs);
      [|done..]. cbv beta iota. split; [done|exact Hn1].
Qed.

Lemma zero_granularity_aborts_witness :
  Edge.zero_table !! "_STD"%string = Some Edge.zero_grid
  ∧ round_dir Edge.zero_grid = Some "down"%string
  ∧ ("down"%string = "down"%string ∨ "down"%string = "nearest"%string)
  ∧ (2017 ≤ 2019)%Z ∧ (2019 + 1 < 2026)%Z
  ∧ (∀ y, (2017 ≤ y ≤ 2019)%Z →
       ∃ v, getitem (value Edge.zero_grid) (y - 2013) = Ok v)
  ∧ getitem (value Edge.zero_grid) (2019 - 2013) = Ok (PyFloat (of_Z 1000))
  ∧ Edge.factors !! (2019 + 1)%Z = Some 1
  ∧ round_to Edge.zero_grid = 0 :: []
  ∧ ∃ g', project 2013 2017 2019 2026 Edge.zero_table 1 Edge.factors "_STD"
            fresh
          = (g', Raise ZeroDivisionError)
          ∧ f_new g'
            = f_new fresh ++ [Title "_STD"]
              ++ ((λ y, Entry y (history 2013 Edge.zero_grid y))
                    <$> range 2017 (2019 + 1)).
Proof.
  assert (∀ y, (2017 ≤ y ≤ 2019)%Z →
            ∃ v, getitem (value Edge.zero_grid) (y - 2013) = Ok v) as Hhist.
  { intros y Hy. rewrite getitem_nonneg by lia.
    destruct (value Edge.zero_grid !! Z.to_nat (y - 2013)) eqn:E;
      [by eexists|].
    apply lookup_ge_None_1 in E. cbn in E. lia. }
  do 2 (split; [reflexivity|]). split; [by left|]. do 2 (split; [lia|]).
  split; [exact Hhist|]. do 3 (split; [reflexivity|]).
  apply (zero_granularity_aborts 2013 2017 2019 2026 Edge.zero_table 1
           Edge.factors "_STD" Edge.zero_grid "down" (of_Z 1000) 1 [] fresh);
    first [reflexivity | by left | lia | exact Hhist].
Defined.

End ZeroGranularityClaims.

(** ** The factors as products of the rates *)

Section Compound.
Local Open Scope Qc_scope.
Variables (syear : Z) (irate : list Qc).

Lemma product_app l k : product (l ++ k) = product l * product k.
Proof.
  unfold product. induction l as [|x l IH]; cbn.
  - by rewrite Qcmult_1_l.
  - rewrite IH. ring.
Qed.

Lemma range_app lo mid hi :
  (lo ≤ mid ≤ hi)%Z → range lo hi = range lo mid ++ range mid hi.
Proof.
  intros H. unfold range.
  replace (hi - lo)%Z with ((mid - lo) + (hi - mid))%Z by lia.
  rewrite seqZ_app by lia. do 2 f_equal. lia.
Qed.

Lemma compound_split lo mid hi :
  (lo ≤ mid ≤ hi)%Z →
  compound syear irate lo hi
  = compound syear irate lo mid * compound syear irate mid hi.
Proof.
  intros H. unfold compound.
  by rewrite (range_app lo mid hi), fmap_app, product_app.
Qed.

(** With rates that are not negative a compounded factor is at least 1. *)
Lemma compound_ge_1 lo hi :
  (∀ y, (lo ≤ y < hi)%Z → 0 ≤ rate syear irate y) →
  1 ≤ compound syear irate lo hi.
Proof.
  intros Hpos.
  destruct (decide (lo ≤ hi)%Z) as [Hle|Hgt].
  2:{ unfold compound, range. rewrite seqZ_nil by lia. apply Qcle_refl. }
  revert Hpos. pattern hi. revert hi Hle.
  apply (Zlt_lower_bound_ind _ lo). intros hi IH Hle Hpos.
  destruct (decide (hi = lo)) as [->|Hne].
  { rewrite compound_nil. apply Qcle_refl. }
  replace hi with (hi - 1 + 1)%Z by lia.
  rewrite compound_snoc by lia.
  assert (1 ≤ compound syear irate lo (hi - 1)) as H1.
  { apply IH; [lia|]. intros y Hy. apply Hpos. lia. }
  assert (0 ≤ rate syear irate (hi - 1)) as H2 by (apply Hpos; lia).
  revert H1 H2. generalize (compound syear irate lo (hi - 1)).
  generalize (rate syear irate (hi - 1)). intros r c H1 H2.
  qc2q. nra.
Qed.

End Compound.

Section FactorChainClaims.
Local Open Scope Qc_scope.



(** X7: when no rate of the window is negative, every factor of the
    dictionary is at least 1, the factors do not decrease from one year to
    a later one, and none exceeds [final_ifactor]. *)
Theorem factors_grow_with_nonnegative_rates syear pyear byear fyear irate g :
  (pyear ≤ byear < fyear)%Z →
  (∀ y, (pyear ≤ y < fyear)%Z →
     ∃ r, getitem irate (y - syear) = Ok r ∧ 0 ≤ r) →
  ∃ g1 f g2 d,
    final_ifactor syear pyear fyear irate g = (g1, Ok f)
    ∧ ifactor syear byear fyear irate g1 = (g2, Ok d)
    ∧ (∀ y y', (byear ≤ y)%Z → (y ≤ y')%Z → (y' < fyear)%Z →
         1 ≤ factor_of d y ∧ factor_of d y ≤ factor_of d y'
         ∧ factor_of d y' ≤ f).
Proof.
  intros Hwindow Hrates.
  assert (∀ y, (pyear ≤ y < fyear)%Z → ∃ r, getitem irate (y - syear) = Ok r)
    as Hcovered.
  { intros y Hy. destruct (Hrates y Hy) as (r & Hr & _). by exists r. }
  assert (∀ lo hi, (pyear ≤ lo)%Z → (hi ≤ fyear)%Z →
            1 ≤ compound syear irate lo hi) as Hge.
  { intros lo hi Hlo Hhi. apply compound_ge_1. intros y Hy.
    destruct (Hrates y) as (r & Hr & Hpos); [lia|].
    by rewrite (rate_covered _ _ _ _ Hr). }
  pose proof (final_ifactor_wp syear irate pyear fyear Hcovered g) as Hf.
  unfold wp in Hf.
  destruct (final_ifactor syear pyear fyear irate g) as [g1 [f|e]]; [|done].
  destruct Hf as [-> _].
  assert (∀ y, (byear ≤ y < fyear)%Z → ∃ r, getitem irate (y - syear) = Ok r)
    as Hcovered' by (intros y Hy; apply Hcovered; lia).
  pose proof (ifactor_wp syear irate byear fyear Hcovered' g1) as Hd.
  unfold wp in Hd.
  destruct (ifactor syear byear fyear irate g1) as [g2 [d|e]] eqn:Hrun;
    [|done].
  destruct Hd as [Hd _].
  exists g1, (compound syear irate pyear fyear), g2, d.
  split; [reflexivity|]. split; [exact Hrun|].
  intros y y' Hy Hyy' Hy'. unfold factor_of.
  rewrite !Hd, !decide_True by lia.
  split; [apply Hge; lia|]. split.
  - rewrite (compound_split _ _ byear y y') by lia.
    assert (1 ≤ compound syear irate byear y) as H1 by (apply Hge; lia).
    assert (1 ≤ compound syear irate y y') as H2 by (apply Hge; lia).
    revert H1 H2. generalize (compound syear irate byear y).
    generalize (compound syear irate y y'). intros a c H1 H2.
    qc2q. nra.
  - rewrite (compound_split _ _ pyear byear fyear) by lia.
    rewrite (compound_split _ _ byear y' fyear) by lia.
    assert (1 ≤ compound syear irate pyear byear) as H1 by (apply Hge; lia).
    assert (1 ≤ compound syear irate byear y') as H2 by (apply Hge; lia).
    assert (1 ≤ compound syear irate y' fyear) as H3 by (apply Hge; lia).
    revert H1 H2 H3. generalize (compound syear irate pyear byear).
    generalize (compound syear irate byear y').
    generalize (compound syear irate y' fyear). intros a c e H1 H2 H3.
    assert (c ≤ c * a) as Hca by (qc2q; nra).
    assert (c * a ≤ e * (c * a)) as Heca.
    { assert (1 ≤ c * a) as Hm by (qc2q; nra).
      revert Hm. generalize (c * a). intros m Hm. qc2q. nra. }
    by etrans.
Qed.

Lemma factors_grow_with_nonnegative_rates_witness :
  (2017 ≤ 2019 < 2026)%Z
  ∧ (∀ y, (2017 ≤ y < 2026)%Z →
       ∃ r, getitem Sample.rates (y - 2013) = Ok r ∧ 0 ≤ r)
  ∧ ∃ g1 f g2 d,
      final_ifactor 2013 2017 2026 Sample.rates fresh = (g1, Ok f)
      ∧ ifactor 2013 2019 2026 Sample.rates g1 = (g2, Ok d)
      ∧ (∀ y y', (2019 ≤ y)%Z → (y ≤ y')%Z → (y' < 2026)%Z →
           1 ≤ factor_of d y ∧ factor_of d y ≤ factor_of d y'
           ∧ factor_of d y' ≤ f).
Proof.
  assert (∀ y, (2017 ≤ y < 2026)%Z →
            ∃ r, getitem Sample.rates (y - 2013) = Ok r ∧ 0 ≤ r) as Hrates.
  { intros y Hy. eexists. split; [apply sample_rates_covered; lia|done]. }
  split; [lia|]. split; [exact Hrates|].
  apply (factors_grow_with_nonnegative_rates 2013 2017 2019 2026
           Sample.rates fresh); [lia|exact Hrates].
Defined.

End FactorChainClaims.

(** ** The rounding functions on the grid *)

Section Grid.
Local Open Scope Qc_scope.
Import PyNum.

Lemma half_eq : Q2Qc (1 # 2) = 1 / of_Z 2.
Proof. by apply Qc_is_canon. Qed.

Lemma two_ne : of_Z 2 ≠ 0.
Proof. change 0 with (of_Z 0). intros H%of_Z_inj. lia. Qed.

Lemma floor_mono x y : x ≤ y → (floor x ≤ floor y)%Z.
Proof.
  intros Hxy. destruct (floor_spec x) as [Hx _].
  destruct (floor_spec y) as [_ Hy].
  assert (of_Z (floor x) < of_Z (floor y + 1)) as H%of_Z_lt; [|lia].
  rewrite of_Z_add, of_Z_1.
  eapply Qcle_lt_trans; [|exact Hy]. by etrans.
Qed.

Lemma ceil_unique x k : of_Z k - 1 < x → x ≤ of_Z k → ceil x = k.
Proof.
  intros Hl Hu. destruct (ceil_spec x) as [Hl' Hu'].
  assert (of_Z (k + -1) < of_Z (ceil x)) as H1%of_Z_lt.
  { rewrite of_Z_add. eapply Qclt_le_trans; [|exact Hu'].
    replace (of_Z (-1)) with (- (1)) by by apply Qc_is_canon. exact Hl. }
  assert (of_Z (ceil x + -1) < of_Z k) as H2%of_Z_lt.
  { rewrite of_Z_add. eapply Qclt_le_trans; [|exact Hu].
    replace (of_Z (-1)) with (- (1)) by by apply Qc_is_canon. exact Hl'. }
  lia.
Qed.

Lemma clamp_mono x y : x ≤ y → clamp x ≤ clamp y.
Proof.
  intros Hxy. unfold clamp. repeat case_decide.
  - done.
  - done.
  - exfalso. apply H. by etrans.
  - apply Qcle_refl.
Qed.

Lemma clamp_id x : x ≤ cap → clamp x = x.
Proof. intros H. unfold clamp. by rewrite decide_True. Qed.

Lemma clamp_le_self x : clamp x ≤ x.
Proof.
  unfold clamp. case_decide; [apply Qcle_refl|].
  apply Qclt_le_weak. by apply Qcnot_le_lt.
Qed.

Section Positive.
Variable g : Qc.
Hypothesis Hpos : 0 < g.

Lemma grid_ne : g ≠ 0.
Proof. intros H. rewrite H in Hpos. by apply Qclt_not_eq in Hpos. Qed.

Lemma grid_quotient x : x = x / g * g.
Proof. field. apply grid_ne. Qed.

Lemma grid_le_iff a b : a * g ≤ b * g ↔ a ≤ b.
Proof.
  revert Hpos. clear. intros Hpos. split; intros H.
  - destruct (Qclt_le_dec b a) as [Hlt|Hle]; [|done].
    exfalso. apply (Qclt_not_le _ _ (Qcmult_lt_compat_r _ _ g Hpos Hlt)).
    done.
  - apply Qcmult_le_compat_r; [done|]. by apply Qclt_le_weak.
Qed.

Lemma grid_lt_iff a b : a * g < b * g ↔ a < b.
Proof.
  split; intros H.
  - apply Qcnot_le_lt. intros Hle. apply (Qclt_not_le _ _ H).
    exact (proj2 (grid_le_iff _ _) Hle).
  - apply Qcnot_le_lt. intros Hle. apply (Qclt_not_le _ _ H).
    exact (proj1 (grid_le_iff _ _) Hle).
Qed.

Lemma grid_floor_le x : grid_floor x g ≤ x.
Proof.
  unfold grid_floor. destruct (floor_spec (x / g)) as [Hf _].
  rewrite (grid_quotient x) at 2. exact (proj2 (grid_le_iff _ _) Hf).
Qed.

Lemma grid_floor_gt x : x - g < grid_floor x g.
Proof.
  unfold grid_floor. destruct (floor_spec (x / g)) as [_ Hf].
  replace (x - g) with ((x / g - 1) * g) by (field; apply grid_ne).
  apply (proj2 (grid_lt_iff _ _)).
  revert Hf. generalize (of_Z (floor (x / g))) (x / g). clear.
  intros k u Hf. qc2q. lra.
Qed.

Lemma grid_floor_greatest x k :
  of_Z k * g ≤ x → of_Z k * g ≤ grid_floor x g.
Proof.
  intros Hk. unfold grid_floor.
  apply (proj2 (grid_le_iff _ _)), (proj1 (of_Z_le _ _)).
  rewrite <-(floor_of_Z k) at 1. apply floor_mono.
  rewrite (grid_quotient x) in Hk. exact (proj1 (grid_le_iff _ _) Hk).
Qed.

Lemma grid_floor_mono x y : x ≤ y → grid_floor x g ≤ grid_floor y g.
Proof.
  intros Hxy. unfold grid_floor at 1. apply grid_floor_greatest.
  etrans; [apply grid_floor_le|done].
Qed.

(** [round_nearest] is the rounding to the grid with a tie going up. *)
Lemma grid_nearest_half_up x :
  grid_nearest x g = grid_floor (x + g / of_Z 2) g.
Proof.
  unfold grid_nearest, grid_floor, py_mod. cbv zeta.
  replace ((x + g / of_Z 2) / g) with (x / g + Q2Qc (1 # 2))
    by (rewrite half_eq; field; split; first [apply grid_ne|apply two_ne]).
  replace (g / of_Z 2) with (Q2Qc (1 # 2) * g)
    by (rewrite half_eq; field; apply two_ne).
  replace (x - of_Z (floor (x / g)) * g)
    with ((x / g - of_Z (floor (x / g))) * g) by (field; apply grid_ne).
  set (u := x / g). destruct (floor_spec u) as [Hl Hu].
  replace 0 with (0 * g) by ring.
  case_decide as Hm.
  - destruct Hm as [Hm1 Hm2].
    apply (proj1 (grid_lt_iff _ _)) in Hm1, Hm2.
    assert (ceil u = (floor u + 1)%Z) as ->.
    { apply ceil_unique; rewrite of_Z_add, of_Z_1.
      - revert Hm1. generalize (of_Z (floor u)). clear. intros k H.
        qc2q. lra.
      - apply Qclt_le_weak. done. }
    assert (floor (u + Q2Qc (1 # 2)) = floor u) as ->.
    { apply floor_unique.
      - revert Hl. generalize (of_Z (floor u)). clear. intros k H.
        qc2q. lra.
      - revert Hm2. generalize (of_Z (floor u)). clear. intros k H.
        qc2q. lra. }
    rewrite of_Z_add, of_Z_1. ring.
  - destruct (decide (u = of_Z (floor u))) as [Heq|Hne].
    + assert (ceil u = floor u) as ->.
      { rewrite Heq at 1. apply ceil_of_Z. }
      f_equal. f_equal. symmetry. apply floor_unique.
      * revert Hl. generalize (of_Z (floor u)). clear. intros k H.
        qc2q. lra.
      * rewrite Heq at 1. qc2q. lra.
    + assert (of_Z (floor u) < u) as Hlt.
      { destruct (Qclt_le_dec (of_Z (floor u)) u) as [?|Hle]; [done|].
        exfalso. apply Hne. by apply Qcle_antisym. }
      assert (Q2Qc (1 # 2) ≤ u - of_Z (floor u)) as Hhalf.
      { destruct (Qclt_le_dec (u - of_Z (floor u)) (Q2Qc (1 # 2)))
          as [Hlow|?]; [|done].
        exfalso. apply Hm. split; apply (proj2 (grid_lt_iff _ _)); [|done].
        revert Hlt. generalize (of_Z (floor u)). clear. intros k H.
        qc2q. lra. }
      assert (ceil u = (floor u + 1)%Z) as ->.
      { apply ceil_unique; rewrite of_Z_add, of_Z_1.
        - revert Hlt. generalize (of_Z (floor u)). clear. intros k H.
          qc2q. lra.
        - apply Qclt_le_weak. done. }
      f_equal. f_equal. symmetry. apply floor_unique.
      * rewrite of_Z_add, of_Z_1.
        revert Hhalf. generalize (of_Z (floor u)). clear. intros k H.
        qc2q. lra.
      * rewrite of_Z_add, of_Z_1.
        revert Hu. generalize (of_Z (floor u)). clear. intros k H.
        qc2q. lra.
Qed.

Lemma grid_nearest_mono x y : x ≤ y → grid_nearest x g ≤ grid_nearest y g.
Proof.
  intros Hxy. rewrite !grid_nearest_half_up. apply grid_floor_mono.
  revert Hxy. generalize (g / of_Z 2). clear. intros h H. qc2q. lra.
Qed.

Lemma grid_floor_le_nearest x : grid_floor x g ≤ grid_nearest x g.
Proof.
  rewrite grid_nearest_half_up. apply grid_floor_mono.
  assert (0 ≤ g / of_Z 2) as H.
  { replace (g / of_Z 2) with (Q2Qc (1 # 2) * g)
      by (rewrite half_eq; field; apply two_ne).
    rewrite <-(Qcmult_0_l g). by apply (proj2 (grid_le_iff _ _)). }
  revert H. generalize (g / of_Z 2). clear. intros h H. qc2q. lra.
Qed.

End Positive.
End Grid.

Section GridClaims.
Local Open Scope Qc_scope.
Import PyNum.

Variable pdata : gmap string param.
Variables (pname : string) (p : param) (st : globals) (g : Qc).
Hypothesis Hpname : g_pname st = Some pname.
Hypothesis Hp : pdata !! pname = Some p.
Hypothesis Hg : getitem (round_to p) 0 = Ok g.
Hypothesis Hpos : 0 < g.

Lemma round_down_grid v f :
  round_down pdata (PyFloat v) (FFloat f) st
  = (st, Ok (clamp (grid_floor (v * f) g))).
Proof.
  rewrite (round_down_scalar _ _ _ _ Hpname Hp _ _ _ Hg (grid_ne g Hpos)).
  by rewrite py_min_clamp_r.
Qed.

Lemma round_nearest_grid v f :
  round_nearest pdata (PyFloat v) (FFloat f) st
  = (st, Ok (clamp (grid_nearest (v * f) g))).
Proof.
  rewrite (round_nearest_scalar _ _ _ _ Hpname Hp _ _ _ Hg (grid_ne g Hpos)).
  rewrite py_min_clamp_r, in_lower_half_decide.
  unfold grid_nearest. cbv zeta.
  destruct (decide _);
    [by rewrite bool_decide_eq_true_2 by done
    |by rewrite bool_decide_eq_false_2 by done].
Qed.

End GridClaims.

Section GridTheorems.
Local Open Scope Qc_scope.
Import PyNum.







End GridTheorems.

Section PureClaims.
Local Open Scope Qc_scope.
Import PyNum.

(** X11: on every input, [round_down] and [round_nearest] leave the
    globals and the files as they are, whether they return or raise, and a
    number they return is at most [9e99]. *)
Theorem rounding_functions_are_pure pdata v fa g :
  match round_down pdata v fa g, round_nearest pdata v fa g with
  | (g1, r1), (g2, r2) =>
      g1 = g ∧ g2 = g
      ∧ match r1 with Ok x => x ≤ cap | Raise _ => True end
      ∧ match r2 with Ok x => x ≤ cap | Raise _ => True end
  end.
Proof.
  pose proof (round_down_capped pdata v fa g) as H1.
  pose proof (round_nearest_capped pdata v fa g) as H2.
  unfold wp in H1, H2.
  destruct (round_down pdata v fa g) as [g1 [x1|e1]];
    destruct (round_nearest pdata v fa g) as [g2 [x2|e2]];
    intuition.
Qed.

End PureClaims.

(** ** The exceptions of the script *)

Section DataErrors.
Local Open Scope Qc_scope.
Import PyNum.

Lemma getitem_raises {A} (l : list A) i e :
  getitem l i = Raise e → e = IndexError.
Proof.
  unfold getitem. cbv zeta. destruct (_ || _); [by intros [= <-]|].
  destruct (_ !! _); [done|by intros [= <-]].
Qed.

Lemma raises_getitem {A} (l : list A) i (Q : A → globals → Prop) g :
  (∀ a, getitem l i = Ok a → Q a g) → raises_data (lift (getitem l i)) Q g.
Proof.
  intros HQ. apply wp_lift. destruct (getitem l i) as [a|e] eqn:E; [auto|].
  left. by eapply getitem_raises.
Qed.

Lemma scale_raises x fa g :
  factor_ready fa g → raises_data (scale x fa) (λ _ g', g' = g) g.
Proof.
  intros Hfa. unfold raises_data, scale. destruct fa as [d|f]; [|by wp_step].
  destruct Hfa as (y & Hy & [r Hr]).
  do 2 wp_step. rewrite Hy. do 2 wp_step. unfold getkey. rewrite Hr.
  by wp_step.
Qed.

Section Param.
Variable pdata : gmap string param.
Variables (pname : string) (p : param).
Hypothesis Hp : pdata !! pname = Some p.

Lemma round_down_raises v fa g :
  g_pname g = Some pname → factor_ready fa g →
  raises_data (round_down pdata v fa) (λ _ g', g' = g) g.
Proof.
  intros Hpname Hfa. unfold raises_data, round_down.
  do 2 wp_step. rewrite Hpname. do 2 wp_step.
  unfold getkey. rewrite Hp. cbv beta iota zeta.
  destruct v as [x|xs].
  - wp_step. eapply wp_mono; [| |by apply scale_raises]; [|done].
    intros val ? ->. wp_step. apply raises_getitem. intros gr _.
    wp_step. unfold floor_to_grid, py_div. case_bool_decide; [|done].
    by right; right.
  - do 2 wp_step. destruct (g_idx g) as [idx|]; [|by right; left].
    wp_step. apply raises_getitem. intros x _.
    wp_step. eapply wp_mono; [| |by apply scale_raises]; [|done].
    intros val ? ->. wp_step. apply raises_getitem. intros gr _.
    wp_step. unfold floor_to_grid, py_div. case_bool_decide; [|done].
    by right; right.
Qed.

Lemma round_nearest_raises v fa g :
  g_pname g = Some pname → factor_ready fa g →
  raises_data (round_nearest pdata v fa) (λ _ g', g' = g) g.
Proof.
  intros Hpname Hfa. unfold raises_data, round_nearest.
  do 2 wp_step. rewrite Hpname. do 2 wp_step.
  unfold getkey. rewrite Hp. cbv beta iota zeta.
  destruct v as [x|xs].
  - wp_step. eapply wp_mono; [| |by apply scale_raises]; [|done].
    intros val ? ->. wp_step. apply raises_getitem. intros gr _.
    do 2 wp_step. unfold py_div. case_bool_decide; [by right; right|].
    by wp_step.
  - do 2 wp_step. destruct (g_idx g) as [idx|]; [|by right; left].
    wp_step. apply raises_getitem. intros x _.
    wp_step. eapply wp_mono; [| |by apply scale_raises]; [|done].
    intros val ? ->. wp_step. apply raises_getitem. intros gr _.
    do 2 wp_step. unfold py_div. case_bool_decide; [by right; right|].
    by wp_step.
Qed.

Lemma dispatch_raises down nearest default target
    (Q : unit → globals → Prop) g :
  raises_data down (λ _ g', g' = g) g →
  raises_data nearest (λ _ g', g' = g) g →
  raises_data default (λ _ g', g' = g) g →
  (∀ r, raises_data (target r) Q g) → Q tt g →
  raises_data (dispatch pdata pname down nearest default target) Q g.
Proof.
  intros Hdown Hnearest Hdefault Htarget HQ. unfold raises_data, dispatch.
  do 2 wp_step. unfold getkey. rewrite Hp. cbv beta iota.
  destruct (round_dir p) as [dir|].
  - case_bool_decide; [|case_bool_decide]; [| |by wp_step].
    + wp_step. eapply wp_mono; [| |apply Hdown]; [|done].
      intros r ? ->. apply Htarget.
    + wp_step. eapply wp_mono; [| |apply Hnearest]; [|done].
      intros r ? ->. apply Htarget.
  - wp_step. eapply wp_mono; [| |apply Hdefault]; [|done].
    intros r ? ->. apply Htarget.
Qed.

(** The loop over the columns: [value] stays a list, so that
    [value.append] has its method. *)
Lemma columns_raises target name v fa (default : Z → M Qc) n g :
  assigns target name →
  g_pname g = Some pname → factor_ready fa g →
  g_value g = Some (PyList []) →
  (∀ idx g', g_year g' = g_year g →
     raises_data (default idx) (λ _ g'', g'' = g') g') →
  raises_data
    (for_each (range 0 n) (λ idx,
       set_idx idx;;
       dispatch pdata pname (round_down pdata v fa)
         (round_nearest pdata v fa) (default idx) target;;
       r <- read name;
       value_append r))
    (λ _ g', g_pname g' = Some pname ∧ is_Some (g_value g')) g.
Proof.
  intros Htarget Hpname Hfa Hvalue Hdefault. unfold raises_data.
  eapply wp_mono with (E := λ e _, data_error e); [| |
    apply (wp_for_each
             (λ _ g', g_pname g' = Some pname ∧ g_year g' = g_year g
                      ∧ ∃ ys, g_value g' = Some (PyList ys)))].
  - intros _ g' (? & _ & ys & Hys). split; [done|]. by rewrite Hys.
  - done.
  - split; [done|]. split; [done|]. by exists [].
  - intros seen idx rest g1 _ (Hpn1 & Hy1 & ys & Hv1).
    assert (factor_ready fa (set_idx idx g1).1) as Hfa1.
    { destruct fa; [|done]. cbn in Hfa |- *. by rewrite Hy1. }
    do 3 wp_step.
    apply dispatch_raises.
    + by apply round_down_raises.
    + by apply round_nearest_raises.
    + by apply Hdefault.
    + intros r.
      destruct (Htarget r (set_idx idx g1).1)
        as (g2 & Hrun & Hname & _ & Hv2 & Hpn2 & Hy2 & _).
      cbn in Hv2, Hpn2, Hy2.
      unfold raises_data. eapply wp_of_run; [exact Hrun|].
      do 2 wp_step. rewrite Hname. unfold value_append. do 2 wp_step.
      rewrite Hv2, Hv1. wp_step. cbn.
      split; [congruence|]. split; [congruence|]. by eexists.
    + unfold raises_data. do 2 wp_step. cbn [set_idx fst].
      destruct (name _) as [r|]; [|by right; left].
      unfold value_append. do 2 wp_step. cbn [g_value]. rewrite Hv1.
      wp_step. cbn. split; [done|]. split; [done|]. by eexists.
Qed.

Variables (syear pyear byear fyear : Z).

Lemma param_value_raises y (Q : pyval → globals → Prop) g :
  (∀ v, Q v g) → raises_data (param_value syear pdata pname y) Q g.
Proof.
  intros HQ. unfold raises_data, param_value. do 2 wp_step.
  unfold getkey. rewrite Hp. cbv beta iota. apply raises_getitem. auto.
Qed.

Lemma recorded_years_raises g :
  raises_data (recorded_years syear pyear byear pdata pname)
    (λ _ g', g_pname g' = g_pname g ∧ is_Some (g_value g')) g.
Proof.
  unfold raises_data, recorded_years. do 3 wp_step.
  apply param_value_raises. intros v. do 4 wp_step.
  apply (wp_for_each (λ _ g', g_pname g' = g_pname g ∧ is_Some (g_value g'))).
  { by split. }
  intros seen y rest g1 _ [Hpn1 _]. do 3 wp_step.
  apply param_value_raises. intros v'. do 3 wp_step. by split.
Qed.

Lemma intermediate_years_raises bvalue d g :
  g_pname g = Some pname → is_Some (g_value g) →
  (∀ y, (byear < y < fyear)%Z → is_Some (d !! y)) →
  raises_data (intermediate_years byear fyear pdata pname bvalue d)
    (λ _ g', g_pname g' = Some pname ∧ is_Some (g_value g')) g.
Proof.
  intros Hpname Hvalue Hd. unfold raises_data, intermediate_years.
  apply (wp_for_each
           (λ _ g', g_pname g' = Some pname ∧ is_Some (g_value g')));
    [done|].
  intros seen y rest g1 Hxs [Hpn1 [v1 Hv1]].
  apply range_split in Hxs as (_ & _ & Hy).
  destruct (Hd y) as [f Hf]; [lia|].
  do 3 wp_step.
  assert (∀ g', g_year g' = Some y → factor_ready (FDict d) g') as Hfa.
  { intros g' Hy'. exists y. by rewrite Hf. }
  destruct bvalue as [b|bs].
  - apply dispatch_raises.
    + by apply round_down_raises; [|apply Hfa].
    + by apply round_nearest_raises; [|apply Hfa].
    + unfold raises_data. do 2 wp_step. unfold getkey. rewrite Hf.
      by wp_step.
    + intros r. unfold raises_data. wp_step. do 2 wp_step.
      cbn [set_value fst g_value].
      wp_step. cbn. split; [done|by eexists].
    + unfold raises_data. do 2 wp_step. cbn [set_year fst g_value].
      rewrite Hv1. wp_step.
      cbn. split; [done|by eexists].
  - do 2 wp_step.
    eapply wp_mono; [| |
      apply (columns_raises set_val_round g_val_round)];
      [| |apply assigns_val_round|done|by apply Hfa|done|].
    + intros u g2 [Hpn2 [v2 Hv2]]. do 2 wp_step. rewrite Hv2. wp_step.
      cbn. split; [done|]. by rewrite Hv2.
    + done.
    + intros idx g' Hy'. unfold raises_data. wp_step.
      apply raises_getitem. intros x _. unfold raises_data.
      do 2 wp_step. unfold getkey. rewrite Hf. by wp_step.
Qed.

Lemma final_year_raises pvalue f g :
  g_pname g = Some pname → is_Some (g_value g) →
  raises_data (final_year fyear pdata pname pvalue f) (λ _ _, True) g.
Proof.
  intros Hpname [v0 Hv0]. unfold raises_data, final_year. wp_step.
  destruct pvalue as [b|bs].
  - apply dispatch_raises.
    + by apply round_down_raises.
    + by apply round_nearest_raises.
    + unfold raises_data. by wp_step.
    + intros r. unfold raises_data. wp_step. do 2 wp_step.
      cbn [set_value fst g_value].
      by wp_step.
    + unfold raises_data. do 2 wp_step. rewrite Hv0. by wp_step.
  - do 2 wp_step.
    eapply wp_mono; [| |
      apply (columns_raises set_val g_val)];
      [| |apply assigns_val|done|done|done|].
    + intros u g2 [Hpn2 [v2 Hv2]]. do 2 wp_step. rewrite Hv2. by wp_step.
    + done.
    + intros idx g' Hy'. unfold raises_data. wp_step.
      apply raises_getitem. intros x _. unfold raises_data.
      by wp_step.
Qed.

Lemma project_raises f d g :
  (∀ y, (byear < y < fyear)%Z → is_Some (d !! y)) →
  raises_data (project syear pyear byear fyear pdata f d pname)
    (λ _ _, True) g.
Proof.
  intros Hd. unfold raises_data, project. do 3 wp_step.
  eapply wp_mono; [| |apply recorded_years_raises]; [|done].
  intros u g1 [Hpn1 Hv1]. cbn in Hpn1. wp_step.
  eapply wp_mono; [| |
    apply (param_value_raises byear (λ _ g', g' = g1))]; [|done|done].
  intros bvalue ? ->. wp_step.
  eapply wp_mono; [| |by apply intermediate_years_raises]; [|done].
  intros u2 g2 [Hpn2 Hv2]. wp_step.
  eapply wp_mono; [| |
    apply (param_value_raises pyear (λ _ g', g' = g2))]; [|done|done].
  intros pvalue ? ->. by apply final_year_raises.
Qed.

End Param.

Section ScriptErrors.
Variables (syear pyear byear fyear : Z).
Variable pdata : gmap string param.
Variable irate : list Qc.

Lemma write_old_raises rp g :
  (∀ pname, pname ∈ rp → is_Some (pdata !! pname)) →
  raises_data (write_old syear pyear fyear pdata rp) (λ _ _, True) g.
Proof.
  intros Hrp. unfold raises_data, write_old.
  apply (wp_for_each (λ _ _, True)); [done|].
  intros seen pname rest g1 Hxs _.
  destruct (Hrp pname) as [p Hp]; [rewrite Hxs, elem_of_app, elem_of_cons; auto|].
  do 4 wp_step. apply (wp_for_each (λ _ _, True)); [done|].
  intros years y later g2 _ _. do 3 wp_step.
  apply (param_value_raises pdata pname p Hp). intros v. by do 3 wp_step.
Qed.

Lemma final_ifactor_raises g :
  raises_data (final_ifactor syear pyear fyear irate) (λ _ _, True) g.
Proof.
  unfold raises_data, final_ifactor.
  apply (wp_for_fold (λ _ _ _, True)); [done|].
  intros seen y rest f g1 _ _. do 3 wp_step.
  apply raises_getitem. intros r _. by wp_step.
Qed.

Lemma ifactor_raises g :
  raises_data (ifactor syear byear fyear irate)
    (λ d _, ∀ y, (byear ≤ y < fyear)%Z → is_Some (d !! y)) g.
Proof.
  unfold raises_data, ifactor. wp_step.
  eapply wp_mono with (E := λ e _, data_error e); [| |
    apply (wp_for_fold
             (λ seen '(d, _) _, ∀ y, y ∈ seen → is_Some (d !! y)))].
  - intros [d f] g' Hd. wp_step. intros y Hy. by apply Hd, elem_of_range.
  - done.
  - intros y Hy. by apply elem_of_nil in Hy.
  - intros seen y rest [d f] g1 _ Hd. do 3 wp_step.
    apply raises_getitem. intros r _. wp_step.
    intros z [Hz| ->%list_elem_of_singleton]%elem_of_app.
    + destruct (decide (z = y)) as [->|Hne].
      * rewrite lookup_insert_eq. by eexists.
      * rewrite lookup_insert_ne by done. by apply Hd.
    + rewrite lookup_insert_eq. by eexists.
Qed.

End ScriptErrors.
End DataErrors.

Section DataErrorClaims.


End DataErrorClaims.

(** ** The two output files side by side *)

Section Agreement.
Variables (syear byear : Z).
Variable pdata : gmap string param.
Variable irate : list Qc.
Hypothesis Hwindow : 2017 < byear < 2026.

Lemma blocks_agree pname p f F :
  Forall2 (agrees_until byear)
    (Title pname
     :: ((λ y, Entry y (history syear p y)) <$> range 2017 (2026 + 1)))
    (new_block syear 2017 byear 2026 p f F pname).
Proof.
  unfold new_block. constructor; [done|].
  rewrite (range_app 2017 (byear + 1) (2026 + 1)) by lia.
  rewrite (range_snoc (byear + 1) 2026) by lia.
  rewrite !fmap_app. apply Forall2_app; [|apply Forall2_app].
  - apply Forall2_fmap, Forall_Forall2_diag, Forall_forall.
    intros y Hy. by split.
  - apply Forall2_fmap, Forall_Forall2_diag, Forall_forall.
    intros y Hy%elem_of_range. split; [done|]. lia.
  - constructor; [|constructor]. split; [done|]. lia.
Qed.

Lemma dumps_agree rp :
  (∀ pname, pname ∈ rp → is_Some (pdata !! pname)) →
  Forall2 (agrees_until byear)
    (old_dump syear 2017 2026 pdata rp)
    (new_dump syear 2017 byear 2026 pdata irate rp).
Proof.
  unfold old_dump, new_dump.
  induction rp as [|pname rp IH]; intros Hrp; [constructor|].
  cbn [fmap list_fmap concat]. apply Forall2_app.
  - destruct (Hrp pname) as [p Hp]; [apply elem_of_cons; auto|].
    unfold old_block. rewrite Hp. apply blocks_agree.
  - apply IH. intros x Hx. apply Hrp, elem_of_cons. auto.
Qed.

End Agreement.

Section AgreementClaims.

(** X13: on valid inputs [ppp.new] has the lines of [ppp.old]: the same
    titles and the same years in the same order, and the same value on
    every line for a year up to [byear].  The count printed is the number
    of the reverting parameters, and each file has eleven lines for each
    of them. *)
Theorem new_agrees_with_old_until_byear syear byear pdata irate :
  let n := length (filter (reverts 2026 pdata) (sorted_keys pdata)) in
  2017 < byear < 2026 →
  valid_inputs syear 2017 byear 2026 pdata irate →
  ∃ g', main syear 2017 byear 2026 pdata irate fresh = (g', Ok tt)
        ∧ Forall2 (agrees_until byear) (f_old g') (f_new g')
        ∧ f_stdout g' = [n]
        ∧ length (f_old g') = (11 * n)%nat
        ∧ length (f_new g') = (11 * n)%nat.
Proof.
  intros n Hwindow Hvalid.
  pose proof (main_wp syear byear pdata irate Hwindow Hvalid) as H.
  unfold wp in H.
  destruct (main syear 2017 byear 2026 pdata irate fresh) as [g' [[]|e]];
    [|done].
  destruct H as (Hs & Ho & Hn). exists g'. split; [done|].
  assert (∀ pname,
            pname ∈ filter (reverts 2026 pdata) (sorted_keys pdata) →
            is_Some (pdata !! pname)) as Hrp.
  { intros pname [(p & Hp & _) _]%list_elem_of_filter. by exists p. }
  assert (Forall2 (agrees_until byear) (f_old g') (f_new g')) as Hagree.
  { rewrite Ho, Hn. by apply dumps_agree. }
  split; [done|]. split; [done|].
  assert (length (f_old g') = (11 * n)%nat) as Hlen.
  { rewrite Ho. by apply old_dump_length. }
  split; [done|]. by rewrite <-(Forall2_length _ _ _ Hagree).
Qed.

Lemma new_agrees_with_old_until_byear_witness :
  let n :=
    length (filter (reverts 2026 Sample.table) (sorted_keys Sample.table)) in
  (2017 < 2019 < 2026)%Z
  ∧ valid_inputs 2013 2017 2019 2026 Sample.table Sample.rates
  ∧ ∃ g', main 2013 2017 2019 2026 Sample.table Sample.rates fresh
          = (g', Ok tt)
          ∧ Forall2 (agrees_until 2019) (f_old g') (f_new g')
          ∧ f_stdout g' = [n]
          ∧ length (f_old g') = (11 * n)%nat
          ∧ length (f_new g') = (11 * n)%nat.
Proof.
  cbv zeta. split; [lia|]. split; [exact sample_valid|].
  apply (new_agrees_with_old_until_byear 2013 2019 Sample.table Sample.rates);
    [lia|exact sample_valid].
Defined.

End AgreementClaims.

(** ** The intermediate years *)

Section DecimalRounding.
Local Open Scope Qc_scope.
Import PyNum.

Lemma round_half_even_nearest y :
  of_Z (round_half_even y) - y ≤ Q2Qc (1 # 2)
  ∧ y - of_Z (round_half_even y) ≤ Q2Qc (1 # 2).
Proof.
  destruct (py_round_0_nearest y) as (n & Hn & H).
  unfold py_round in Hn. change (of_Z (10 ^ Z.of_nat 0)) with (Q2Qc 1) in Hn.
  rewrite Qcmult_1_r in Hn.
  replace (of_Z (round_half_even y) / Q2Qc 1)
    with (of_Z (round_half_even y)) in Hn by by field.
  by rewrite Hn.
Qed.

(** [round(x, nd)] is within half a unit of the last decimal of [x]. *)
Lemma py_round_nearest x nd :
  let s := of_Z (10 ^ Z.of_nat nd) in
  (py_round x nd - x) * s ≤ Q2Qc (1 # 2)
  ∧ (x - py_round x nd) * s ≤ Q2Qc (1 # 2).
Proof.
  cbv zeta. unfold py_round. cbv zeta.
  assert (0 < of_Z (10 ^ Z.of_nat nd)) as Hs.
  { change 0 with (of_Z 0). apply (proj1 (of_Z_lt _ _)).
    apply Z.pow_pos_nonneg; lia. }
  revert Hs. generalize (of_Z (10 ^ Z.of_nat nd)). intros s Hs.
  destruct (round_half_even_nearest (x * s)) as [H1 H2].
  revert H1 H2. generalize (of_Z (round_half_even (x * s))). intros n H1 H2.
  assert (s ≠ 0) as Hs0 by by apply grid_ne.
  replace ((n / s - x) * s) with (n - x * s) by by field.
  replace ((x - n / s) * s) with (x * s - n) by by field.
  done.
Qed.

End DecimalRounding.

Section IntermediateClaims.
Local Open Scope Qc_scope.
Import PyNum.



End IntermediateClaims.

(** ** The exemption set by [specify_pseudo_ptax_policy] *)

Section PtaxPolicy.
Local Open Scope Qc_scope.
Import PyNum.

Lemma compound_cons syr irates lo hi :
  (lo < hi)%Z →
  compound syr irates lo hi
  = (1 + rate syr irates lo) * compound syr irates (lo + 1) hi.
Proof. intros H. unfold compound. by rewrite range_cons. Qed.

Lemma indexed_value_covered irates syr lo hi v :
  (∀ y, (lo ≤ y < hi)%Z → ∃ r, getitem irates (y - syr) = Ok r) →
  Ptax.indexed_value irates syr (range lo hi) v
  = Ok (v * compound syr irates lo hi).
Proof.
  destruct (decide (lo ≤ hi)%Z) as [Hle|Hgt].
  2:{ intros _. unfold compound, range. rewrite seqZ_nil by lia.
      cbn. f_equal. unfold product. cbn. ring. }
  remember (Z.to_nat (hi - lo)) as n eqn:Hn.
  revert lo v Hle Hn. induction n as [|n IH]; intros lo v Hle Hn Hcov.
  - assert (hi = lo) as -> by lia. rewrite range_nil, compound_nil.
    cbn. f_equal. ring.
  - rewrite range_cons, compound_cons by lia. cbn [Ptax.indexed_value].
    destruct (Hcov lo) as [r Hr]; [lia|]. rewrite Hr.
    rewrite IH; [|lia|lia|intros y Hy; apply Hcov; lia].
    rewrite (rate_covered _ _ _ _ Hr). f_equal. ring.
Qed.

(** The only exception of the loop is [IndexError], and a loop that
    returns has found a rate for every year. *)
Lemma indexed_value_outcome irates syr years v :
  match Ptax.indexed_value irates syr years v with
  | Ok _ => ∀ y, y ∈ years → ∃ r, getitem irates (y - syr) = Ok r
  | Raise e => e = IndexError
  end.
Proof.
  revert v. induction years as [|y years IH]; intros v; cbn.
  - intros y Hy. by apply elem_of_nil in Hy.
  - destruct (getitem irates (y - syr)) as [r|e] eqn:Hr.
    + specialize (IH (v * (1 + r))).
      destruct (Ptax.indexed_value _ _ _ _); [|done].
      intros y' [->|Hy']%elem_of_cons; [by exists r|by apply IH].
    + unfold getitem in Hr. cbv zeta in Hr.
      destruct (_ || _); [by injection Hr|].
      destruct (_ !! _); [done|by injection Hr].
Qed.

Lemma specify_run syr self s :
  (Ptax.ptax_em_active self = true →
   ∀ y, (2019 ≤ y < Ptax.current_year self)%Z →
     ∃ r, getitem (Ptax.inflation_rates self) (y - syr) = Ok r) →
  Ptax.ptax_em_active s = Ptax.ptax_em_active self →
  Ptax.current_year s = Ptax.current_year self →
  Ptax.inflation_rates s = Ptax.inflation_rates self →
  Ptax.specify_pseudo_ptax_policy syr s
  = (Ptax.set_ptax_em_param
       {[ "FICA_ss_em"%string := Ptax.PNum (indexed_exemption syr self);
          "FICA_ss_em_employer"%string := Ptax.PBool true ]} s, Ok tt).
Proof.
  intros Hcov Ha Hy Hr. unfold Ptax.specify_pseudo_ptax_policy. cbv zeta.
  cbn [Ptax.ptax_em_active Ptax.current_year Ptax.inflation_rates
       Ptax.ptax_em_param Ptax.set_ptax_em_param].
  rewrite Ha, Hy, Hr. unfold indexed_exemption.
  destruct (Ptax.ptax_em_active self && (2019 <=? Ptax.current_year self)%Z)
    eqn:Hactive.
  - apply andb_true_iff in Hactive as [Hactive _].
    unfold getkey. rewrite lookup_insert_eq. cbn [Ptax.number].
    rewrite indexed_value_covered by by apply Hcov.
    by rewrite insert_insert_eq.
  - by rewrite insert_insert_eq.
Qed.

End PtaxPolicy.

Section PtaxPolicyClaims.
Local Open Scope Qc_scope.
Import PyNum.



(** X16: for an active calculator in a year after 2019 whose rate list is
    too short, [specify_pseudo_ptax_policy] raises [IndexError] and leaves
    the values of the reform year in [ptax_em_param], the exemption 5000
    not indexed; [calc_all] stops there and [ptax_oasdi] is not
    assigned. *)
Theorem short_rates_leave_base_exemption syr self :
  Ptax.ptax_em_active self = true →
  (syr ≤ 2019 < Ptax.current_year self)%Z →
  (Z.of_nat (length (Ptax.inflation_rates self))
   < Ptax.current_year self - syr)%Z →
  let params : gmap string Ptax.pobj :=
    {[ "FICA_ss_em"%string := Ptax.PNum (of_Z 5000);
       "FICA_ss_em_employer"%string := Ptax.PBool true ]} in
  let self' := Ptax.set_ptax_em_param params self in
  Ptax.specify_pseudo_ptax_policy syr self = (self', Raise IndexError)
  ∧ Ptax.calc_all_ptax syr self = (self', Raise IndexError)
  ∧ Ptax.ptax_oasdi self' = Ptax.ptax_oasdi self.
Proof.
  intros Ha Hy Hshort params self'.
  assert (Ptax.specify_pseudo_ptax_policy syr self = (self', Raise IndexError))
    as Hrun.
  { unfold Ptax.specify_pseudo_ptax_policy. cbv zeta.
    cbn [Ptax.ptax_em_active Ptax.current_year Ptax.inflation_rates
         Ptax.ptax_em_param Ptax.set_ptax_em_param].
    rewrite Ha. replace (2019 <=? Ptax.current_year self)%Z with true
      by (symmetry; apply Z.leb_le; lia).
    cbn [andb]. unfold getkey. rewrite lookup_insert_eq. cbn [Ptax.number].
    pose proof (indexed_value_outcome (Ptax.inflation_rates self) syr
                  (range 2019 (Ptax.current_year self)) (of_Z 5000)) as H.
    destruct (Ptax.indexed_value _ _ _ _) as [v|e]; [|by rewrite H].
    exfalso. destruct (H (Ptax.current_year self - 1)%Z) as [r Hr].
    { apply elem_of_range. lia. }
    rewrite getitem_out_of_range in Hr by lia. done. }
  split; [done|]. split; [|done].
  unfold Ptax.calc_all_ptax. by rewrite Hrun.
Qed.

Lemma short_rates_leave_base_exemption_witness :
  let params : gmap string Ptax.pobj :=
    {[ "FICA_ss_em"%string := Ptax.PNum (of_Z 5000);
       "FICA_ss_em_employer"%string := Ptax.PBool true ]} in
  let self' := Ptax.set_ptax_em_param params Payroll.short_rates in
  Ptax.ptax_em_active Payroll.short_rates = true
  ∧ (2013 ≤ 2019 < Ptax.current_year Payroll.short_rates)%Z
  ∧ (Z.of_nat (length (Ptax.inflation_rates Payroll.short_rates))
     < Ptax.current_year Payroll.short_rates - 2013)%Z
  ∧ Ptax.specify_pseudo_ptax_policy 2013 Payroll.short_rates
    = (self', Raise IndexError)
  ∧ Ptax.calc_all_ptax 2013 Payroll.short_rates = (self', Raise IndexError)
  ∧ Ptax.ptax_oasdi self' = Ptax.ptax_oasdi Payroll.short_rates.
Proof.
  cbv zeta. split; [reflexivity|]. split; [cbn; lia|]. split; [cbn; lia|].
  apply (short_rates_leave_base_exemption 2013 Payroll.short_rates);
    [reflexivity|cbn; lia|cbn; lia].
Defined.

End PtaxPolicyClaims.

(** ** The amount computed by [pseudo_ptax_amount] *)

Section PtaxAmount.
Local Open Scope Qc_scope.
Import PyNum.

Lemma where_gtb_exempted x em :
  Ptax.np_where (Ptax.gtb x em) (x - em) 0 = exempted em x.
Proof.
  unfold Ptax.np_where, Ptax.gtb, ltb, exempted, qmax.
  case_bool_decide as H1; case_decide as H2; try done.
  - apply Qcle_antisym; [done|]. qc2q. lra.
  - exfalso. apply H2. apply Qcnot_lt_le in H1. qc2q. lra.
Qed.

(** The taxable wages and the taxable self-employment income of one
    person add up to [taxable]. *)
Lemma taxable_person c frac x y :
  let txearn_was := Ptax.np_where (ltb c x) c x in
  let temp1 := Ptax.np_where (Ptax.gtb 0 (y * frac)) 0 (y * frac) in
  let temp2 := c - txearn_was in
  let txearn_sey := Ptax.np_where (Ptax.gtb temp1 temp2) temp2 temp1 in
  txearn_was + txearn_sey = taxable c frac x y.
Proof.
  cbv zeta. unfold taxable, qmin, qmax, Ptax.np_where, Ptax.gtb, ltb.
  generalize (y * frac). intros z.
  repeat case_bool_decide; repeat case_decide;
    try (apply Qc_is_canon); qc2q; lra.
Qed.

Lemma oasdi_closed_form self em b u :
  Ptax.oasdi self em b u
  = Ptax.FICA_ss_trt self * Ptax.half * taxable_row self em u
    + Ptax.FICA_ss_trt self * Ptax.half
      * (if b then taxable_row self em u else taxable_row_pre self u).
Proof.
  unfold taxable_row, taxable_row_pre.
  rewrite <-!taxable_person. cbv zeta.
  unfold Ptax.oasdi. cbv zeta.
  rewrite !where_gtb_exempted.
  fold (sey_frac self) (wages_p u) (wages_s u) (sey_p u) (sey_s u).
  destruct b; ring.
Qed.

End PtaxAmount.

Section Taxable.
Local Open Scope Qc_scope.
Import PyNum.

Lemma exempted_nonneg em x : 0 ≤ exempted em x.
Proof. unfold exempted, qmax. case_decide; [apply Qcle_refl|].
  apply Qclt_le_weak. by apply Qcnot_le_lt. Qed.

Lemma exempted_antitone em em' x : em ≤ em' → exempted em' x ≤ exempted em x.
Proof.
  intros H. unfold exempted, qmax. repeat case_decide; qc2q; lra.
Qed.

Lemma exempted_zero x : 0 ≤ x → exempted 0 x = x.
Proof.
  intros H. unfold exempted, qmax. case_decide as H1.
  - apply Qcle_antisym; [done|]. revert H1. clear. intros H1. qc2q. lra.
  - ring.
Qed.

Lemma taxable_le_ceiling c frac x y : taxable c frac x y ≤ c.
Proof.
  unfold taxable, qmin. case_decide; [apply Qcle_refl|].
  apply Qclt_le_weak. by apply Qcnot_le_lt.
Qed.

Lemma taxable_nonneg c frac x y : 0 ≤ c → 0 ≤ x → 0 ≤ taxable c frac x y.
Proof.
  intros Hc Hx. unfold taxable, qmin, qmax. generalize (y * frac). intros z.
  repeat case_decide; qc2q; lra.
Qed.

Lemma taxable_mono c frac x x' y y' :
  0 ≤ frac → x ≤ x' → y ≤ y' → taxable c frac x y ≤ taxable c frac x' y'.
Proof.
  intros Hfrac Hx Hy. unfold taxable, qmin, qmax.
  assert (y * frac ≤ y' * frac) as Hz
    by (apply Qcmult_le_compat_r; done).
  revert Hz. generalize (y * frac) (y' * frac). intros z z' Hz.
  repeat case_decide; qc2q; lra.
Qed.

Lemma taxable_exempted_zero c frac x y :
  0 ≤ frac → 0 ≤ x →
  taxable c frac (exempted 0 x) (exempted 0 y) = taxable c frac x y.
Proof.
  intros Hfrac Hx. rewrite (exempted_zero x) by done.
  destruct (Qclt_le_dec 0 y) as [Hy|Hy].
  { rewrite (exempted_zero y); [done|]. by apply Qclt_le_weak. }
  assert (exempted 0 y = 0) as ->.
  { unfold exempted, qmax. rewrite decide_True; [done|].
    by replace (y - 0) with y by ring. }
  unfold taxable. do 2 f_equal. unfold qmax.
  rewrite Qcmult_0_l, decide_True by apply Qcle_refl.
  case_decide as H2; [|done].
  apply Qcle_antisym; [done|].
  replace 0 with (0 * frac) by ring. by apply Qcmult_le_compat_r.
Qed.

Lemma half_pos : 0 < Ptax.half.
Proof. done. Qed.

Lemma taxable_row_antitone self em em' u :
  0 ≤ sey_frac self → em ≤ em' →
  taxable_row self em' u ≤ taxable_row self em u.
Proof.
  intros Hfrac Hem. unfold taxable_row. apply Qcplus_le_compat;
    apply taxable_mono; auto using exempted_antitone.
Qed.

(** With the exemption for the employer too, the two halves add up to the
    rate. *)
Lemma oasdi_flag_true self em u :
  Ptax.oasdi self em true u = Ptax.FICA_ss_trt self * taxable_row self em u.
Proof.
  rewrite oasdi_closed_form.
  generalize (Ptax.FICA_ss_trt self) (taxable_row self em u). clear.
  intros t r. apply Qc_is_canon. unfold Ptax.half. qc2q. ring.
Qed.

End Taxable.

Section PtaxAmountClaims.
Local Open Scope Qc_scope.
Import PyNum.









End PtaxAmountClaims.

(** ** The two calls added to [calc_all] *)

Section PtaxRun.
Local Open Scope Qc_scope.
Import PyNum.

Lemma floor_nonneg x : 0 ≤ x → (0 ≤ floor x)%Z.
Proof.
  intros H. rewrite <-(floor_of_Z 0). by apply floor_mono.
Qed.

Lemma round_half_even_nonneg y : 0 ≤ y → (0 ≤ round_half_even y)%Z.
Proof.
  intros H%floor_nonneg. unfold round_half_even.
  repeat destruct (ltb _ _); [lia|lia|]. destruct (Z.even _); lia.
Qed.

Lemma py_round_nonneg x nd : 0 ≤ x → 0 ≤ py_round x nd.
Proof.
  intros Hx. unfold py_round. cbv zeta.
  assert (0 < of_Z (10 ^ Z.of_nat nd)) as Hs.
  { change 0 with (of_Z 0). apply (proj1 (of_Z_lt _ _)).
    apply Z.pow_pos_nonneg; lia. }
  revert Hs. generalize (of_Z (10 ^ Z.of_nat nd)). intros s Hs.
  assert (0 ≤ of_Z (round_half_even (x * s))) as Hn.
  { change 0 with (of_Z 0). apply (proj1 (of_Z_le _ _)).
    apply round_half_even_nonneg.
    replace 0 with (0 * s) by ring.
    apply Qcmult_le_compat_r; [done|]. by apply Qclt_le_weak. }
  revert Hn. generalize (of_Z (round_half_even (x * s))). intros n Hn.
  apply (proj1 (grid_le_iff s Hs _ _)).
  replace (n / s * s) with n by (field; by apply grid_ne).
  by rewrite Qcmult_0_l.
Qed.

Lemma indexed_exemption_nonneg syr self :
  (∀ y, (2019 ≤ y < Ptax.current_year self)%Z →
     0 ≤ rate syr (Ptax.inflation_rates self) y) →
  0 ≤ indexed_exemption syr self.
Proof.
  intros Hrates. unfold indexed_exemption.
  destruct (_ && _); [|apply Qcle_refl].
  apply py_round_nonneg.
  pose proof (compound_ge_1 syr (Ptax.inflation_rates self) 2019
                (Ptax.current_year self) Hrates) as H.
  revert H. generalize (compound syr (Ptax.inflation_rates self) 2019
                          (Ptax.current_year self)). intros c Hc.
  assert (0 ≤ of_Z 5000) as H5.
  { change 0 with (of_Z 0). apply (proj1 (of_Z_le _ _)). lia. }
  revert H5. generalize (of_Z 5000). clear -Hc. intros a Ha. qc2q. nra.
Qed.

Lemma pseudo_ptax_amount_run self em b :
  Ptax.ptax_em_param self !! "FICA_ss_em"%string = Some (Ptax.PNum em) →
  Ptax.ptax_em_param self !! "FICA_ss_em_employer"%string
  = Some (Ptax.PBool b) →
  Ptax.pseudo_ptax_amount self
  = (Ptax.set_ptax_oasdi (Ptax.oasdi self em b <$> Ptax.records self) self,
     Ok tt).
Proof.
  intros Hem Hb. unfold Ptax.pseudo_ptax_amount, getkey. by rewrite Hem, Hb.
Qed.

Lemma oasdi_init a base em b u :
  Ptax.oasdi (Ptax.init a base) em b u = Ptax.oasdi base em b u.
Proof. reflexivity. Qed.

Lemma calc_all_ptax_run syr self :
  (Ptax.ptax_em_active self = true →
   ∀ y, (2019 ≤ y < Ptax.current_year self)%Z →
     ∃ r, getitem (Ptax.inflation_rates self) (y - syr) = Ok r) →
  ∃ self',
    Ptax.calc_all_ptax syr self = (self', Ok tt)
    ∧ Ptax.ptax_oasdi self'
      = Ptax.oasdi self (indexed_exemption syr self) true
          <$> Ptax.records self
    ∧ Ptax.ptax_em_param self'
      = {[ "FICA_ss_em"%string := Ptax.PNum (indexed_exemption syr self);
           "FICA_ss_em_employer"%string := Ptax.PBool true ]}.
Proof.
  intros Hcov. unfold Ptax.calc_all_ptax.
  rewrite (specify_run syr self self Hcov) by done.
  erewrite pseudo_ptax_amount_run.
  2:{ cbn [Ptax.ptax_em_param Ptax.set_ptax_em_param].
      by rewrite lookup_insert_eq. }
  2:{ cbn [Ptax.ptax_em_param Ptax.set_ptax_em_param].
      rewrite lookup_insert_ne by done. by rewrite lookup_singleton_eq. }
  eexists. split; [done|]. split; [|done].
  cbn [Ptax.ptax_oasdi Ptax.set_ptax_oasdi Ptax.records
       Ptax.set_ptax_em_param].
  apply list_fmap_ext. intros i u _. reflexivity.
Qed.

End PtaxRun.

Section PtaxRunClaims.
Local Open Scope Qc_scope.
Import PyNum.



(** X22: the order of the two calls added to [calc_all].
    [pseudo_ptax_amount] on a calculator fresh from [__init__] raises
    [KeyError], for [ptax_em_param] is empty; after
    [specify_pseudo_ptax_policy] it never does.  The two calls together
    return, with one amount per unit in [ptax_oasdi] and both parameters
    set, or raise [IndexError], for a rate that is missing, before
    [ptax_oasdi] is assigned. *)
Theorem calc_all_never_misses_a_parameter syr self :
  match Ptax.calc_all_ptax syr self with
  | (self', Ok _) =>
      length (Ptax.ptax_oasdi self') = length (Ptax.records self)
      ∧ is_Some (Ptax.ptax_em_param self' !! "FICA_ss_em"%string)
      ∧ Ptax.ptax_em_param self' !! "FICA_ss_em_employer"%string
        = Some (Ptax.PBool true)
  | (self', Raise e) =>
      e = IndexError ∧ Ptax.ptax_oasdi self' = Ptax.ptax_oasdi self
  end
  ∧ ∀ b, Ptax.pseudo_ptax_amount (Ptax.init b self)
         = (Ptax.init b self, Raise KeyError).
Proof.
  split; [|done].
  unfold Ptax.calc_all_ptax, Ptax.specify_pseudo_ptax_policy. cbv zeta.
  cbn [Ptax.ptax_em_active Ptax.current_year Ptax.inflation_rates
       Ptax.ptax_em_param Ptax.set_ptax_em_param].
  assert (∀ (x : Qc) s,
            Ptax.ptax_em_param s
            = <["FICA_ss_em"%string := Ptax.PNum x]>
                {[ "FICA_ss_em"%string := Ptax.PNum (of_Z 5000);
                   "FICA_ss_em_employer"%string := Ptax.PBool true ]} →
            Ptax.records s = Ptax.records self →
            match Ptax.pseudo_ptax_amount s with
            | (self', Ok _) =>
                length (Ptax.ptax_oasdi self') = length (Ptax.records self)
                ∧ is_Some (Ptax.ptax_em_param self' !! "FICA_ss_em"%string)
                ∧ Ptax.ptax_em_param self' !! "FICA_ss_em_employer"%string
                  = Some (Ptax.PBool true)
            | (self', Raise e) =>
                e = IndexError ∧ Ptax.ptax_oasdi self' = Ptax.ptax_oasdi self
            end) as Hamount.
  { intros x s Hs Hrecs.
    rewrite (pseudo_ptax_amount_run s x true).
    - cbn [Ptax.ptax_oasdi Ptax.ptax_em_param Ptax.set_ptax_oasdi].
      rewrite length_fmap, Hrecs, Hs. split; [done|].
      rewrite lookup_insert_eq, lookup_insert_ne by done.
      rewrite lookup_insert_ne by done. rewrite lookup_singleton_eq.
      split; [by eexists|done].
    - by rewrite Hs, lookup_insert_eq.
    - rewrite Hs, lookup_insert_ne by done.
      rewrite lookup_insert_ne by done. by rewrite lookup_singleton_eq. }
  destruct (Ptax.ptax_em_active self && (2019 <=? Ptax.current_year self)%Z).
  - unfold getkey. rewrite lookup_insert_eq. cbn [Ptax.number].
    pose proof (indexed_value_outcome (Ptax.inflation_rates self) syr
                  (range 2019 (Ptax.current_year self)) (of_Z 5000)) as H.
    destruct (Ptax.indexed_value _ _ _ _) as [v|e]; [|by rewrite H].
    by apply (Hamount (py_round v 2)).
  - by apply (Hamount 0).
Qed.

End PtaxRunClaims.
